(** * odds-edge: the edge engine and the event matcher

    A shallow embedding of the core of the repository:
    - [core/fee_calculator.py]   the venue's fee model,
    - [core/odds_converter.py]   American odds and vig removal,
    - [models/opportunity.py]    [EdgeCalculation] and [ValueOpportunity],
    - [core/value_finder.py]     the consensus builder and the edge engine,
    - [core/event_matcher.py]    name normalisation and event matching.

    Numbers.  Python's [int] is [Z].  Python's [float] values are read as
    exact rationals ([Q]): every arithmetic expression of the source is
    kept operator for operator, and is evaluated without rounding error;
    equality of such values is [Qeq] ([==]).  The statements over all
    inputs are statements of this reading.  Python computes on IEEE 754
    binary64 numbers, and the fee takes the ceiling of a product of such
    numbers: the module [Binary64] is the fee function on binary64 numbers
    themselves, and is compared with the exact reading on the calls the
    engine makes.

    Errors.  A raised exception is a value of [result]; the statements of
    the source are sequenced with the bind of that type. *)

From Stdlib Require Import ZArith QArith Qround Qabs Lqa Lia Bool.
From Stdlib Require Import Floats Uint63.
From Stdlib Require Import String Ascii List Sorted.
From stdpp Require Import base option list gmap strings.
Import ListNotations.

Local Open Scope Z_scope.

(** ** Exceptions *)

Inductive exn : Type :=
| ValueError (msg : string)
| OverflowError (msg : string)
| StatisticsError (msg : string).

Inductive result (A : Type) : Type :=
| Ok (a : A)
| Raise (e : exn).
Arguments Ok {A} a.
Arguments Raise {A} e.

#[global] Instance result_bind : MBind result := fun A B k r =>
  match r with
  | Ok a => k a
  | Raise e => Raise e
  end.
#[global] Instance result_ret : MRet result := fun A a => Ok a.

(** [for x in xs: body], the loop state threaded through, an exception of
    the body leaving the loop. *)
Fixpoint for_each {A S : Type} (xs : list A) (body : A -> S -> result S)
  (s : S) : result S :=
  match xs with
  | [] => Ok s
  | x :: xs' => s' ← body x s; for_each xs' body s'
  end.

(** ** Comparisons of rationals as the booleans Python computes *)

Definition Qleb (x y : Q) : bool := Qle_bool x y.
Definition Qltb (x y : Q) : bool := negb (Qle_bool y x).

(** ** config/settings.py *)

Module settings.
Definition MIN_NET_EDGE : Q := 2 # 100.                     (* 0.02 *)
Definition MIN_BOOKMAKERS : Z := 3.
Definition KALSHI_TAKER_FEE_MULTIPLIER : Q := 7 # 100.      (* 0.07 *)
Definition KALSHI_MAKER_FEE_MULTIPLIER : Q := 175 # 10000.  (* 0.0175 *)

Definition TARGET_SPORTS : list string :=
  ["americanfootball_nfl"; "basketball_nba"; "basketball_ncaab";
   "basketball_wncaab"; "icehockey_nhl"; "baseball_mlb"].

(** The entries of the dict literal, in its order. *)
Definition SPORT_DISPLAY_NAMES : list (string * string) :=
  [("americanfootball_nfl", "NFL"); ("basketball_nba", "NBA");
   ("basketball_ncaab", "NCAAB"); ("basketball_wncaab", "WNCAAB");
   ("icehockey_nhl", "NHL"); ("baseball_mlb", "MLB")].

Definition MAX_RETRIES : nat := 3.
Definition RETRY_BASE_DELAY : Z := 1.

End settings.
Import settings.

(** ** core/fee_calculator.py *)

(** [math.ceil(x)]: the least integer not below [x]. *)
Definition ceil (x : Q) : Z := Qceiling x.

Definition raw_fee (price : Q) (num_contracts : Z) (is_maker : bool) : Q :=
  let multiplier :=
    if is_maker then KALSHI_MAKER_FEE_MULTIPLIER
    else KALSHI_TAKER_FEE_MULTIPLIER in
  (multiplier * inject_Z num_contracts * price * (1 - price))%Q.

Definition calculate_kalshi_fee (price : Q) (num_contracts : Z)
  (is_maker : bool) : result Q :=
  if Qleb price 0 || Qleb 1 price then
    Raise (ValueError "Price must be between 0 and 1 exclusive")
  else if num_contracts <=? 0 then
    Raise (ValueError "Number of contracts must be positive")
  else
    Ok (inject_Z (ceil (raw_fee price num_contracts is_maker * 100)) / 100)%Q.

Definition calculate_effective_cost (price : Q) (num_contracts : Z)
  (is_maker : bool) : result Q :=
  fee ← calculate_kalshi_fee price num_contracts is_maker;
  Ok ((price * inject_Z num_contracts) + fee)%Q.

(** ** core/fee_calculator.py, on binary64 numbers *)

Module Binary64.
#[local] Set Warnings "-inexact-float".

(** [float(n)] for an [int] below 2^63 in absolute value. *)
Definition float_of_int (n : Z) : float :=
  if n <? 0 then PrimFloat.opp (PrimFloat.of_uint63 (Uint63.of_Z (- n)))
  else PrimFloat.of_uint63 (Uint63.of_Z n).

(** [math.ceil(x)]: an [int] for a finite [x], an exception otherwise. *)
Definition ceil (x : float) : result Z :=
  match Prim2SF x with
  | S754_zero _ => Ok 0
  | S754_finite negative m e =>
      let magnitude_up :=       (* ceil (m * 2^e) *)
        if 0 <=? e then Zpos m * 2 ^ e else - ((- Zpos m) / 2 ^ (- e)) in
      let magnitude_down :=     (* floor (m * 2^e) *)
        if 0 <=? e then Zpos m * 2 ^ e else Zpos m / 2 ^ (- e) in
      Ok (if negative then - magnitude_down else magnitude_up)
  | S754_infinity _ =>
      Raise (OverflowError "cannot convert float infinity to integer")
  | S754_nan => Raise (ValueError "cannot convert float NaN to integer")
  end.

(** The number of cents [math.ceil(raw_fee * 100)]. *)
Definition fee_cents (price : float) (num_contracts : Z) (is_maker : bool)
  : result Z :=
  if PrimFloat.leb price 0 || PrimFloat.leb 1 price then
    Raise (ValueError "Price must be between 0 and 1 exclusive")
  else if num_contracts <=? 0 then
    Raise (ValueError "Number of contracts must be positive")
  else
    let multiplier := if is_maker then 0.0175%float else 0.07%float in
    let raw_fee :=
      (multiplier * float_of_int num_contracts * price * (1 - price))%float in
    ceil (raw_fee * 100)%float.

Definition calculate_kalshi_fee (price : float) (num_contracts : Z)
  (is_maker : bool) : result float :=
  cents ← fee_cents price num_contracts is_maker;
  Ok (float_of_int cents / 100)%float.

(** [yes_ask / 100], the price the engine passes for a listing. *)
Definition ask_price (yes_ask : Z) : float :=
  (float_of_int yes_ask / 100)%float.

(** [int(x)]: the integer part of a finite [x], towards zero. *)
Definition int (x : float) : result Z :=
  match Prim2SF x with
  | S754_zero _ => Ok 0
  | S754_finite negative m e =>
      let magnitude :=
        if 0 <=? e then Zpos m * 2 ^ e else Zpos m / 2 ^ (- e) in
      Ok (if negative then - magnitude else magnitude)
  | S754_infinity _ =>
      Raise (OverflowError "cannot convert float infinity to integer")
  | S754_nan => Raise (ValueError "cannot convert float NaN to integer")
  end.

(** [int(bet_price * 100)] of output/console.py. *)
Definition price_cents (bet_price : float) : result Z :=
  int (bet_price * 100)%float.

End Binary64.

(** ** core/odds_converter.py *)

Definition american_to_implied_prob (american_odds : Z) : Q :=
  if 0 <? american_odds then
    (100 / (inject_Z american_odds + 100))%Q
  else
    (inject_Z (Z.abs american_odds) / (inject_Z (Z.abs american_odds) + 100))%Q.

Definition remove_vig (prob_a prob_b : Q) : result (Q * Q) :=
  let total := (prob_a + prob_b)%Q in
  if Qleb total 0 then
    Raise (ValueError "Sum of probabilities must be positive")
  else
    Ok ((prob_a / total)%Q, (prob_b / total)%Q).

(** ** Python's [sorted] and the [statistics] module *)

(** [sorted] is stable: an element is placed after the elements that are not
    greater than it.  [lt] is the comparison [<] the sort uses. *)
Fixpoint insert_sorted {A : Type} (lt : A -> A -> bool) (x : A) (l : list A)
  : list A :=
  match l with
  | [] => [x]
  | y :: l' => if lt y x then y :: insert_sorted lt x l' else x :: l
  end.

Definition sorted {A : Type} (lt : A -> A -> bool) (l : list A) : list A :=
  foldr (insert_sorted lt) [] l.

(** [sorted(l, key=key, reverse=True)]: descending in [key], elements of
    equal key in their order in [l]. *)
Definition sorted_key_reverse {A : Type} (key : A -> Q) (l : list A) : list A :=
  sorted (fun a b => Qltb (key b) (key a)) l.

Definition Qsum (l : list Q) : Q := foldr Qplus 0%Q l.

Definition len {A : Type} (l : list A) : Z := Z.of_nat (length l).

(** [statistics.median]: the middle element of the sorted data, the mean of
    the two middle elements when their number is even. *)
Definition median (data : list Q) : result Q :=
  let data := sorted Qltb data in
  let n := length data in
  if (n =? 0)%nat then Raise (StatisticsError "no median for empty data")
  else if (n mod 2 =? 1)%nat then Ok (nth (n / 2) data 0%Q)
  else
    let i := (n / 2)%nat in
    Ok ((nth (i - 1) data 0 + nth i data 0) / 2)%Q.

Definition mean (data : list Q) : Q := (Qsum data / inject_Z (len data))%Q.

(** [statistics.variance]: the sample variance, on [n - 1]. *)
Definition variance (data : list Q) : Q :=
  let m := mean data in
  (Qsum (map (fun x => (x - m) * (x - m)) data) / (inject_Z (len data) - 1))%Q.

(** A square root is irrational in general: the value [math.sqrt(r)] is kept
    as its radicand [r], and its order is decided on the radicands. *)
Record root : Type := Sqrt { radicand : Q }.

Definition root_max (a b : root) : root :=
  if Qltb (radicand a) (radicand b) then b else a.

(** [sqrt r < c] for a bound [c >= 0]. *)
Definition root_ltb (a : root) (c : Q) : bool := Qltb (radicand a) (c * c).

(** [statistics.stdev]: the square root of the sample variance. *)
Definition stdev (data : list Q) : result root :=
  if (length data <? 2)%nat then
    Raise (StatisticsError "stdev requires at least two data points")
  else Ok (Sqrt (variance data)).

(** ** models/opportunity.py *)

Module ValueOpportunity.
Record t : Type := mk {
  sport : string;
  vegas_event_id : string;
  kalshi_ticker : string;
  home_team : string;
  away_team : string;
  vegas_home_prob : Q;
  vegas_away_prob : Q;
  kalshi_home_price : Q;
  kalshi_away_price : Q;
  recommended_position : string;
  recommended_team : string;
  gross_edge : Q;
  net_edge : Q;
  fee_impact : Q;
  expected_value_per_contract : Q;
  expected_value_100_contracts : Q;
  num_bookmakers : Z;
  confidence : string
}.
End ValueOpportunity.

Module EdgeCalculation.
Record t : Type := mk {
  position : string;
  kalshi_price : Q;
  vegas_prob : Q;
  fee_per_contract : Q;
  effective_cost : Q;
  gross_edge : Q;
  net_edge : Q;
  expected_value_per_contract : Q;
  total_expected_value : Q;
  is_value_bet : bool
}.

Definition calculate (kalshi_price vegas_true_prob : Q) (num_contracts : Z)
  (position : string) (is_maker : bool) : result t :=
  fee ← calculate_kalshi_fee kalshi_price num_contracts is_maker;
  let fee_per_contract := (fee / inject_Z num_contracts)%Q in
  if String.eqb position "yes" then
    let effective_cost := (kalshi_price + fee_per_contract)%Q in
    let potential_profit := (1 - effective_cost)%Q in
    let expected_value :=
      ((vegas_true_prob * potential_profit)
       - ((1 - vegas_true_prob) * effective_cost))%Q in
    let gross_edge := (vegas_true_prob - kalshi_price)%Q in
    let net_edge := (vegas_true_prob - effective_cost)%Q in
    let relevant_prob := vegas_true_prob in
    Ok (mk position kalshi_price relevant_prob fee_per_contract
          effective_cost gross_edge net_edge expected_value
          (expected_value * inject_Z num_contracts)%Q (Qltb 0 net_edge))
  else
    let no_price := (1 - kalshi_price)%Q in
    let effective_cost := (no_price + fee_per_contract)%Q in
    let potential_profit := (1 - effective_cost)%Q in
    let vegas_no_prob := (1 - vegas_true_prob)%Q in
    let expected_value :=
      ((vegas_no_prob * potential_profit)
       - ((1 - vegas_no_prob) * effective_cost))%Q in
    let gross_edge := (vegas_no_prob - no_price)%Q in
    let net_edge := (vegas_no_prob - effective_cost)%Q in
    let kalshi_price := no_price in
    let relevant_prob := vegas_no_prob in
    Ok (mk position kalshi_price relevant_prob fee_per_contract
          effective_cost gross_edge net_edge expected_value
          (expected_value * inject_Z num_contracts)%Q (Qltb 0 net_edge)).
End EdgeCalculation.

(** ** Python's [str] methods, on ASCII text *)

Module Str.
Local Open Scope nat_scope.

Definition is_upper (c : ascii) : bool :=
  (65 <=? nat_of_ascii c) && (nat_of_ascii c <=? 90).

Definition lower_char (c : ascii) : ascii :=
  if is_upper c then ascii_of_nat (nat_of_ascii c + 32) else c.

(** [s.lower()] *)
Fixpoint lower (s : string) : string :=
  match s with
  | EmptyString => EmptyString
  | String c s' => String (lower_char c) (lower s')
  end.

(** The ASCII characters [str.isspace] accepts: tab, line feed, vertical
    tab, form feed, carriage return, the four separators 28..31, space. *)
Definition is_space (c : ascii) : bool :=
  let n := nat_of_ascii c in
  ((9 <=? n) && (n <=? 13)) || ((28 <=? n) && (n <=? 32)).

Fixpoint lstrip (s : string) : string :=
  match s with
  | EmptyString => EmptyString
  | String c s' => if is_space c then lstrip s' else s
  end.

Definition rstrip (s : string) : string := String.rev (lstrip (String.rev s)).

(** [s.strip()] *)
Definition strip (s : string) : string := rstrip (lstrip s).

(** [s.startswith(p)] and [s.endswith(p)] *)
Definition startswith (s p : string) : bool := String.prefix p s.
Definition endswith (s p : string) : bool :=
  String.prefix (String.rev p) (String.rev s).

(** [needle in haystack] *)
Fixpoint contains (needle haystack : string) : bool :=
  String.prefix needle haystack ||
  match haystack with
  | EmptyString => false
  | String _ h' => contains needle h'
  end.

(** [s[n:]] and [s[:n]] for [n >= 0] *)
Fixpoint drop (n : nat) (s : string) : string :=
  match n, s with
  | O, _ => s
  | S _, EmptyString => EmptyString
  | S n', String _ s' => drop n' s'
  end.
Definition take (n : nat) (s : string) : string := String.substring 0 n s.

(** [s.replace(old, new)] for a non-empty [old]: the occurrences of [old]
    are replaced from the left, without overlap.  [skip] counts the
    characters of a replaced occurrence still to pass over. *)
Fixpoint replace_go (old new : string) (skip : nat) (s : string) : string :=
  match s with
  | EmptyString => EmptyString
  | String c s' =>
      match skip with
      | S k => replace_go old new k s'
      | O =>
          if String.prefix old s
          then String.app new (replace_go old new (String.length old - 1) s')
          else String c (replace_go old new 0 s')
      end
  end.
Definition replace (s old new : string) : string := replace_go old new 0 s.

(** [s.split()]: the maximal runs of characters that are not white space.
    [cur] is the run being read, reversed. *)
Fixpoint split_go (cur : string) (s : string) : list string :=
  match s with
  | EmptyString =>
      match cur with EmptyString => [] | _ => [String.rev cur] end
  | String c s' =>
      if is_space c then
        match cur with
        | EmptyString => split_go EmptyString s'
        | _ => String.rev cur :: split_go EmptyString s'
        end
      else split_go (String c cur) s'
  end.
Definition split (s : string) : list string := split_go EmptyString s.

(** [sep.join(l)] *)
Definition join (sep : string) (l : list string) : string :=
  String.concat sep l.

(** [sorted(l, key=len, reverse=True)] *)
Definition sorted_len_reverse (l : list string) : list string :=
  sorted (fun a b => String.length b <? String.length a) l.

Definition is_lower (c : ascii) : bool :=
  (97 <=? nat_of_ascii c) && (nat_of_ascii c <=? 122).

Definition upper_char (c : ascii) : ascii :=
  if is_lower c then ascii_of_nat (nat_of_ascii c - 32) else c.

(** [s.upper()] *)
Fixpoint upper (s : string) : string :=
  match s with
  | EmptyString => EmptyString
  | String c s' => String (upper_char c) (upper s')
  end.

(** [s.split(sep)] for a separator of one character: the pieces between
    the occurrences of [sep], empty pieces included.  [cur] is the piece
    being read, reversed. *)
Fixpoint split_on_go (sep : ascii) (cur : string) (s : string) : list string :=
  match s with
  | EmptyString => [String.rev cur]
  | String c s' =>
      if Ascii.eqb c sep then String.rev cur :: split_on_go sep EmptyString s'
      else split_on_go sep (String c cur) s'
  end.
Definition split_on (sep : ascii) (s : string) : list string :=
  split_on_go sep EmptyString s.

End Str.

(** A dict literal, built entry after entry: a key written twice keeps the
    value written last. *)
Definition dict_of_items (items : list (string * string)) : gmap string string :=
  fold_left (fun d kv => <[kv.1 := kv.2]> d) items ∅.

(** ** core/event_matcher.py: the tables *)

Definition CITY_PREFIXES : list string :=
  [
    "los angeles"; "la"; "new york"; "ny"; "san francisco"; "sf"; "tampa bay";
    "tb"; "golden state"; "gs"; "san antonio"; "sa"; "oklahoma city"; "okc";
    "new orleans"; "no"; "green bay"; "gb"; "kansas city"; "kc"; "las vegas";
    "lv"; "new england"; "ne"; "san diego"; "sd"; "san jose"; "sj";
    "st louis"; "stl"; "salt lake"; "sl"; "twin cities"; "minnesota"; "mn";
    "washington"; "dc"; "miami"; "denver"; "phoenix"; "seattle"; "boston";
    "chicago"; "detroit"; "houston"; "dallas"; "atlanta"; "philadelphia";
    "baltimore"; "cleveland"; "indianapolis"; "jacksonville"; "cincinnati";
    "pittsburgh"; "carolina"; "arizona"; "tennessee"; "buffalo"; "milwaukee";
    "orlando"; "memphis"; "portland"; "sacramento"; "utah"; "toronto";
    "brooklyn"; "colorado"; "florida"; "anaheim"; "columbus"; "edmonton";
    "calgary"; "vancouver"; "ottawa"; "montreal"; "winnipeg"; "nashville";
    "new jersey"
  ].

Definition NICKNAME_TO_ABBREV_items : list (string * string) :=
  [
    ("hawks", "atl"); ("celtics", "bos"); ("nets", "bkn"); ("hornets", "cha");
    ("bulls", "chi"); ("cavaliers", "cle"); ("cavs", "cle");
    ("mavericks", "dal"); ("mavs", "dal"); ("nuggets", "den");
    ("pistons", "det"); ("warriors", "gsw"); ("rockets", "hou");
    ("pacers", "ind"); ("clippers", "lac"); ("lakers", "lal");
    ("grizzlies", "mem"); ("heat", "mia"); ("bucks", "mil");
    ("timberwolves", "min"); ("wolves", "min"); ("pelicans", "nop");
    ("knicks", "nyk"); ("thunder", "okc"); ("magic", "orl"); ("76ers", "phi");
    ("sixers", "phi"); ("suns", "phx"); ("trail blazers", "por");
    ("blazers", "por"); ("kings", "sac"); ("spurs", "sas");
    ("raptors", "tor"); ("jazz", "uta"); ("wizards", "was");
    ("cardinals", "ari"); ("falcons", "atl"); ("ravens", "bal");
    ("bills", "buf"); ("panthers", "car"); ("bears", "chi");
    ("bengals", "cin"); ("browns", "cle"); ("cowboys", "dal");
    ("broncos", "den"); ("lions", "det"); ("packers", "gb");
    ("texans", "hou"); ("colts", "ind"); ("jaguars", "jax"); ("chiefs", "kc");
    ("raiders", "lv"); ("chargers", "lac"); ("rams", "lar");
    ("dolphins", "mia"); ("vikings", "min"); ("patriots", "ne");
    ("pats", "ne"); ("saints", "no"); ("giants", "nyg"); ("jets", "nyj");
    ("eagles", "phi"); ("steelers", "pit"); ("49ers", "sf"); ("niners", "sf");
    ("seahawks", "sea"); ("buccaneers", "tb"); ("bucs", "tb");
    ("titans", "ten"); ("commanders", "was"); ("ducks", "ana");
    ("coyotes", "ari"); ("bruins", "bos"); ("sabres", "buf");
    ("flames", "cgy"); ("hurricanes", "car"); ("blackhawks", "chi");
    ("avalanche", "col"); ("blue jackets", "cbj"); ("stars", "dal");
    ("red wings", "det"); ("oilers", "edm"); ("panthers", "fla");
    ("kings", "la"); ("wild", "min"); ("canadiens", "mtl"); ("habs", "mtl");
    ("predators", "nsh"); ("preds", "nsh"); ("devils", "njd");
    ("islanders", "nyi"); ("rangers", "nyr"); ("senators", "ott");
    ("sens", "ott"); ("flyers", "phi"); ("penguins", "pit"); ("pens", "pit");
    ("sharks", "sjs"); ("kraken", "sea"); ("blues", "stl");
    ("lightning", "tbl"); ("bolts", "tbl"); ("maple leafs", "tor");
    ("leafs", "tor"); ("canucks", "van"); ("golden knights", "vgk");
    ("knights", "vgk"); ("capitals", "wsh"); ("caps", "wsh"); ("jets", "wpg");
    ("diamondbacks", "ari"); ("d-backs", "ari"); ("braves", "atl");
    ("orioles", "bal"); ("red sox", "bos"); ("cubs", "chc");
    ("white sox", "cws"); ("reds", "cin"); ("guardians", "cle");
    ("rockies", "col"); ("tigers", "det"); ("astros", "hou");
    ("royals", "kc"); ("angels", "laa"); ("dodgers", "lad");
    ("marlins", "mia"); ("brewers", "mil"); ("twins", "min"); ("mets", "nym");
    ("yankees", "nyy"); ("athletics", "ath"); ("a's", "ath");
    ("phillies", "phi"); ("pirates", "pit"); ("padres", "sd");
    ("giants", "sf"); ("mariners", "sea"); ("cardinals", "stl");
    ("rays", "tb"); ("rangers", "tex"); ("blue jays", "tor"); ("jays", "tor");
    ("nationals", "wsh"); ("nats", "wsh")
  ].

Definition FULL_NAME_TO_ABBREV_items : list (string * string) :=
  [
    ("atlanta hawks", "atl"); ("boston celtics", "bos");
    ("brooklyn nets", "bkn"); ("charlotte hornets", "cha");
    ("chicago bulls", "chi"); ("cleveland cavaliers", "cle");
    ("dallas mavericks", "dal"); ("denver nuggets", "den");
    ("detroit pistons", "det"); ("golden state warriors", "gsw");
    ("houston rockets", "hou"); ("indiana pacers", "ind");
    ("los angeles clippers", "lac"); ("la clippers", "lac");
    ("los angeles lakers", "lal"); ("la lakers", "lal");
    ("memphis grizzlies", "mem"); ("miami heat", "mia");
    ("milwaukee bucks", "mil"); ("minnesota timberwolves", "min");
    ("new orleans pelicans", "nop"); ("new york knicks", "nyk");
    ("oklahoma city thunder", "okc"); ("orlando magic", "orl");
    ("philadelphia 76ers", "phi"); ("phoenix suns", "phx");
    ("portland trail blazers", "por"); ("sacramento kings", "sac");
    ("san antonio spurs", "sas"); ("toronto raptors", "tor");
    ("utah jazz", "uta"); ("washington wizards", "was");
    ("arizona cardinals", "ari"); ("atlanta falcons", "atl");
    ("baltimore ravens", "bal"); ("buffalo bills", "buf");
    ("carolina panthers", "car"); ("chicago bears", "chi");
    ("cincinnati bengals", "cin"); ("cleveland browns", "cle");
    ("dallas cowboys", "dal"); ("denver broncos", "den");
    ("detroit lions", "det"); ("green bay packers", "gb");
    ("houston texans", "hou"); ("indianapolis colts", "ind");
    ("jacksonville jaguars", "jax"); ("kansas city chiefs", "kc");
    ("las vegas raiders", "lv"); ("los angeles chargers", "lac");
    ("la chargers", "lac"); ("los angeles rams", "lar"); ("la rams", "lar");
    ("miami dolphins", "mia"); ("minnesota vikings", "min");
    ("new england patriots", "ne"); ("new orleans saints", "no");
    ("new york giants", "nyg"); ("new york jets", "nyj");
    ("philadelphia eagles", "phi"); ("pittsburgh steelers", "pit");
    ("san francisco 49ers", "sf"); ("seattle seahawks", "sea");
    ("tampa bay buccaneers", "tb"); ("tennessee titans", "ten");
    ("washington commanders", "was"); ("anaheim ducks", "ana");
    ("arizona coyotes", "ari"); ("boston bruins", "bos");
    ("buffalo sabres", "buf"); ("calgary flames", "cgy");
    ("carolina hurricanes", "car"); ("chicago blackhawks", "chi");
    ("colorado avalanche", "col"); ("columbus blue jackets", "cbj");
    ("dallas stars", "dal"); ("detroit red wings", "det");
    ("edmonton oilers", "edm"); ("florida panthers", "fla");
    ("los angeles kings", "la"); ("la kings", "la");
    ("minnesota wild", "min"); ("montreal canadiens", "mtl");
    ("nashville predators", "nsh"); ("new jersey devils", "njd");
    ("new york islanders", "nyi"); ("new york rangers", "nyr");
    ("ottawa senators", "ott"); ("philadelphia flyers", "phi");
    ("pittsburgh penguins", "pit"); ("san jose sharks", "sjs");
    ("seattle kraken", "sea"); ("st louis blues", "stl");
    ("st. louis blues", "stl"); ("tampa bay lightning", "tbl");
    ("toronto maple leafs", "tor"); ("utah hockey club", "uta");
    ("vancouver canucks", "van"); ("vegas golden knights", "vgk");
    ("washington capitals", "wsh"); ("winnipeg jets", "wpg");
    ("arizona diamondbacks", "ari"); ("atlanta braves", "atl");
    ("baltimore orioles", "bal"); ("boston red sox", "bos");
    ("chicago cubs", "chc"); ("chicago white sox", "cws");
    ("cincinnati reds", "cin"); ("cleveland guardians", "cle");
    ("colorado rockies", "col"); ("detroit tigers", "det");
    ("houston astros", "hou"); ("kansas city royals", "kc");
    ("los angeles angels", "laa"); ("la angels", "laa");
    ("los angeles dodgers", "lad"); ("la dodgers", "lad");
    ("miami marlins", "mia"); ("milwaukee brewers", "mil");
    ("minnesota twins", "min"); ("new york mets", "nym");
    ("new york yankees", "nyy"); ("oakland athletics", "ath");
    ("philadelphia phillies", "phi"); ("pittsburgh pirates", "pit");
    ("san diego padres", "sd"); ("san francisco giants", "sf");
    ("seattle mariners", "sea"); ("st louis cardinals", "stl");
    ("st. louis cardinals", "stl"); ("tampa bay rays", "tb");
    ("texas rangers", "tex"); ("toronto blue jays", "tor");
    ("washington nationals", "wsh")
  ].

Definition COLLEGE_MASCOTS : list string :=
  [
    "wildcats"; "bulldogs"; "tigers"; "eagles"; "bears"; "lions"; "panthers";
    "hawks"; "huskies"; "cardinals"; "knights"; "bearcats"; "buckeyes";
    "wolverines"; "spartans"; "gophers"; "badgers"; "hawkeyes"; "cyclones";
    "jayhawks"; "sooners"; "longhorns"; "aggies"; "razorbacks"; "rebels";
    "volunteers"; "commodores"; "gamecocks"; "gators"; "seminoles";
    "hurricanes"; "cavaliers"; "hokies"; "wolfpack"; "tar heels";
    "blue devils"; "demon deacons"; "orange"; "yellow jackets";
    "fighting irish"; "trojans"; "bruins"; "ducks"; "beavers"; "cougars";
    "utes"; "buffaloes"; "sun devils"; "golden bears"; "cardinal";
    "mountaineers"; "red raiders"; "horned frogs"; "mustangs"; "owls";
    "bobcats"; "roadrunners"; "miners"; "lobos"; "aztecs"; "falcons"; "rams";
    "broncos"; "cowboys"; "cornhuskers"; "bluejays"; "shockers"; "pirates";
    "billikens"; "musketeers"; "hoyas"; "friars"; "red storm"; "peacocks";
    "gaels"; "toreros"; "dons"; "waves"; "anteaters"; "matadors"; "titans";
    "highlanders"; "hornets"; "braves"; "jaguars"; "golden lions"; "bison";
    "midshipmen"; "black knights"; "scarlet knights"; "nittany lions";
    "terrapins"; "hoosiers"; "boilermakers"; "fighting illini";
    "golden flashes"; "redhawks"; "rockets"; "chippewas"; "bulls"; "zips";
    "penguins"; "thundering herd"; "flames"
  ].

Definition COLLEGE_ABBREV_MAP : list (string * list string) :=
  [
    ("usc", ["southern california"; "usc trojans"; "trojans"]);
    ("ucla", ["ucla"; "ucla bruins"; "bruins"]);
    ("osu", ["ohio state"; "ohio st"; "buckeyes"]);
    ("mich", ["michigan"; "wolverines"]);
    ("msu", ["michigan state"; "michigan st"; "spartans"]);
    ("psu", ["penn state"; "penn st"; "nittany lions"]);
    ("okla", ["oklahoma"; "sooners"]); ("tex", ["texas"; "longhorns"]);
    ("tamu", ["texas a&m"; "texas am"; "aggies"]);
    ("tcu", ["tcu"; "horned frogs"]); ("bay", ["baylor"; "bears"]);
    ("ttu", ["texas tech"; "red raiders"]); ("ku", ["kansas"; "jayhawks"]);
    ("ksu", ["kansas state"; "kansas st"; "wildcats"]);
    ("isu", ["iowa state"; "iowa st"; "cyclones"]);
    ("iowa", ["iowa"; "hawkeyes"]); ("neb", ["nebraska"; "cornhuskers"]);
    ("wisc", ["wisconsin"; "badgers"]);
    ("minn", ["minnesota"; "golden gophers"; "gophers"]);
    ("ill", ["illinois"; "fighting illini"]);
    ("ind", ["indiana"; "hoosiers"]); ("pur", ["purdue"; "boilermakers"]);
    ("nw", ["northwestern"; "wildcats"]);
    ("rut", ["rutgers"; "scarlet knights"]);
    ("md", ["maryland"; "terrapins"; "terps"]);
    ("unc", ["north carolina"; "tar heels"]);
    ("duke", ["duke"; "blue devils"]);
    ("ncsu", ["nc state"; "north carolina state"; "wolfpack"]);
    ("wake", ["wake forest"; "demon deacons"]);
    ("uva", ["virginia"; "cavaliers"; "wahoos"]);
    ("vt", ["virginia tech"; "hokies"]); ("clem", ["clemson"; "tigers"]);
    ("lou", ["louisville"; "cardinals"]);
    ("pitt", ["pittsburgh"; "pitt"; "panthers"]);
    ("syr", ["syracuse"; "orange"]); ("bc", ["boston college"; "eagles"]);
    ("nd", ["notre dame"; "fighting irish"]);
    ("fsu", ["florida state"; "florida st"; "seminoles"]);
    ("fla", ["florida"; "gators"]); ("uga", ["georgia"; "bulldogs"]);
    ("aub", ["auburn"; "tigers"]); ("bama", ["alabama"; "crimson tide"]);
    ("lsu", ["lsu"; "louisiana state"; "tigers"]);
    ("miss", ["ole miss"; "mississippi"; "rebels"]);
    ("msst", ["mississippi state"; "mississippi st"; "bulldogs"]);
    ("ark", ["arkansas"; "razorbacks"]); ("mizzou", ["missouri"; "tigers"]);
    ("uk", ["kentucky"; "wildcats"]);
    ("tenn", ["tennessee"; "volunteers"; "vols"]);
    ("van", ["vanderbilt"; "commodores"]);
    ("scar", ["south carolina"; "gamecocks"]); ("ore", ["oregon"; "ducks"]);
    ("orst", ["oregon state"; "oregon st"; "beavers"]);
    ("wash", ["washington"; "huskies"]);
    ("wsu", ["washington state"; "washington st"; "cougars"]);
    ("stan", ["stanford"; "cardinal"]);
    ("cal", ["california"; "cal"; "golden bears"]);
    ("ariz", ["arizona"; "wildcats"]);
    ("asu", ["arizona state"; "arizona st"; "sun devils"]);
    ("utah", ["utah"; "utes"]); ("colo", ["colorado"; "buffaloes"; "buffs"]);
    ("byu", ["byu"; "brigham young"; "cougars"]);
    ("ucf", ["ucf"; "central florida"; "knights"]);
    ("cin", ["cincinnati"; "bearcats"]); ("hou", ["houston"; "cougars"]);
    ("wvu", ["west virginia"; "mountaineers"]); ("unlv", ["unlv"; "rebels"]);
    ("sdsu", ["san diego state"; "san diego st"; "aztecs"]);
    ("bsu", ["boise state"; "boise st"; "broncos"]);
    ("fres", ["fresno state"; "fresno st"; "bulldogs"]);
    ("sjsu", ["san jose state"; "san jose st"; "spartans"]);
    ("csu", ["colorado state"; "colorado st"; "rams"]);
    ("wyo", ["wyoming"; "cowboys"]); ("unm", ["new mexico"; "lobos"]);
    ("afa", ["air force"; "falcons"]); ("navy", ["navy"; "midshipmen"]);
    ("army", ["army"; "black knights"]);
    ("smc", ["saint marys"; "saint mary's"; "gaels"]);
    ("sf", ["san francisco"; "dons"]);
    ("gonz", ["gonzaga"; "bulldogs"; "zags"]);
    ("creigh", ["creighton"; "bluejays"]);
    ("marq", ["marquette"; "golden eagles"]);
    ("nova", ["villanova"; "wildcats"]); ("gtown", ["georgetown"; "hoyas"]);
    ("shu", ["seton hall"; "pirates"]); ("prov", ["providence"; "friars"]);
    ("xav", ["xavier"; "musketeers"]); ("but", ["butler"; "bulldogs"]);
    ("conn", ["connecticut"; "uconn"; "huskies"]);
    ("mem", ["memphis"; "tigers"]);
    ("smu", ["smu"; "southern methodist"; "mustangs"]);
    ("tulsa", ["tulsa"; "golden hurricane"]);
    ("tulane", ["tulane"; "green wave"])
  ].

Definition NICKNAME_TO_ABBREV : gmap string string :=
  dict_of_items NICKNAME_TO_ABBREV_items.
Definition FULL_NAME_TO_ABBREV : gmap string string :=
  dict_of_items FULL_NAME_TO_ABBREV_items.

(** [COLLEGE_ABBREV_MAP.get(abbrev, [])]; the keys of the literal are
    pairwise different. *)
Definition college_names (abbrev : string) : list string :=
  match find (fun kv => String.eqb kv.1 abbrev) COLLEGE_ABBREV_MAP with
  | Some kv => kv.2
  | None => []
  end.

(** ** core/event_matcher.py: name normalisation *)

Definition normalize_team_name (name : string) : string :=
  if String.eqb name "" then "" else
  let normalized := Str.lower (Str.strip name) in
  let normalized :=
    match find (fun prefix => Str.startswith normalized (String.app prefix " "))
               (Str.sorted_len_reverse CITY_PREFIXES) with
    | Some prefix => Str.strip (Str.drop (String.length prefix) normalized)
    | None => normalized
    end in
  Str.join " " (Str.split normalized).

Definition get_team_abbrev (team_name : string) : string :=
  let team_lower := Str.strip (Str.lower team_name) in
  match FULL_NAME_TO_ABBREV !! team_lower with
  | Some a => a
  | None =>
      let normalized := normalize_team_name team_name in
      match NICKNAME_TO_ABBREV !! normalized with
      | Some a => a
      | None => ""
      end
  end.

Definition extract_college_school_name (vegas_name : string) : string :=
  if String.eqb vegas_name "" then "" else
  let name_lower := Str.strip (Str.lower vegas_name) in
  let name_lower :=
    match find (fun mascot => Str.endswith name_lower (String.app " " mascot))
               (Str.sorted_len_reverse COLLEGE_MASCOTS) with
    | Some mascot =>
        Str.strip (Str.take (String.length name_lower - String.length mascot - 1)
                            name_lower)
    | None => name_lower
    end in
  let name_lower := Str.replace (Str.replace name_lower "st." "st") "state" "st" in
  let name_lower := Str.replace (Str.replace name_lower "'s" "s") "'" "" in
  Str.strip name_lower.

Definition get_college_abbrev (team_name : string) : string :=
  let school := extract_college_school_name team_name in
  let hit (name : string) : bool :=
    String.eqb school (Str.lower name)
    || Str.startswith school (Str.lower name)
    || Str.contains (Str.lower name) school in
  match find (fun kv => existsb hit kv.2) COLLEGE_ABBREV_MAP with
  | Some kv => kv.1
  | None =>
      let words := Str.split school in
      if (length words =? 1)%nat then
        if (3 <=? String.length school)%nat then Str.take 3 school else school
      else Str.join "" (map (Str.take 1) words)
  end.

(** ** The records exchanged with the two sources *)

Module Outcome.
Record t : Type := mk { name : string; price : Z }.
End Outcome.

Module BookMarket.
Record t : Type := mk { key : string; outcomes : list Outcome.t }.
End BookMarket.

Module Bookmaker.
Record t : Type := mk { key : string; markets : list BookMarket.t }.
End Bookmaker.

Module VegasEvent.
Record t : Type := mk {
  id : string;
  sport_key : string;
  home_team : string;
  away_team : string;
  bookmakers : list Bookmaker.t
}.
End VegasEvent.

Module KalshiMarket.
Record t : Type := mk {
  ticker : string;
  title : string;
  yes_ask : Z;
  _game_id : string;
  _team_code : string;
  _sport : string
}.
End KalshiMarket.

(** The values of the dict [kalshi_games]. *)
Module KalshiGame.
Record t : Type := mk {
  markets : list KalshiMarket.t;
  title : string;
  sport : string
}.
End KalshiGame.

(** The dict [best_match]. *)
Module BestMatch.
Record t : Type := mk {
  game_id : string;
  home_market : option KalshiMarket.t;
  away_market : option KalshiMarket.t;
  title : string
}.
End BestMatch.

(** An element of the list [matches]. *)
Module Match.
Record t : Type := mk {
  vegas_event : VegasEvent.t;
  kalshi_home_market : option KalshiMarket.t;
  kalshi_away_market : option KalshiMarket.t;
  game_id : string
}.
End Match.

(** ** core/event_matcher.py: the matcher *)

Definition Qmax (a b : Q) : Q := if Qltb a b then b else a.

(** [kalshi_games[game_id]['markets'].append(market)], the entry created at
    the end of the dict when [game_id] is new: the dict keeps its keys in
    the order of their first insertion. *)
Fixpoint games_append (kalshi_games : list (string * KalshiGame.t))
  (game_id : string) (market : KalshiMarket.t) : list (string * KalshiGame.t) :=
  match kalshi_games with
  | [] =>
      [(game_id, KalshiGame.mk [market] (KalshiMarket.title market)
                   (KalshiMarket._sport market))]
  | (g, d) :: rest =>
      if String.eqb g game_id then
        (g, KalshiGame.mk (KalshiGame.markets d ++ [market])
              (KalshiGame.title d) (KalshiGame.sport d)) :: rest
      else (g, d) :: games_append rest game_id market
  end.

Definition group_by_game_id (kalshi_markets : list KalshiMarket.t)
  : list (string * KalshiGame.t) :=
  fold_left
    (fun kalshi_games market =>
       let game_id := KalshiMarket._game_id market in
       if String.eqb game_id "" then kalshi_games
       else games_append kalshi_games game_id market)
    kalshi_markets [].

Section EventMatcher.
(** [rapidfuzz.fuzz.partial_ratio] and [rapidfuzz.fuzz.ratio], of the
    library the matcher imports. *)
Variable partial_ratio : string -> string -> Q.
Variable ratio : string -> string -> Q.

Definition match_college_teams (vegas_home vegas_away kalshi_title : string)
  : bool * Q :=
  let home_school := extract_college_school_name vegas_home in
  let away_school := extract_college_school_name vegas_away in
  let title_lower :=
    Str.replace (Str.replace (Str.replace (Str.lower kalshi_title)
                                "st." "st") "'s" "s") "'" "" in
  let home_in_title :=
    Str.contains home_school title_lower
    || existsb (fun name => Str.contains (Str.lower name) title_lower)
         (college_names (get_college_abbrev vegas_home)) in
  let away_in_title :=
    Str.contains away_school title_lower
    || existsb (fun name => Str.contains (Str.lower name) title_lower)
         (college_names (get_college_abbrev vegas_away)) in
  let home_score := partial_ratio home_school title_lower in
  let away_score := partial_ratio away_school title_lower in
  if home_in_title && away_in_title then (true, 100%Q)
  else if Qleb 80 home_score && Qleb 80 away_score then
    (true, ((home_score + away_score) / 2)%Q)
  else if (home_in_title || Qleb 85 home_score)
          && (away_in_title || Qleb 85 away_score) then
    (true, Qmax home_score away_score)
  else (false, 0%Q).

Definition calculate_team_match_score (vegas_team kalshi_text : string) : Q :=
  partial_ratio (normalize_team_name vegas_team) (Str.lower kalshi_text).

(** [s.split()[-1] if s else '']; the matcher takes it of a normalised
    name, which has a word when it is not empty. *)
Definition last_word (s : string) : string :=
  if String.eqb s "" then "" else List.last (Str.split s) "".

(** The loop [for m in markets] of the college branch. *)
Definition assign_college (home_abbrev away_abbrev home_school away_school : string)
  (markets : list KalshiMarket.t)
  : option KalshiMarket.t * option KalshiMarket.t :=
  fold_left
    (fun '(home_market, away_market) m =>
       let team_code := Str.lower (KalshiMarket._team_code m) in
       if String.eqb team_code home_abbrev then (Some m, away_market)
       else if String.eqb team_code away_abbrev then (home_market, Some m)
       else if Qleb 80 (ratio team_code home_abbrev)
               || Str.startswith home_school team_code
       then (Some m, away_market)
       else if Qleb 80 (ratio team_code away_abbrev)
               || Str.startswith away_school team_code
       then (home_market, Some m)
       else (home_market, away_market))
    markets (None, None).

(** The loop [for m in markets] of the other branch. *)
Definition assign_pro (home_abbrev away_abbrev : string)
  (markets : list KalshiMarket.t)
  : option KalshiMarket.t * option KalshiMarket.t :=
  fold_left
    (fun '(home_market, away_market) m =>
       let team_code := Str.lower (KalshiMarket._team_code m) in
       if String.eqb team_code home_abbrev then (Some m, away_market)
       else if String.eqb team_code away_abbrev then (home_market, Some m)
       else (home_market, away_market))
    markets (None, None).

(** Whether the game qualifies for the event, and its [combined_score]. *)
Definition game_score (vegas_event : VegasEvent.t) (game_data : KalshiGame.t)
  : option Q :=
  let vegas_home := VegasEvent.home_team vegas_event in
  let vegas_away := VegasEvent.away_team vegas_event in
  let is_college :=
    Str.contains "ncaa" (Str.lower (VegasEvent.sport_key vegas_event)) in
  let title := KalshiGame.title game_data in
  let title_lower := Str.lower title in
  if is_college then
    let '(is_match, match_confidence) :=
      match_college_teams vegas_home vegas_away title in
    if is_match then Some (match_confidence * 2)%Q else None
  else
    let home_abbrev := get_team_abbrev vegas_home in
    let away_abbrev := get_team_abbrev vegas_away in
    let home_school := normalize_team_name vegas_home in
    let away_school := normalize_team_name vegas_away in
    let home_in_title :=
      Str.contains home_school title_lower
      || Str.contains home_abbrev (Str.replace title_lower " " "")
      || Str.contains (last_word home_school) title_lower in
    let away_in_title :=
      Str.contains away_school title_lower
      || Str.contains away_abbrev (Str.replace title_lower " " "")
      || Str.contains (last_word away_school) title_lower in
    let home_score := calculate_team_match_score vegas_home title in
    let away_score := calculate_team_match_score vegas_away title in
    if (home_in_title && away_in_title)
       || (Qleb 60 home_score && Qleb 60 away_score) then
      Some (home_score + away_score
            + (if home_in_title then 50 else 0)
            + (if away_in_title then 50 else 0))%Q
    else None.

(** The listings of the game assigned to the two sides of the event. *)
Definition game_sides (vegas_event : VegasEvent.t) (game_data : KalshiGame.t)
  : option KalshiMarket.t * option KalshiMarket.t :=
  let vegas_home := VegasEvent.home_team vegas_event in
  let vegas_away := VegasEvent.away_team vegas_event in
  let is_college :=
    Str.contains "ncaa" (Str.lower (VegasEvent.sport_key vegas_event)) in
  let markets := KalshiGame.markets game_data in
  if is_college then
    assign_college (get_college_abbrev vegas_home) (get_college_abbrev vegas_away)
      (extract_college_school_name vegas_home)
      (extract_college_school_name vegas_away) markets
  else
    assign_pro (get_team_abbrev vegas_home) (get_team_abbrev vegas_away) markets.

(** The body of [for game_id, game_data in kalshi_games.items()], on the
    loop state [(best_match, best_score)]. *)
Definition consider_game (vegas_event : VegasEvent.t)
  (state : option BestMatch.t * Q) (entry : string * KalshiGame.t)
  : option BestMatch.t * Q :=
  let '(best_match, best_score) := state in
  let '(game_id, game_data) := entry in
  match game_score vegas_event game_data with
  | Some combined_score =>
      if Qltb best_score combined_score then
        let '(home_market, away_market) := game_sides vegas_event game_data in
        if bool_decide (is_Some home_market) || bool_decide (is_Some away_market)
        then (Some (BestMatch.mk game_id home_market away_market
                      (KalshiGame.title game_data)), combined_score)
        else (best_match, best_score)
      else (best_match, best_score)
  | None => (best_match, best_score)
  end.

Definition best_game (kalshi_games : list (string * KalshiGame.t))
  (vegas_event : VegasEvent.t) : option BestMatch.t * Q :=
  fold_left (consider_game vegas_event) kalshi_games (None, 0%Q).

(** The body of [for vegas_event in vegas_events]: the match appended to
    [matches], if any. *)
Definition match_event (kalshi_games : list (string * KalshiGame.t))
  (vegas_event : VegasEvent.t) : option Match.t :=
  match (best_game kalshi_games vegas_event).1 with
  | Some best_match =>
      Some (Match.mk vegas_event (BestMatch.home_market best_match)
              (BestMatch.away_market best_match) (BestMatch.game_id best_match))
  | None => None
  end.

Definition match_game_winner_markets (vegas_events : list VegasEvent.t)
  (kalshi_markets : list KalshiMarket.t) : list Match.t :=
  let kalshi_games := group_by_game_id kalshi_markets in
  omap (match_event kalshi_games) vegas_events.
End EventMatcher.

(** ** core/value_finder.py *)

(** The dict [_process_vegas_event] returns. *)
Module VegasProbs.
Record t : Type := mk {
  home_prob : Q;
  away_prob : Q;
  num_bookmakers : Z;
  home_std : root;
  away_std : root
}.
End VegasProbs.

(** [{o['name']: o['price'] for o in market['outcomes']}] *)
Definition outcomes_dict (outcomes : list Outcome.t) : gmap string Z :=
  fold_left (fun d o => <[Outcome.name o := Outcome.price o]> d) outcomes ∅.

Module ValueFinder.
(** The attributes of [self]; [self.matcher] holds no state of its own. *)
Record t : Type := mk { min_edge : Q; min_bookmakers : Z }.

(** [ValueFinder()] *)
Definition default : t := mk MIN_NET_EDGE MIN_BOOKMAKERS.

(** The body of [for market in book.get('markets', [])], on the loop
    state [(home_probs, away_probs)]. *)
Definition quote_market (home_team away_team : string) (market : BookMarket.t)
  (probs : list Q * list Q) : result (list Q * list Q) :=
  let '(home_probs, away_probs) := probs in
  if negb (String.eqb (BookMarket.key market) "h2h") then Ok probs
  else
    let outcomes := outcomes_dict (BookMarket.outcomes market) in
    match outcomes !! home_team, outcomes !! away_team with
    | Some home_odds, Some away_odds =>
        let home_impl := american_to_implied_prob home_odds in
        let away_impl := american_to_implied_prob away_odds in
        '(home_true, away_true) ← remove_vig home_impl away_impl;
        Ok (home_probs ++ [home_true], away_probs ++ [away_true])
    | _, _ => Ok probs
    end.

(** The two nested loops over the bookmakers and their markets. *)
Definition collect_probs (event : VegasEvent.t) : result (list Q * list Q) :=
  let home_team := VegasEvent.home_team event in
  let away_team := VegasEvent.away_team event in
  for_each (VegasEvent.bookmakers event)
    (fun book =>
       for_each (Bookmaker.markets book) (quote_market home_team away_team))
    ([], []).

Definition _process_vegas_event (self : t) (event : VegasEvent.t)
  : result (option VegasProbs.t) :=
  let bookmakers := VegasEvent.bookmakers event in
  if len bookmakers <? min_bookmakers self then Ok None
  else
    '(home_probs, away_probs) ← collect_probs event;
    match home_probs with
    | [] => Ok None
    | _ =>
        home_prob ← median home_probs;
        away_prob ← median away_probs;
        home_std ← (if 1 <? len home_probs then stdev home_probs
                    else Ok (Sqrt 0));
        away_std ← (if 1 <? len away_probs then stdev away_probs
                    else Ok (Sqrt 0));
        Ok (Some (VegasProbs.mk home_prob away_prob (len home_probs)
                    home_std away_std))
    end.

Definition _determine_confidence (num_bookmakers : Z) (prob_std : root)
  : string :=
  if (8 <=? num_bookmakers) && root_ltb prob_std (2 # 100) then "high"
  else if (5 <=? num_bookmakers) && root_ltb prob_std (4 # 100) then "medium"
  else "low".

(** [m.get('yes_ask', 0) / 100] *)
Definition ask_price (m : KalshiMarket.t) : Q :=
  (inject_Z (KalshiMarket.yes_ask m) / 100)%Q.

(** The body of [for match in matches].  The loop state is the list
    [opportunities], and with it the log [calls] of the records
    [EdgeCalculation.calculate] has returned so far. *)
Definition evaluate_match (self : t) (match_ : Match.t)
  (state : list ValueOpportunity.t * list EdgeCalculation.t)
  : result (list ValueOpportunity.t * list EdgeCalculation.t) :=
  let vegas_event := Match.vegas_event match_ in
  let home_market := Match.kalshi_home_market match_ in
  let away_market := Match.kalshi_away_market match_ in
  vegas_probs ← _process_vegas_event self vegas_event;
  match vegas_probs with
  | None => Ok state
  | Some vegas_probs =>
      (* Check home team for value *)
      state ←
        match home_market with
        | Some home_market' =>
            let home_price := ask_price home_market' in
            if Qltb 0 home_price && Qltb home_price 1 then
              home_calc ← EdgeCalculation.calculate home_price
                            (VegasProbs.home_prob vegas_probs) 100 "yes" false;
              if Qleb (min_edge self) (EdgeCalculation.net_edge home_calc) then
                let prob_std := root_max (VegasProbs.home_std vegas_probs)
                                  (VegasProbs.away_std vegas_probs) in
                let opp := ValueOpportunity.mk
                  (VegasEvent.sport_key vegas_event)
                  (VegasEvent.id vegas_event)
                  (KalshiMarket.ticker home_market')
                  (VegasEvent.home_team vegas_event)
                  (VegasEvent.away_team vegas_event)
                  (VegasProbs.home_prob vegas_probs)
                  (VegasProbs.away_prob vegas_probs)
                  home_price
                  (match away_market with
                   | Some away_market' => ask_price away_market'
                   | None => 0%Q
                   end)
                  "yes"
                  "home"
                  (EdgeCalculation.gross_edge home_calc)
                  (EdgeCalculation.net_edge home_calc)
                  (EdgeCalculation.fee_per_contract home_calc)
                  (EdgeCalculation.expected_value_per_contract home_calc)
                  (EdgeCalculation.total_expected_value home_calc)
                  (VegasProbs.num_bookmakers vegas_probs)
                  (_determine_confidence
                     (VegasProbs.num_bookmakers vegas_probs) prob_std) in
                Ok (state.1 ++ [opp], state.2 ++ [home_calc])
              else Ok (state.1, state.2 ++ [home_calc])
            else Ok state
        | None => Ok state
        end;
      (* Check away team for value *)
      match away_market with
      | Some away_market' =>
          let away_price := ask_price away_market' in
          if Qltb 0 away_price && Qltb away_price 1 then
            away_calc ← EdgeCalculation.calculate away_price
                          (VegasProbs.away_prob vegas_probs) 100 "yes" false;
            if Qleb (min_edge self) (EdgeCalculation.net_edge away_calc) then
              let prob_std := root_max (VegasProbs.home_std vegas_probs)
                                (VegasProbs.away_std vegas_probs) in
              let opp := ValueOpportunity.mk
                (VegasEvent.sport_key vegas_event)
                (VegasEvent.id vegas_event)
                (KalshiMarket.ticker away_market')
                (VegasEvent.home_team vegas_event)
                (VegasEvent.away_team vegas_event)
                (VegasProbs.home_prob vegas_probs)
                (VegasProbs.away_prob vegas_probs)
                (match home_market with
                 | Some home_market' => ask_price home_market'
                 | None => 0%Q
                 end)
                away_price
                "yes"
                "away"
                (EdgeCalculation.gross_edge away_calc)
                (EdgeCalculation.net_edge away_calc)
                (EdgeCalculation.fee_per_contract away_calc)
                (EdgeCalculation.expected_value_per_contract away_calc)
                (EdgeCalculation.total_expected_value away_calc)
                (VegasProbs.num_bookmakers vegas_probs)
                (_determine_confidence
                   (VegasProbs.num_bookmakers vegas_probs) prob_std) in
              Ok (state.1 ++ [opp], state.2 ++ [away_calc])
            else Ok (state.1, state.2 ++ [away_calc])
          else Ok state
      | None => Ok state
      end
  end.

(** The loop over the matches, from the empty list. *)
Definition evaluate_matches (self : t) (matches : list Match.t)
  : result (list ValueOpportunity.t * list EdgeCalculation.t) :=
  for_each matches (evaluate_match self) ([], []).

Section Pipeline.
Variable partial_ratio : string -> string -> Q.
Variable ratio : string -> string -> Q.

(** The opportunities and the log of the edge calculations, before the
    final sort. *)
Definition scan (self : t) (vegas_events : list VegasEvent.t)
  (kalshi_markets : list KalshiMarket.t)
  : result (list ValueOpportunity.t * list EdgeCalculation.t) :=
  let matches :=
    match_game_winner_markets partial_ratio ratio vegas_events
      kalshi_markets in
  evaluate_matches self matches.

(** [find_game_winner_value]; the argument [verbose] only prints. *)
Definition find_game_winner_value (self : t)
  (vegas_events : list VegasEvent.t) (kalshi_markets : list KalshiMarket.t)
  : result (list ValueOpportunity.t) :=
  state ← scan self vegas_events kalshi_markets;
  (* Best opportunities first *)
  Ok (sorted_key_reverse ValueOpportunity.net_edge state.1).
End Pipeline.
End ValueFinder.

(** ** models/opportunity.py: the property [display_position] *)

Definition display_position (self : ValueOpportunity.t) : string :=
  let team :=
    if String.eqb (ValueOpportunity.recommended_team self) "home"
    then ValueOpportunity.home_team self
    else ValueOpportunity.away_team self in
  String.app team
    (String.app " " (Str.upper (ValueOpportunity.recommended_position self))).

(** ** api/kalshi_api.py *)

(** A market as the API sends it, by the keys the program reads. *)
Module ApiMarket.
Record t : Type := mk { ticker : string; title : string; yes_ask : Z }.
End ApiMarket.

(** What [session.request(...)], [raise_for_status()] and [json()] end in
    when they do not give the body. *)
Module requests.
Inductive exception : Type :=
| HTTPError (status_code : Z)
| RequestException.
End requests.

Module KalshiClient.
(** The dict [series_map], entry after entry. *)
Definition series_map : list (string * string) :=
  [("nfl", "KXNFLGAME"); ("nba", "KXNBAGAME"); ("mlb", "KXMLBGAME");
   ("nhl", "KXNHLGAME"); ("ncaab", "KXNCAAMBGAME"); ("ncaaw", "KXNCAAWBGAME")].

(** The body of [for market in markets]: the market as it is appended to
    [all_markets].  A key the loop does not set reads as [''] later on. *)
Definition annotate (sport : string) (market : ApiMarket.t) : KalshiMarket.t :=
  let ticker := ApiMarket.ticker market in
  let parts := Str.split_on "-" ticker in
  if (3 <=? length parts)%nat then
    KalshiMarket.mk ticker (ApiMarket.title market) (ApiMarket.yes_ask market)
      (if (1 <? length parts)%nat then nth 1 parts "" else "")
      (List.last parts "")
      (Str.lower sport)
  else
    KalshiMarket.mk ticker (ApiMarket.title market) (ApiMarket.yes_ask market)
      "" "" "".

(** What the client has done to the world: the number of requests sent,
    and the delays slept, in seconds. *)
Record world : Type := World { sent : nat; slept : list Z }.

Definition send (w : world) : world := World (S (sent w)) (slept w).
Definition sleep (delay : Z) (w : world) : world :=
  World (sent w) (slept w ++ [delay]).

Section Client.
(** The answer to the request the client sends as its [n]-th, for the
    series asked: the value of the key ['markets'] of the body, [None]
    for a body without the key, or the exception. *)
Variable server :
  nat -> string -> option (list ApiMarket.t) + requests.exception.

(** The loop [for attempt in range(MAX_RETRIES)] of [_request], and the
    [return {}] after it. *)
Fixpoint request_attempts (attempts : list nat) (series_ticker : string)
  (w : world) : (option (list ApiMarket.t) + requests.exception) * world :=
  match attempts with
  | [] => (inl None, w)
  | attempt :: rest =>
      match server (sent w) series_ticker with
      | inl body => (inl body, send w)
      | inr (requests.HTTPError status_code) =>
          if status_code =? 429 then
            let delay := RETRY_BASE_DELAY * 2 ^ Z.of_nat attempt in
            request_attempts rest series_ticker (sleep delay (send w))
          else (inr (requests.HTTPError status_code), send w)
      | inr requests.RequestException =>
          if (attempt =? MAX_RETRIES - 1)%nat then
            (inr requests.RequestException, send w)
          else request_attempts rest series_ticker (sleep RETRY_BASE_DELAY (send w))
      end
  end.

Definition _request (series_ticker : string) (w : world)
  : (option (list ApiMarket.t) + requests.exception) * world :=
  request_attempts (seq 0 MAX_RETRIES) series_ticker w.

(** [get_markets(series_ticker=series, limit=200)] *)
Definition get_markets (series_ticker : string) (w : world)
  : (option (list ApiMarket.t) + requests.exception) * world :=
  _request series_ticker w.

(** The body of [for sport in sports], on the list [all_markets]. *)
Definition fetch_sport (state : list KalshiMarket.t * world) (sport : string)
  : list KalshiMarket.t * world :=
  let '(all_markets, w) := state in
  match dict_of_items series_map !! Str.lower sport with
  | None => (all_markets, w)
  | Some series =>
      match get_markets series w with
      | (inl result, w') =>
          let markets := default [] result in
          (all_markets ++ map (annotate sport) markets, w')
      | (inr _, w') => (all_markets, w')
      end
  end.

Definition get_game_winner_markets (sports : option (list string)) (w : world)
  : list KalshiMarket.t * world :=
  let sports := default ["nfl"; "nba"] sports in
  fold_left fetch_sport sports ([], w).
End Client.
End KalshiClient.

(** ** output/console.py *)

Definition get_sport_display_name (sport_key : string) : string :=
  default (Str.upper sport_key) (dict_of_items SPORT_DISPLAY_NAMES !! sport_key).

(** The team, the price and the probability [print_opportunity] shows. *)
Definition bet_team (opp : ValueOpportunity.t) : string :=
  if String.eqb (ValueOpportunity.recommended_team opp) "home"
  then ValueOpportunity.home_team opp else ValueOpportunity.away_team opp.
Definition bet_price (opp : ValueOpportunity.t) : Q :=
  if String.eqb (ValueOpportunity.recommended_team opp) "home"
  then ValueOpportunity.kalshi_home_price opp
  else ValueOpportunity.kalshi_away_price opp.
Definition vegas_prob (opp : ValueOpportunity.t) : Q :=
  if String.eqb (ValueOpportunity.recommended_team opp) "home"
  then ValueOpportunity.vegas_home_prob opp
  else ValueOpportunity.vegas_away_prob opp.

(** The cost [print_opportunity] shows for [n] contracts. *)
Definition position_cost (opp : ValueOpportunity.t) (n : Z) : result Q :=
  if Qltb 0 (bet_price opp) && Qltb (bet_price opp) 1
  then calculate_effective_cost (bet_price opp) n false
  else Ok (bet_price opp * inject_Z n)%Q.

(** The counts [print_summary] shows by confidence. *)
Definition confidence_count (level : string)
  (opportunities : list ValueOpportunity.t) : Z :=
  len (List.filter (fun o => String.eqb (ValueOpportunity.confidence o) level)
         opportunities).

(** [sports[sport_name] = sports.get(sport_name, 0) + 1], the dict keeping
    its keys in the order of their first insertion. *)
Fixpoint count_sport (sports : list (string * Z)) (sport_name : string)
  : list (string * Z) :=
  match sports with
  | [] => [(sport_name, 0 + 1)]
  | (s, c) :: rest =>
      if String.eqb s sport_name then (s, c + 1) :: rest
      else (s, c) :: count_sport rest sport_name
  end.

(** The dict [sports] of [print_summary] after its loop. *)
Definition sport_counts (opportunities : list ValueOpportunity.t)
  : list (string * Z) :=
  fold_left
    (fun sports opp =>
       count_sport sports (get_sport_display_name (ValueOpportunity.sport opp)))
    opportunities [].

(** ** main.py *)

Module main.
Definition sport_key_map : list (string * string) :=
  [("americanfootball_nfl", "nfl"); ("basketball_nba", "nba");
   ("icehockey_nhl", "nhl"); ("baseball_mlb", "mlb");
   ("basketball_ncaab", "ncaab"); ("basketball_wncaab", "ncaaw")].

(** [[sport_key_map.get(s, s) for s in sports if s in sport_key_map]] *)
Definition kalshi_sports (sports : list string) : list string :=
  map (fun s => default s (dict_of_items sport_key_map !! s))
    (List.filter
       (fun s => bool_decide (is_Some (dict_of_items sport_key_map !! s)))
       sports).

(** [return 0 if all_opportunities else 1] *)
Definition exit_status (all_opportunities : list ValueOpportunity.t) : Z :=
  match all_opportunities with [] => 1 | _ => 0 end.
End main.

(** * Vocabulary of the statements *)

(** The multiplier of the role: 0.0175 for a maker, 0.07 for a taker. *)
Definition multiplier_of (is_maker : bool) : Q :=
  if is_maker then (175 # 10000)%Q else (7 # 100)%Q.

(** The number of cents of the fee for a listing asked at [yes_ask] cents
    and 100 contracts, as a taker: in exact arithmetic, and on binary64
    numbers (0 standing for an exception). *)
Definition exact_cents (yes_ask : Z) : Z :=
  ceil (raw_fee (inject_Z yes_ask / 100) 100 false * 100).
Definition binary64_cents (yes_ask : Z) : Z :=
  match Binary64.fee_cents (Binary64.ask_price yes_ask) 100 false with
  | Ok cents => cents
  | Raise _ => 0
  end.

(** The quote a market of a bookmaker gives for the event: the odds of
    the two teams, when the market is the ['h2h'] one and names both. *)
Definition market_quote (home_team away_team : string) (market : BookMarket.t)
  : option (Z * Z) :=
  if String.eqb (BookMarket.key market) "h2h" then
    let outcomes := outcomes_dict (BookMarket.outcomes market) in
    match outcomes !! home_team, outcomes !! away_team with
    | Some home_odds, Some away_odds => Some (home_odds, away_odds)
    | _, _ => None
    end
  else None.

(** The qualifying quotes of an event, bookmaker after bookmaker. *)
Definition qualifying_quotes (event : VegasEvent.t) : list (Z * Z) :=
  omap (market_quote (VegasEvent.home_team event) (VegasEvent.away_team event))
       (flat_map Bookmaker.markets (VegasEvent.bookmakers event)).


(** The sum of the two implied probabilities of a quote, and the two
    probabilities with the vig removed. *)
Definition quote_total (q : Z * Z) : Q :=
  (american_to_implied_prob q.1 + american_to_implied_prob q.2)%Q.
Definition devig_home (q : Z * Z) : Q :=
  (american_to_implied_prob q.1 / quote_total q)%Q.
Definition devig_away (q : Z * Z) : Q :=
  (american_to_implied_prob q.2 / quote_total q)%Q.

(** A quote [remove_vig] accepts, and the error it raises on the others. *)
Definition quote_ok (q : Z * Z) : bool := negb (Qleb (quote_total q) 0).
Definition vig_error : exn :=
  ValueError "Sum of probabilities must be positive".

(** The dispersion the builder reports for the samples of one side: the
    sample standard deviation, 0 for fewer than two samples. *)
Definition dispersion (data : list Q) : root :=
  if 1 <? len data then Sqrt (variance data) else Sqrt 0.

(** ** Sample data *)

Module Sample.
(** An ['h2h'] market naming the two teams in full. *)
Definition h2h (home_odds away_odds : Z) : BookMarket.t :=
  BookMarket.mk "h2h"
    [Outcome.mk "Los Angeles Lakers" home_odds;
     Outcome.mk "Boston Celtics" away_odds].

Definition lakers_celtics (bookmakers : list Bookmaker.t) : VegasEvent.t :=
  VegasEvent.mk "evt-1" "basketball_nba" "Los Angeles Lakers" "Boston Celtics"
    bookmakers.

(** Three bookmakers quote the pair. *)
Definition quoted_event : VegasEvent.t :=
  lakers_celtics
    [Bookmaker.mk "draftkings" [h2h (-150) 130];
     Bookmaker.mk "fanduel" [h2h (-145) 125];
     Bookmaker.mk "betmgm" [h2h (-160) 140]].



(** Two scorers to run the matcher with.  They give 100 when the first
    text occurs in the second, respectively when the two texts are equal,
    as [partial_ratio] and [ratio] of rapidfuzz do, and 0 otherwise, where
    rapidfuzz gives a score below 100. *)
Definition substring_score (a b : string) : Q :=
  if Str.contains a b then 100%Q else 0%Q.
Definition equality_score (a b : string) : Q :=
  if String.eqb a b then 100%Q else 0%Q.

(** The two listings of a game, with the codes of the two sides. *)
Definition listings (game_id title home_code away_code : string)
  (home_ask away_ask : Z) : list KalshiMarket.t :=
  [KalshiMarket.mk
     (String.app "KXNBAGAME-" (String.app game_id (String.app "-" home_code)))
     title home_ask game_id home_code "nba";
   KalshiMarket.mk
     (String.app "KXNBAGAME-" (String.app game_id (String.app "-" away_code)))
     title away_ask game_id away_code "nba"].

Definition lakers_celtics_listings : list KalshiMarket.t :=
  listings "26JAN01LALBOS" "Los Angeles Lakers vs Boston Celtics" "LAL" "BOS"
    45 25.

(** The listings of two games.  The first game names both teams in its
    title, and its listings carry codes the tables do not give to either
    team; the second game is titled by the codes of the tables. *)
Definition two_games : list KalshiMarket.t :=
  listings "26JAN01LAKCEL" "Los Angeles Lakers vs Boston Celtics" "LAK" "CEL"
    45 30
  ++ listings "26JAN01LALBOS" "LAL @ BOS" "LAL" "BOS" 45 30.
End Sample.

(** An edge calculation of the engine for a match: the price is the ask
    price of the listing of one side, the probability the consensus of the
    same side, for 100 contracts, position ['yes'], as a taker. *)
Definition calculated_for (self : ValueFinder.t) (m : Match.t)
  (c : EdgeCalculation.t) : Prop :=
  exists probs,
    ValueFinder._process_vegas_event self (Match.vegas_event m) = Ok (Some probs)
    /\ ((exists home_market,
           Match.kalshi_home_market m = Some home_market
           /\ EdgeCalculation.calculate (ValueFinder.ask_price home_market)
                (VegasProbs.home_prob probs) 100 "yes" false = Ok c)
        \/ (exists away_market,
              Match.kalshi_away_market m = Some away_market
              /\ EdgeCalculation.calculate (ValueFinder.ask_price away_market)
                   (VegasProbs.away_prob probs) 100 "yes" false = Ok c)).

(** An opportunity the engine emits for a match: for the home side from the
    home listing and the home consensus, for the away side from the away
    listing and the away consensus. *)
Definition emitted_by (self : ValueFinder.t) (m : Match.t)
  (opp : ValueOpportunity.t) : Prop :=
  exists probs,
    ValueFinder._process_vegas_event self (Match.vegas_event m) = Ok (Some probs)
    /\ ((exists home_market c,
           Match.kalshi_home_market m = Some home_market
           /\ EdgeCalculation.calculate (ValueFinder.ask_price home_market)
                (VegasProbs.home_prob probs) 100 "yes" false = Ok c
           /\ (ValueFinder.min_edge self <= EdgeCalculation.net_edge c)%Q
           /\ ValueOpportunity.recommended_team opp = "home"
           /\ ValueOpportunity.recommended_position opp = "yes"
           /\ ValueOpportunity.kalshi_ticker opp = KalshiMarket.ticker home_market
           /\ ValueOpportunity.kalshi_home_price opp
              = ValueFinder.ask_price home_market
           /\ ValueOpportunity.gross_edge opp = EdgeCalculation.gross_edge c
           /\ ValueOpportunity.net_edge opp = EdgeCalculation.net_edge c
           /\ ValueOpportunity.fee_impact opp = EdgeCalculation.fee_per_contract c)
        \/ (exists away_market c,
              Match.kalshi_away_market m = Some away_market
              /\ EdgeCalculation.calculate (ValueFinder.ask_price away_market)
                   (VegasProbs.away_prob probs) 100 "yes" false = Ok c
              /\ (ValueFinder.min_edge self <= EdgeCalculation.net_edge c)%Q
              /\ ValueOpportunity.recommended_team opp = "away"
              /\ ValueOpportunity.recommended_position opp = "yes"
              /\ ValueOpportunity.kalshi_ticker opp
                 = KalshiMarket.ticker away_market
              /\ ValueOpportunity.kalshi_away_price opp
                 = ValueFinder.ask_price away_market
              /\ ValueOpportunity.gross_edge opp = EdgeCalculation.gross_edge c
              /\ ValueOpportunity.net_edge opp = EdgeCalculation.net_edge c
              /\ ValueOpportunity.fee_impact opp
                 = EdgeCalculation.fee_per_contract c)).

(** ** Candidates of the matcher *)

Section Candidates.
Variable partial_ratio : string -> string -> Q.
Variable ratio : string -> string -> Q.

(** A listing of the game is assigned to a side of the event. *)
Definition has_listing (vegas_event : VegasEvent.t) (game_data : KalshiGame.t)
  : bool :=
  let sides := game_sides ratio vegas_event game_data in
  bool_decide (is_Some sides.1) || bool_decide (is_Some sides.2).

(** A candidate of the event, with its score: a game that qualifies and
    has a listing assigned to a side. *)
Definition candidate (vegas_event : VegasEvent.t) (game_data : KalshiGame.t)
  (score : Q) : Prop :=
  game_score partial_ratio vegas_event game_data = Some score
  /\ has_listing vegas_event game_data = true.

Definition has_candidate (kalshi_games : list (string * KalshiGame.t))
  (vegas_event : VegasEvent.t) : bool :=
  existsb (fun entry =>
             bool_decide (is_Some (game_score partial_ratio vegas_event entry.2))
             && has_listing vegas_event entry.2)
          kalshi_games.

(** The game the matcher keeps for the event, with its score: a
    candidate that every earlier candidate scores below, and no later
    candidate scores above. *)
Definition kept (kalshi_games : list (string * KalshiGame.t))
  (vegas_event : VegasEvent.t) (best : BestMatch.t) (score : Q) : Prop :=
  exists before game_data after,
    kalshi_games = before ++ (BestMatch.game_id best, game_data) :: after
    /\ candidate vegas_event game_data score
    /\ (BestMatch.home_market best, BestMatch.away_market best)
       = game_sides ratio vegas_event game_data
    /\ (forall entry s, In entry before ->
          candidate vegas_event entry.2 s -> (s < score)%Q)
    /\ (forall entry s, In entry after ->
          candidate vegas_event entry.2 s -> (s <= score)%Q).

(** In the words of the specification: the highest-scoring qualifying
    game, the first seen among those of the highest score. *)
Definition best_qualifying (kalshi_games : list (string * KalshiGame.t))
  (vegas_event : VegasEvent.t) : option (string * KalshiGame.t * Q) :=
  fold_left
    (fun best entry =>
       match game_score partial_ratio vegas_event entry.2 with
       | Some score =>
           match best with
           | Some (_, best_score) =>
               if Qltb best_score score then Some (entry, score) else best
           | None => Some (entry, score)
           end
       | None => best
       end)
    kalshi_games None.
End Candidates.

(** The texts of a list in the order of their first appearance. *)
Fixpoint first_seen (ids : list string) : list string :=
  match ids with
  | [] => []
  | x :: rest =>
      x :: List.filter (fun y => negb (String.eqb y x)) (first_seen rest)
  end.

(** The game ids the listings carry, those without one left out. *)
Definition game_ids (kalshi_markets : list KalshiMarket.t) : list string :=
  List.filter (fun game_id => negb (String.eqb game_id ""))
    (map KalshiMarket._game_id kalshi_markets).

(** A text that starts with a character other than white space, and a text
    without white space. *)
Definition starts_nonspace (s : string) : Prop :=
  match s with
  | EmptyString => False
  | String c _ => Str.is_space c = false
  end.
Fixpoint all_nonspace (s : string) : Prop :=
  match s with
  | EmptyString => True
  | String c s' => Str.is_space c = false /\ all_nonspace s'
  end.

(** [x in l], for a list of texts. *)
Definition mem (x : string) (l : list string) : bool :=
  existsb (String.eqb x) l.

(** ** The games of the listings *)

(** The listing carries the game id [game_id]. *)
Definition of_game (game_id : string) (market : KalshiMarket.t) : bool :=
  String.eqb (KalshiMarket._game_id market) game_id.

(** The game of id [game_id] among the listings: its listings in their
    order, with the title and the sport of the first of them. *)
Definition game_of (kalshi_markets : list KalshiMarket.t) (game_id : string)
  : KalshiGame.t :=
  let markets := List.filter (of_game game_id) kalshi_markets in
  KalshiGame.mk markets
    (match markets with m :: _ => KalshiMarket.title m | [] => "" end)
    (match markets with m :: _ => KalshiMarket._sport m | [] => "" end).

(** A text without the character [-]. *)
Fixpoint hyphen_free (s : string) : bool :=
  match s with
  | EmptyString => true
  | String c s' => negb (Ascii.eqb c "-") && hyphen_free s'
  end.

(** The listing carries the code [abbrev], letter case apart. *)
Definition has_code (abbrev : string) (market : KalshiMarket.t) : bool :=
  String.eqb (Str.lower (KalshiMarket._team_code market)) abbrev.

(** Whether the event is taken for a college game. *)
Definition is_college (vegas_event : VegasEvent.t) : bool :=
  Str.contains "ncaa" (Str.lower (VegasEvent.sport_key vegas_event)).

(** A listing of a match, on either side. *)
Definition listing_of (m : Match.t) (market : KalshiMarket.t) : Prop :=
  Match.kalshi_home_market m = Some market
  \/ Match.kalshi_away_market m = Some market.

(** The event's team is found in the title of a game, for an event that is
    not a college game: by its normalised name, by its abbreviation in the
    title without spaces, or by the last word of its normalised name. *)
Definition team_in_title (vegas_team title : string) : bool :=
  let title_lower := Str.lower title in
  let school := normalize_team_name vegas_team in
  Str.contains school title_lower
  || Str.contains (get_team_abbrev vegas_team) (Str.replace title_lower " " "")
  || Str.contains (last_word school) title_lower.

(** The listing with another sport tag, and the same for a match. *)
Definition with_sport (tag : KalshiMarket.t -> string) (market : KalshiMarket.t)
  : KalshiMarket.t :=
  KalshiMarket.mk (KalshiMarket.ticker market) (KalshiMarket.title market)
    (KalshiMarket.yes_ask market) (KalshiMarket._game_id market)
    (KalshiMarket._team_code market) (tag market).
Definition match_with_sport (tag : KalshiMarket.t -> string) (m : Match.t)
  : Match.t :=
  Match.mk (Match.vegas_event m)
    (with_sport tag <$> Match.kalshi_home_market m)
    (with_sport tag <$> Match.kalshi_away_market m)
    (Match.game_id m).
Definition best_with_sport (tag : KalshiMarket.t -> string) (best : BestMatch.t)
  : BestMatch.t :=
  BestMatch.mk (BestMatch.game_id best)
    (with_sport tag <$> BestMatch.home_market best)
    (with_sport tag <$> BestMatch.away_market best)
    (BestMatch.title best).

(** ** The opportunities of a match *)

(** The listing, the consensus probability and the ask price of a side of
    a match; the price is 0 for a side without listing. *)
Definition side_market (m : Match.t) (team : string) : option KalshiMarket.t :=
  if String.eqb team "home" then Match.kalshi_home_market m
  else Match.kalshi_away_market m.
Definition side_prob (probs : VegasProbs.t) (team : string) : Q :=
  if String.eqb team "home" then VegasProbs.home_prob probs
  else VegasProbs.away_prob probs.
Definition side_price (m : Match.t) (team : string) : Q :=
  match side_market m team with
  | Some market => ValueFinder.ask_price market
  | None => 0%Q
  end.

(** The opportunity the engine builds for the side [team] of a match, from
    the consensus, the listing of the side and its edge calculation. *)
Definition opportunity_for (m : Match.t) (probs : VegasProbs.t) (team : string)
  (market : KalshiMarket.t) (c : EdgeCalculation.t) : ValueOpportunity.t :=
  let vegas_event := Match.vegas_event m in
  ValueOpportunity.mk
    (VegasEvent.sport_key vegas_event)
    (VegasEvent.id vegas_event)
    (KalshiMarket.ticker market)
    (VegasEvent.home_team vegas_event)
    (VegasEvent.away_team vegas_event)
    (VegasProbs.home_prob probs)
    (VegasProbs.away_prob probs)
    (side_price m "home")
    (side_price m "away")
    "yes"
    team
    (EdgeCalculation.gross_edge c)
    (EdgeCalculation.net_edge c)
    (EdgeCalculation.fee_per_contract c)
    (EdgeCalculation.expected_value_per_contract c)
    (EdgeCalculation.total_expected_value c)
    (VegasProbs.num_bookmakers probs)
    (ValueFinder._determine_confidence (VegasProbs.num_bookmakers probs)
       (root_max (VegasProbs.home_std probs) (VegasProbs.away_std probs))).

(** The engine reports [opp] for the side [team] of the match: the event
    has a consensus, the side a listing asked strictly between 0 and 1, and
    the net edge of the position ['yes'] on 100 contracts, as a taker,
    reaches the minimum. *)
Definition reported (self : ValueFinder.t) (m : Match.t) (team : string)
  (opp : ValueOpportunity.t) : Prop :=
  exists probs market c,
    ValueFinder._process_vegas_event self (Match.vegas_event m) = Ok (Some probs)
    /\ side_market m team = Some market
    /\ (0 < ValueFinder.ask_price market < 1)%Q
    /\ EdgeCalculation.calculate (ValueFinder.ask_price market)
         (side_prob probs team) 100 "yes" false = Ok c
    /\ (ValueFinder.min_edge self <= EdgeCalculation.net_edge c)%Q
    /\ opp = opportunity_for m probs team market c.

(** The three levels of confidence. *)
Definition confidence_levels : list string := ["high"; "medium"; "low"].

(** The sum of the counts of a dict. *)
Definition total_count (counts : list (string * Z)) : Z :=
  foldr (fun entry total => entry.2 + total) 0 counts.

(** The ask prices at which binary64 arithmetic takes [int(price * 100)]
    one cent below the ask. *)
Definition cents_lost : list Z := [29; 57; 58].

(** The number of cents of the fee for [n] contracts of a listing asked at
    [yes_ask] cents, as a taker: in exact arithmetic, and on binary64
    numbers (0 standing for an exception). *)
Definition exact_cents_for (n yes_ask : Z) : Z :=
  ceil (raw_fee (inject_Z yes_ask / 100) n false * 100).
Definition binary64_cents_for (n yes_ask : Z) : Z :=
  match Binary64.fee_cents (Binary64.ask_price yes_ask) n false with
  | Ok cents => cents
  | Raise _ => 0
  end.

(** A match whose event gets to its quotes and has a degenerate one, the
    odds 0 and 0. *)
Definition degenerate (self : ValueFinder.t) (m : Match.t) : Prop :=
  ValueFinder.min_bookmakers self <= len (VegasEvent.bookmakers (Match.vegas_event m))
  /\ In (0, 0) (qualifying_quotes (Match.vegas_event m)).

(** The sample event with a bookmaker that quotes the odds 0 and 0. *)
Definition degenerate_event : VegasEvent.t :=
  Sample.lakers_celtics
    [Bookmaker.mk "draftkings" [Sample.h2h (-150) 130];
     Bookmaker.mk "fanduel" [Sample.h2h 0 0];
     Bookmaker.mk "betmgm" [Sample.h2h (-160) 140]].


(** * Properties *)

(** ** The comparisons *)

Lemma Qleb_le x y : Qleb x y = true <-> (x <= y)%Q.
Proof. apply Qle_bool_iff. Qed.

Lemma Qleb_gt x y : Qleb x y = false <-> (y < x)%Q.
Proof.
  unfold Qleb. rewrite <- not_true_iff_false, Qle_bool_iff.
  split; [apply Qnot_le_lt | apply Qlt_not_le].
Qed.

Lemma Qltb_lt x y : Qltb x y = true <-> (x < y)%Q.
Proof. unfold Qltb. rewrite negb_true_iff. apply Qleb_gt. Qed.

Lemma Qltb_ge x y : Qltb x y = false <-> (y <= x)%Q.
Proof. unfold Qltb. rewrite negb_false_iff. apply Qleb_le. Qed.

(** ** The fee model *)

Section FeeModel.
Local Open Scope Q_scope.

Lemma raw_fee_eq p n maker :
  raw_fee p n maker = multiplier_of maker * inject_Z n * p * (1 - p).
Proof. by destruct maker. Qed.

Lemma multiplier_pos maker : 0 < multiplier_of maker.
Proof. by destruct maker. Qed.

Lemma inject_Z_pos n : (0 < n)%Z -> 0 < inject_Z n.
Proof. intros H. unfold Qlt. simpl. lia. Qed.

Lemma raw_fee_pos p n maker :
  0 < p -> p < 1 -> (0 < n)%Z -> 0 < raw_fee p n maker.
Proof.
  intros Hp0 Hp1 Hn. rewrite raw_fee_eq.
  pose proof (inject_Z_pos n Hn) as Hn'.
  pose proof (multiplier_pos maker) as Hm.
  repeat apply Qmult_lt_0_compat; try assumption. lra.
Qed.

Lemma fee_valid p n maker :
  0 < p -> p < 1 -> (0 < n)%Z ->
  calculate_kalshi_fee p n maker
  = Ok (inject_Z (ceil (raw_fee p n maker * 100)) / 100).
Proof.
  intros Hp0 Hp1 Hn. unfold calculate_kalshi_fee.
  apply Qleb_gt in Hp0, Hp1. rewrite Hp0, Hp1. simpl.
  destruct (Z.leb_spec n 0); [lia | reflexivity].
Qed.

Lemma fee_invalid p n maker :
  p <= 0 \/ 1 <= p \/ (n <= 0)%Z ->
  exists msg, calculate_kalshi_fee p n maker = Raise (ValueError msg).
Proof.
  intros H. unfold calculate_kalshi_fee.
  destruct (Qleb p 0) eqn:E0; [simpl; eauto |].
  destruct (Qleb 1 p) eqn:E1; [simpl; eauto |]. simpl.
  apply Qleb_gt in E0, E1.
  destruct H as [H | [H | H]]; [lra | lra |].
  apply Z.leb_le in H. rewrite H. eauto.
Qed.

Lemma fee_ok_inv p n maker fee :
  calculate_kalshi_fee p n maker = Ok fee ->
  (0 < p /\ p < 1) /\ (0 < n)%Z.
Proof.
  unfold calculate_kalshi_fee.
  destruct (Qleb p 0) eqn:E0; [discriminate |].
  destruct (Qleb 1 p) eqn:E1; [discriminate |]. simpl.
  destruct (Z.leb_spec n 0); [discriminate |].
  intros _. apply Qleb_gt in E0, E1. auto.
Qed.

(** Rounding up to the cent: [ceil (x * 100) / 100] is not below [x], and
    is below [x + 1/100]. *)
Lemma cents_up_ge x : x <= inject_Z (ceil (x * 100)) / 100.
Proof.
  apply Qle_shift_div_l; [reflexivity |]. apply Qle_ceiling.
Qed.

Lemma cents_up_lt x : inject_Z (ceil (x * 100)) / 100 < x + (1 # 100).
Proof.
  apply Qlt_shift_div_r; [reflexivity |].
  pose proof (Qceiling_lt (x * 100)) as H. unfold ceil.
  unfold Z.sub in H. rewrite inject_Z_plus, inject_Z_opp in H.
  change (inject_Z 1) with 1 in H. lra.
Qed.

Lemma cents_up_integer x :
  inject_Z (ceil (x * 100)) / 100 * 100 == inject_Z (ceil (x * 100)).
Proof. field. Qed.

Lemma cents_up_pos x : 0 < x -> (1 # 100) <= inject_Z (ceil (x * 100)) / 100.
Proof.
  intros Hx. apply Qle_shift_div_l; [reflexivity |].
  assert (0 < inject_Z (ceil (x * 100))) as H.
  { eapply Qlt_le_trans; [| apply Qle_ceiling]. lra. }
  revert H. generalize (ceil (x * 100)). intros z.
  unfold Qlt, Qle. simpl. lia.
Qed.
End FeeModel.

(** The fee in exact arithmetic.  For a price strictly between 0 and 1 and
    a positive number of contracts, the fee is
    [ceil(multiplier * n * p * (1 - p) * 100) / 100] with the multiplier 0.07
    of a taker or 0.0175 of a maker; a hundred times the fee is an integer,
    and the fee is not below the unrounded value
    [multiplier * n * p * (1 - p)].  For a price at most 0 or at least 1, or
    a number of contracts at most 0, the function raises [ValueError]. *)
Theorem fee_rounded_up_to_the_cent (p : Q) (n : Z) (maker : bool) :
  ((0 < p /\ p < 1)%Q -> 0 < n ->
   exists fee : Q,
     calculate_kalshi_fee p n maker = Ok fee
     /\ fee = (inject_Z (ceil (multiplier_of maker * inject_Z n * p * (1 - p) * 100))
               / 100)%Q
     /\ (exists cents : Z, fee * 100 == inject_Z cents)%Q
     /\ (multiplier_of maker * inject_Z n * p * (1 - p) <= fee)%Q)
  /\ ((p <= 0)%Q \/ (1 <= p)%Q \/ n <= 0 ->
      exists msg, calculate_kalshi_fee p n maker = Raise (ValueError msg)).
Proof.
  split.
  - intros [Hp0 Hp1] Hn. eexists. split; [by apply fee_valid |].
    rewrite raw_fee_eq. split; [reflexivity |]. split.
    + eexists. apply cents_up_integer.
    + apply cents_up_ge.
  - apply fee_invalid.
Qed.

Lemma fee_rounded_up_to_the_cent_witness :
  calculate_kalshi_fee (45 # 100) 100 false = Ok (174 # 100)%Q
  /\ exists msg, calculate_kalshi_fee (0 # 1) 100 false = Raise (ValueError msg).
Proof.
  destruct (fee_rounded_up_to_the_cent (45 # 100) 100 false) as [Hok _].
  destruct (fee_rounded_up_to_the_cent (0 # 1) 100 false) as [_ Herr].
  split.
  - destruct Hok as (fee & Hfee & -> & _); [split; reflexivity | reflexivity |].
    exact Hfee.
  - apply Herr. left. discriminate.
Defined.

(** ** The fee on binary64 numbers *)

(** The scenario of the specification: 45 cents, 100 contracts, a fee of
    1.74 in either arithmetic. *)
Lemma binary64_fee_at_45 :
  Binary64.calculate_kalshi_fee (Binary64.ask_price 45) 100 false
  = Ok 0x1.bd70a3d70a3d7p+0%float                       (* 1.74 *)
  /\ calculate_kalshi_fee (inject_Z 45 / 100) 100 false
     = Ok (inject_Z 174 / 100)%Q.
Proof. split; vm_compute; reflexivity. Qed.

(** C1, at the price of 50 cents and 100 contracts, as a taker.  The
    formula of the claim gives [ceil(0.07 * 100 * 0.5 * 0.5 * 100) / 100],
    that is 1.75, the unrounded fee being a whole number of cents already;
    so does the function in exact arithmetic.  The function computes on
    binary64 numbers: [0.07 * 100] is 7.000000000000001, the unrounded fee
    1.7500000000000002, its product with 100 is 175.00000000000003, of
    ceiling 176, and the function returns 1.76. *)
Theorem binary64_fee_at_50 :
  Binary64.ask_price 50 = 0x1p-1%float                        (* 0.5 *)
  /\ (0x1.1eb851eb851ecp-4 * Binary64.float_of_int 100)%float
     = 0x1.c000000000001p+2%float                 (* 0.07 * 100 *)
  /\ (0x1.c000000000001p+2 * 0x1p-1 * (1 - 0x1p-1))%float
     = 0x1.c000000000001p+0%float                 (* raw_fee *)
  /\ (0x1.c000000000001p+0 * 100)%float
     = 0x1.5e00000000001p+7%float                 (* raw_fee * 100 *)
  /\ Binary64.ceil 0x1.5e00000000001p+7%float = Ok 176
  /\ Binary64.fee_cents (Binary64.ask_price 50) 100 false = Ok 176
  /\ Binary64.calculate_kalshi_fee (Binary64.ask_price 50) 100 false
     = Ok 0x1.c28f5c28f5c29p+0%float                       (* 1.76 *)
  /\ ceil (multiplier_of false * inject_Z 100 * (1 # 2) * (1 - (1 # 2)) * 100)
     = 175
  /\ calculate_kalshi_fee (inject_Z 50 / 100) 100 false
     = Ok (inject_Z 175 / 100)%Q.
Proof. repeat split; vm_compute; reflexivity. Qed.

(** X23. Over the ask prices of 1 to 99 cents, for 100 contracts as a taker, the
    two arithmetics give the same fee but at seven prices, where binary64
    gives one cent more; the fee is at least one cent in both. *)
Lemma binary64_fee_against_exact :
  List.filter (fun yes_ask => negb (binary64_cents yes_ask =? exact_cents yes_ask))
    (map Z.of_nat (seq 1 99))
  = [10; 20; 40; 50; 60; 70; 80]
  /\ Forall (fun yes_ask => binary64_cents yes_ask = exact_cents yes_ask + 1)
       [10; 20; 40; 50; 60; 70; 80]
  /\ Forall (fun yes_ask => 1 <= exact_cents yes_ask <= binary64_cents yes_ask)
       (map Z.of_nat (seq 1 99)).
Proof.
  split; [vm_compute; reflexivity |]. split.
  - repeat constructor; vm_compute; reflexivity.
  - apply List.Forall_forall. intros yes_ask Hin.
    apply (forallb_forall
             (fun a => (1 <=? exact_cents a) && (exact_cents a <=? binary64_cents a))
             (map Z.of_nat (seq 1 99))) in Hin; [| vm_compute; reflexivity].
    apply andb_true_iff in Hin as [H1 H2]. lia.
Qed.

(** ** The odds converter *)

Section OddsConverter.
Local Open Scope Q_scope.

Lemma remove_vig_ok a b :
  0 < a + b -> remove_vig a b = Ok (a / (a + b), b / (a + b)).
Proof.
  intros H. unfold remove_vig. apply Qleb_gt in H. by rewrite H.
Qed.

Lemma remove_vig_raises a b :
  a + b <= 0 ->
  remove_vig a b = Raise (ValueError "Sum of probabilities must be positive").
Proof.
  intros H. unfold remove_vig. apply Qleb_le in H. by rewrite H.
Qed.

Lemma remove_vig_sum a b : 0 < a + b -> a / (a + b) + b / (a + b) == 1.
Proof. intros H. field. lra. Qed.

Lemma implied_positive_odds v :
  (0 < v)%Z -> american_to_implied_prob v = 100 / (inject_Z v + 100).
Proof.
  intros H. unfold american_to_implied_prob.
  destruct (Z.ltb_spec 0 v); [reflexivity | lia].
Qed.

Lemma implied_negative_odds v :
  (v <= 0)%Z ->
  american_to_implied_prob v
  = inject_Z (Z.abs v) / (inject_Z (Z.abs v) + 100).
Proof.
  intros H. unfold american_to_implied_prob.
  destruct (Z.ltb_spec 0 v); [lia | reflexivity].
Qed.

(** The two curves, on a positive rational [x]. *)
Lemma underdog_curve_bounds x : 0 < x -> 0 < 100 / (x + 100) /\ 100 / (x + 100) < 1.
Proof.
  intros H. split.
  - apply Qlt_shift_div_l; lra.
  - apply Qlt_shift_div_r; lra.
Qed.

Lemma favorite_curve_bounds x : 0 < x -> 0 < x / (x + 100) /\ x / (x + 100) < 1.
Proof.
  intros H. split.
  - apply Qlt_shift_div_l; lra.
  - apply Qlt_shift_div_r; lra.
Qed.







Lemma implied_bounds v :
  v <> 0%Z -> 0 < american_to_implied_prob v /\ american_to_implied_prob v < 1.
Proof.
  intros Hv. destruct (Z.lt_total 0 v) as [Hpos | [Heq | Hneg]]; [| congruence |].
  - rewrite implied_positive_odds by done.
    apply underdog_curve_bounds. by apply inject_Z_pos.
  - rewrite implied_negative_odds by lia.
    apply favorite_curve_bounds. apply inject_Z_pos. lia.
Qed.

Lemma implied_nonneg v : 0 <= american_to_implied_prob v.
Proof.
  destruct (Z.eq_dec v 0%Z) as [-> | Hv]; [discriminate |].
  apply Qlt_le_weak. by apply implied_bounds.
Qed.
End OddsConverter.

(** C2. [remove_vig] raises [ValueError] exactly when [p_a + p_b <= 0];
    otherwise it returns [(p_a / (p_a + p_b), p_b / (p_a + p_b))], two
    numbers whose sum is 1 (so within 1e-9 of 1) whenever it returns, in
    particular for two positive inputs.  The function has no state: its
    result, value or error, depends on its two arguments alone. *)
Theorem remove_vig_guard_and_scaling (p_a p_b : Q) :
  ((exists msg, remove_vig p_a p_b = Raise (ValueError msg))
   <-> (p_a + p_b <= 0)%Q)
  /\ (~ (p_a + p_b <= 0)%Q ->
      remove_vig p_a p_b = Ok ((p_a / (p_a + p_b))%Q, (p_b / (p_a + p_b))%Q))
  /\ ((0 < p_a)%Q -> (0 < p_b)%Q ->
      exists p_a' p_b',
        remove_vig p_a p_b = Ok (p_a', p_b')
        /\ (p_a' + p_b' == 1)%Q
        /\ (Qabs (p_a' + p_b' - 1) <= 1 # 1000000000)%Q).
Proof.
  split; [| split].
  - split.
    + intros [msg H]. destruct (Qlt_le_dec 0 (p_a + p_b)) as [Hpos | Hle]; [| done].
      rewrite remove_vig_ok in H by done. discriminate.
    + intros H. eexists. by apply remove_vig_raises.
  - intros H. apply remove_vig_ok. by apply Qnot_le_lt.
  - intros Ha Hb. assert (0 < p_a + p_b)%Q as Hs by lra.
    do 2 eexists. split; [by apply remove_vig_ok |].
    pose proof (remove_vig_sum p_a p_b Hs) as Hsum. split; [done |].
    rewrite Hsum. discriminate.
Qed.

Lemma remove_vig_guard_and_scaling_witness :
  remove_vig (52 # 100) (525 # 1000)
  = Ok (((52 # 100) / ((52 # 100) + (525 # 1000)))%Q,
        ((525 # 1000) / ((52 # 100) + (525 # 1000)))%Q).
Proof.
  apply (remove_vig_guard_and_scaling (52 # 100) (525 # 1000)).
  apply Qlt_not_le. reflexivity.
Defined.




(** ** The edge calculation *)

Section Edge.
Local Open Scope Q_scope.

(** The fee of one contract is positive whenever the fee is computed. *)
Lemma fee_per_contract_pos p n maker fee :
  calculate_kalshi_fee p n maker = Ok fee ->
  (1 # 100) <= fee /\ 0 < fee / inject_Z n.
Proof.
  intros H. destruct (fee_ok_inv _ _ _ _ H) as [[Hp0 Hp1] Hn].
  rewrite fee_valid in H by done. injection H as <-.
  assert ((1 # 100) <= inject_Z (ceil (raw_fee p n maker * 100)) / 100) as Hc
    by (apply cents_up_pos; by apply raw_fee_pos).
  split; [done |].
  apply Qlt_shift_div_l; [by apply inject_Z_pos | lra].
Qed.

(** What [calculate] returns, read off its two branches. *)
Lemma calculate_inv price prob n position maker c :
  EdgeCalculation.calculate price prob n position maker = Ok c ->
  exists fee,
    calculate_kalshi_fee price n maker = Ok fee
    /\ EdgeCalculation.position c = position
    /\ EdgeCalculation.fee_per_contract c = fee / inject_Z n
    /\ (if String.eqb position "yes" then
          EdgeCalculation.effective_cost c = price + fee / inject_Z n
          /\ EdgeCalculation.gross_edge c = prob - price
          /\ EdgeCalculation.net_edge c = prob - (price + fee / inject_Z n)
        else
          EdgeCalculation.effective_cost c = (1 - price) + fee / inject_Z n
          /\ EdgeCalculation.gross_edge c = (1 - prob) - (1 - price)
          /\ EdgeCalculation.net_edge c
             = (1 - prob) - ((1 - price) + fee / inject_Z n)).
Proof.
  unfold EdgeCalculation.calculate. intros H.
  destruct (calculate_kalshi_fee price n maker) as [fee | e] eqn:Hfee;
    [| discriminate].
  exists fee. simpl in H.
  destruct (String.eqb position "yes"); injection H as <-; simpl;
    repeat split; reflexivity.
Qed.

Lemma calculate_ok price prob n position maker :
  0 < price -> price < 1 -> (0 < n)%Z ->
  exists c, EdgeCalculation.calculate price prob n position maker = Ok c.
Proof.
  intros Hp0 Hp1 Hn. unfold EdgeCalculation.calculate.
  rewrite fee_valid by done. simpl.
  destruct (String.eqb position "yes"); eauto.
Qed.

Lemma net_below_gross price prob n position maker c :
  EdgeCalculation.calculate price prob n position maker = Ok c ->
  EdgeCalculation.net_edge c < EdgeCalculation.gross_edge c.
Proof.
  intros H. destruct (calculate_inv _ _ _ _ _ _ H) as (fee & Hfee & _ & _ & Hc).
  destruct (fee_per_contract_pos _ _ _ _ Hfee) as [_ Hpos].
  destruct (String.eqb position "yes"); destruct Hc as (_ & -> & ->); lra.
Qed.
End Edge.

(** C4. For a price strictly between 0 and 1, any consensus probability and
    a positive number of contracts, the edge calculation returns a record
    whose net edge is at most its gross edge, for either position and either
    role; for the position ['yes'] the gross edge is the consensus
    probability minus the price, and the net edge is the consensus
    probability minus the effective cost, the price plus the fee of one
    contract. *)
Theorem net_edge_at_most_gross_edge
  (price prob : Q) (n : Z) (position : string) (maker : bool) :
  (0 < price)%Q -> (price < 1)%Q -> 0 < n ->
  exists c fee,
    EdgeCalculation.calculate price prob n position maker = Ok c
    /\ calculate_kalshi_fee price n maker = Ok fee
    /\ (EdgeCalculation.net_edge c <= EdgeCalculation.gross_edge c)%Q
    /\ (position = "yes" ->
        EdgeCalculation.gross_edge c = (prob - price)%Q
        /\ EdgeCalculation.effective_cost c = (price + fee / inject_Z n)%Q
        /\ EdgeCalculation.net_edge c
           = (prob - EdgeCalculation.effective_cost c)%Q).
Proof.
  intros Hp0 Hp1 Hn.
  destruct (calculate_ok price prob n position maker) as [c Hc]; [done.. |].
  destruct (calculate_inv _ _ _ _ _ _ Hc) as (fee & Hfee & _ & _ & Hbr).
  exists c, fee. split; [done |]. split; [done |]. split.
  - apply Qlt_le_weak. by eapply net_below_gross.
  - intros ->. simpl in Hbr. destruct Hbr as (-> & -> & ->). done.
Qed.

Lemma net_edge_at_most_gross_edge_witness :
  exists c fee,
    EdgeCalculation.calculate (45 # 100) (55 # 100) 100 "yes" false = Ok c
    /\ calculate_kalshi_fee (45 # 100) 100 false = Ok fee
    /\ (EdgeCalculation.net_edge c <= EdgeCalculation.gross_edge c)%Q
    /\ ("yes" = "yes" ->
        EdgeCalculation.gross_edge c = ((55 # 100) - (45 # 100))%Q
        /\ EdgeCalculation.effective_cost c
           = ((45 # 100) + fee / inject_Z 100)%Q
        /\ EdgeCalculation.net_edge c
           = ((55 # 100) - EdgeCalculation.effective_cost c)%Q).
Proof.
  apply (net_edge_at_most_gross_edge (45 # 100) (55 # 100) 100 "yes" false);
    [reflexivity | reflexivity | lia].
Defined.



(** ** Python's [sorted] *)

Section SortedFacts.
Context {A : Type}.
Variable lt : A -> A -> bool.

Lemma insert_sorted_perm x l : insert_sorted lt x l ≡ₚ x :: l.
Proof.
  induction l as [| y l IH]; simpl; [done |].
  destruct (lt y x); [| done].
  rewrite IH. apply Permutation_swap.
Qed.

Lemma sorted_perm l : sorted lt l ≡ₚ l.
Proof.
  induction l as [| x l IH]; simpl; [done |].
  unfold sorted in *. simpl. by rewrite insert_sorted_perm, IH.
Qed.

Lemma sorted_length l : length (sorted lt l) = length l.
Proof. by rewrite (Permutation_length (sorted_perm l)). Qed.

(** [le] is the order the result is sorted in: an element not passed by
    [x] is above [x], an element passed is below, and the order is
    transitive. *)
Variable le : A -> A -> Prop.
Hypothesis le_of_not_lt : forall x y, lt y x = false -> le x y.
Hypothesis le_of_lt : forall x y, lt y x = true -> le y x.
Hypothesis le_trans : forall x y z, le x y -> le y z -> le x z.

Lemma insert_sorted_sorted x l :
  StronglySorted le l -> StronglySorted le (insert_sorted lt x l).
Proof.
  induction 1 as [| y l Hl IH Hy]; simpl; [by repeat constructor |].
  destruct (lt y x) eqn:E.
  - constructor; [done |].
    rewrite insert_sorted_perm. constructor; [by apply le_of_lt | done].
  - constructor; [by constructor |].
    constructor; [by apply le_of_not_lt |].
    eapply Forall_impl; [exact Hy |].
    intros z Hz. eapply le_trans; [by apply le_of_not_lt | done].
Qed.

Lemma sorted_sorted l : StronglySorted le (sorted lt l).
Proof.
  induction l as [| x l IH]; [constructor |].
  by apply insert_sorted_sorted.
Qed.

(** Stability: the elements a test [P] selects keep their order, when an
    element [P] selects passes no other element [P] selects. *)
Variable P : A -> bool.
Hypothesis P_not_passed : forall x y, P x = true -> lt y x = true -> P y = false.

Lemma insert_sorted_filter x l :
  List.filter P (insert_sorted lt x l) = List.filter P (x :: l).
Proof.
  induction l as [| y l IH]; [done |]. simpl.
  destruct (lt y x) eqn:E; [| done]. simpl. rewrite IH. simpl.
  destruct (P x) eqn:Ex; [| done].
  by rewrite (P_not_passed x y).
Qed.

Lemma sorted_filter l : List.filter P (sorted lt l) = List.filter P l.
Proof.
  induction l as [| x l IH]; [done |].
  change (sorted lt (x :: l)) with (insert_sorted lt x (sorted lt l)).
  rewrite insert_sorted_filter. simpl. by rewrite IH.
Qed.
End SortedFacts.

Section SortedKeyReverse.
Context {A : Type}.
Variable key : A -> Q.

Lemma sorted_key_reverse_perm l : sorted_key_reverse key l ≡ₚ l.
Proof. apply sorted_perm. Qed.

Lemma sorted_key_reverse_descending l :
  StronglySorted (fun a b => (key b <= key a)%Q) (sorted_key_reverse key l).
Proof.
  apply sorted_sorted.
  - intros x y H. by apply Qltb_ge in H.
  - intros x y H. apply Qltb_lt in H. by apply Qlt_le_weak.
  - intros x y z Hxy Hyz. by eapply Qle_trans.
Qed.

(** The elements of one key value keep the order they had. *)
Lemma sorted_key_reverse_stable k l :
  List.filter (fun a => Qeq_bool (key a) k) (sorted_key_reverse key l)
  = List.filter (fun a => Qeq_bool (key a) k) l.
Proof.
  apply sorted_filter. intros x y Hx Hlt.
  apply Qeq_bool_iff in Hx. apply Qltb_lt in Hlt.
  apply not_true_iff_false. intros Hy. apply Qeq_bool_iff in Hy.
  rewrite Hx, Hy in Hlt. by apply Qlt_irrefl in Hlt.
Qed.
End SortedKeyReverse.

(** ** The consensus builder *)

Section Consensus.
Lemma for_each_app {X S : Type} (xs ys : list X) (body : X -> S -> result S) s :
  for_each (xs ++ ys) body s = (s' ← for_each xs body s; for_each ys body s').
Proof.
  revert s. induction xs as [| x xs IH]; intros s; simpl; [done |].
  destruct (body x s) as [s' | e]; simpl; [apply IH | done].
Qed.

Lemma for_each_flat_map {X Y S : Type} (f : X -> list Y) (xs : list X)
  (body : Y -> S -> result S) s :
  for_each xs (fun x => for_each (f x) body) s
  = for_each (flat_map f xs) body s.
Proof.
  revert s. induction xs as [| x xs IH]; intros s; simpl; [done |].
  rewrite for_each_app.
  destruct (for_each (f x) body s) as [s' | e]; simpl; [apply IH | done].
Qed.


(** A quote is degenerate, its two implied probabilities adding up to 0,
    only when both odds are 0. *)
Lemma quote_total_pos q : q <> (0, 0) -> (0 < quote_total q)%Q.
Proof.
  destruct q as [h a]. intros Hq. unfold quote_total. simpl.
  pose proof (implied_nonneg h) as Hh. pose proof (implied_nonneg a) as Ha.
  destruct (Z.eq_dec h 0) as [-> | Hh0].
  - destruct (Z.eq_dec a 0) as [-> | Ha0]; [done |].
    pose proof (implied_bounds a Ha0). lra.
  - pose proof (implied_bounds h Hh0). lra.
Qed.

Lemma quote_ok_nondegenerate q : q <> (0, 0) -> quote_ok q = true.
Proof.
  intros H. unfold quote_ok. apply negb_true_iff, Qleb_gt.
  by apply quote_total_pos.
Qed.

(** The loop over the markets, on any starting state. *)
Lemma quote_market_step home_team away_team market hp ap :
  ValueFinder.quote_market home_team away_team market (hp, ap)
  = match market_quote home_team away_team market with
    | Some q =>
        if quote_ok q then Ok (hp ++ [devig_home q], ap ++ [devig_away q])
        else Raise vig_error
    | None => Ok (hp, ap)
    end.
Proof.
  unfold ValueFinder.quote_market, market_quote.
  destruct (String.eqb (BookMarket.key market) "h2h"); simpl; [| done].
  destruct (outcomes_dict _ !! home_team) as [h |]; [| done].
  destruct (outcomes_dict _ !! away_team) as [a |]; [| done].
  unfold remove_vig, quote_ok, quote_total, devig_home, devig_away. simpl.
  by destruct (Qleb _ 0).
Qed.

Lemma quote_markets_loop home_team away_team markets hp ap :
  for_each markets (ValueFinder.quote_market home_team away_team) (hp, ap)
  = let quotes := omap (market_quote home_team away_team) markets in
    if forallb quote_ok quotes
    then Ok (hp ++ map devig_home quotes, ap ++ map devig_away quotes)
    else Raise vig_error.
Proof.
  revert hp ap. induction markets as [| m markets IH]; intros hp ap.
  - simpl. by rewrite !app_nil_r.
  - cbn [for_each]. rewrite quote_market_step.
    change (omap (market_quote home_team away_team) (m :: markets))
      with (match market_quote home_team away_team m with
            | Some q => q :: omap (market_quote home_team away_team) markets
            | None => omap (market_quote home_team away_team) markets
            end).
    destruct (market_quote home_team away_team m) as [q |]; [| apply IH].
    cbn [forallb]. destruct (quote_ok q); [| done].
    cbn [andb]. etrans; [apply IH |]. cbn zeta.
    destruct (forallb quote_ok _); [| done].
    cbn [map]. by rewrite <- !app_assoc.
Qed.

(** The probabilities the two loops collect: those of the qualifying
    quotes, unless one of them is degenerate. *)
Lemma collect_probs_eq event :
  ValueFinder.collect_probs event
  = if forallb quote_ok (qualifying_quotes event)
    then Ok (map devig_home (qualifying_quotes event),
             map devig_away (qualifying_quotes event))
    else Raise vig_error.
Proof.
  unfold ValueFinder.collect_probs, qualifying_quotes.
  rewrite (for_each_flat_map Bookmaker.markets).
  by rewrite quote_markets_loop.
Qed.

Lemma median_some data : data <> [] -> exists m, median data = Ok m.
Proof.
  intros H. unfold median. rewrite sorted_length.
  destruct data as [| x data]; [done |]. simpl length.
  destruct (_ =? 0)%nat eqn:E; [done |].
  destruct (_ =? 1)%nat; eauto.
Qed.


Lemma dispersion_eq data :
  (if 1 <? len data then stdev data else Ok (Sqrt 0)) = Ok (dispersion data).
Proof.
  unfold dispersion, stdev, len.
  destruct (Z.ltb_spec 1 (Z.of_nat (length data))) as [H | H]; [| done].
  destruct (Nat.ltb_spec (length data) 2); [lia | done].
Qed.

(** The builder, event by event. *)
Lemma process_vegas_event_eq self event :
  ValueFinder._process_vegas_event self event
  = if len (VegasEvent.bookmakers event) <? ValueFinder.min_bookmakers self
    then Ok None
    else if forallb quote_ok (qualifying_quotes event) then
      match qualifying_quotes event with
      | [] => Ok None
      | quotes =>
          home_prob ← median (map devig_home quotes);
          away_prob ← median (map devig_away quotes);
          Ok (Some (VegasProbs.mk home_prob away_prob (len quotes)
                      (dispersion (map devig_home quotes))
                      (dispersion (map devig_away quotes))))
      end
    else Raise vig_error.
Proof.
  unfold ValueFinder._process_vegas_event.
  destruct (_ <? _); [done |].
  rewrite collect_probs_eq.
  destruct (forallb quote_ok (qualifying_quotes event)); [| done]. simpl.
  destruct (qualifying_quotes event) as [| q quotes]; [done |].
  cbn [map]. rewrite !dispersion_eq.
  destruct (median (devig_home q :: _)); simpl; [| done].
  destruct (median (devig_away q :: _)); simpl; [| done].
  do 3 f_equal. unfold len. cbn [length]. by rewrite length_map.
Qed.
End Consensus.

Section ConsensusValues.




(** The match the matcher appends for an event carries that event. *)
Lemma match_event_event partial_ratio ratio kalshi_games event m :
  match_event partial_ratio ratio kalshi_games event = Some m ->
  Match.vegas_event m = event.
Proof.
  unfold match_event. destruct (best_game _ _ _ _).1; [| done].
  by intros [= <-].
Qed.

End ConsensusValues.






(** ** The edge engine *)

Section Engine.
Variable self : ValueFinder.t.

Lemma calculate_position price prob n position maker c :
  EdgeCalculation.calculate price prob n position maker = Ok c ->
  EdgeCalculation.position c = position.
Proof.
  intros H. by destruct (calculate_inv _ _ _ _ _ _ H) as (_ & _ & -> & _).
Qed.

Lemma bind_ok_inv {X Y : Type} (r : result X) (k : X -> result Y) y :
  r ≫= k = Ok y -> exists x, r = Ok x /\ k x = Ok y.
Proof. destruct r as [x | e]; [by exists x | done]. Qed.

(** One pass of the loop body appends to the two lists; what it appends
    is described by [emitted_by] and [calculated_for]. *)
Lemma evaluate_match_appends m opps calls opps' calls' :
  ValueFinder.evaluate_match self m (opps, calls) = Ok (opps', calls') ->
  exists new_opps new_calls,
    opps' = opps ++ new_opps
    /\ calls' = calls ++ new_calls
    /\ Forall (emitted_by self m) new_opps
    /\ Forall (calculated_for self m) new_calls.
Proof.
  unfold ValueFinder.evaluate_match. intros H.
  apply bind_ok_inv in H as ([probs |] & Hprobs & H).
  2: { injection H as <- <-. exists [], []. by rewrite !app_nil_r. }
  apply bind_ok_inv in H as ([opps1 calls1] & Hhome & Haway).
  (* the home side *)
  assert (exists o1 c1, opps1 = opps ++ o1 /\ calls1 = calls ++ c1
            /\ Forall (emitted_by self m) o1
            /\ Forall (calculated_for self m) c1) as (o1 & c1 & -> & -> & Ho1 & Hc1).
  { clear Haway.
    destruct (Match.kalshi_home_market m) as [hm |] eqn:Ehm.
    2: { injection Hhome as <- <-. exists [], []. by rewrite !app_nil_r. }
    destruct (Qltb 0 _ && Qltb _ 1) eqn:Eprice.
    2: { injection Hhome as <- <-. exists [], []. by rewrite !app_nil_r. }
    apply bind_ok_inv in Hhome as (c & Ec & Hhome).
    assert (calculated_for self m c) as Hc.
    { exists probs. split; [done |]. left. exists hm. by split. }
    destruct (Qleb _ _) eqn:Eedge; injection Hhome as <- <-.
    - eexists [_], [c]. split; [done |]. split; [done |].
      split; [| by repeat constructor].
      repeat constructor. exists probs. split; [done |]. left.
      exists hm, c. apply Qleb_le in Eedge. by repeat split.
    - exists [], [c]. rewrite app_nil_r. by repeat constructor. }
  (* the away side *)
  clear Hhome.
  destruct (Match.kalshi_away_market m) as [am |] eqn:Eam.
  2: { injection Haway as <- <-. by exists o1, c1. }
  destruct (Qltb 0 _ && Qltb _ 1) eqn:Eprice.
  2: { injection Haway as <- <-. by exists o1, c1. }
  apply bind_ok_inv in Haway as (c & Ec & Haway).
  assert (calculated_for self m c) as Hc.
  { exists probs. split; [done |]. right. exists am. by split. }
  destruct (Qleb _ _) eqn:Eedge; injection Haway as <- <-.
  - eexists (o1 ++ [_]), (c1 ++ [c]). rewrite !app_assoc.
    split; [done |]. split; [done |]. split.
    + apply Forall_app. split; [done |]. repeat constructor.
      exists probs. split; [done |]. right.
      exists am, c. apply Qleb_le in Eedge. by repeat split.
    + apply Forall_app. split; [done |]. by repeat constructor.
  - exists o1, (c1 ++ [c]). rewrite !app_assoc.
    split; [done |]. split; [done |]. split; [done |].
    apply Forall_app. split; [done |]. by repeat constructor.
Qed.

Lemma evaluate_matches_from ms opps calls opps' calls' :
  for_each ms (ValueFinder.evaluate_match self) (opps, calls)
  = Ok (opps', calls') ->
  exists new_opps new_calls,
    opps' = opps ++ new_opps
    /\ calls' = calls ++ new_calls
    /\ Forall (fun o => exists m, In m ms /\ emitted_by self m o) new_opps
    /\ Forall (fun c => exists m, In m ms /\ calculated_for self m c) new_calls.
Proof.
  revert opps calls. induction ms as [| m ms IH]; intros opps calls; simpl.
  - intros [= <- <-]. exists [], []. by rewrite !app_nil_r.
  - destruct (ValueFinder.evaluate_match self m (opps, calls))
      as [[opps1 calls1] | e] eqn:Hm; simpl; [| done].
    intros Hrest.
    destruct (evaluate_match_appends _ _ _ _ _ Hm)
      as (o1 & c1 & -> & -> & Ho1 & Hc1).
    destruct (IH _ _ Hrest) as (o2 & c2 & -> & -> & Ho2 & Hc2).
    exists (o1 ++ o2), (c1 ++ c2). rewrite !app_assoc.
    split; [done |]. split; [done |]. split; apply Forall_app; split.
    + eapply Forall_impl; [exact Ho1 |]. intros o Ho. exists m. by split; [left |].
    + eapply Forall_impl; [exact Ho2 |]. intros o (m' & Hin & Ho).
      exists m'. by split; [right |].
    + eapply Forall_impl; [exact Hc1 |]. intros c Hc. exists m. by split; [left |].
    + eapply Forall_impl; [exact Hc2 |]. intros c (m' & Hin & Hc).
      exists m'. by split; [right |].
Qed.

Lemma evaluate_matches_emits ms opps calls :
  ValueFinder.evaluate_matches self ms = Ok (opps, calls) ->
  Forall (fun o => exists m, In m ms /\ emitted_by self m o) opps
  /\ Forall (fun c => exists m, In m ms /\ calculated_for self m c) calls.
Proof.
  intros H. apply evaluate_matches_from in H.
  by destruct H as (o & c & -> & -> & Ho & Hc).
Qed.
End Engine.

Section Ranking.
Variable partial_ratio : string -> string -> Q.
Variable ratio : string -> string -> Q.
Variable self : ValueFinder.t.

Lemma find_game_winner_value_inv vegas_events kalshi_markets final :
  ValueFinder.find_game_winner_value partial_ratio ratio self vegas_events
    kalshi_markets = Ok final ->
  exists emitted calls,
    ValueFinder.scan partial_ratio ratio self vegas_events kalshi_markets
    = Ok (emitted, calls)
    /\ final = sorted_key_reverse ValueOpportunity.net_edge emitted.
Proof.
  unfold ValueFinder.find_game_winner_value. intros H.
  apply bind_ok_inv in H as ([emitted calls] & Hscan & [= <-]).
  by exists emitted, calls.
Qed.

Lemma emitted_by_edge m o :
  emitted_by self m o ->
  (ValueFinder.min_edge self <= ValueOpportunity.net_edge o)%Q
  /\ ValueOpportunity.recommended_position o = "yes".
Proof.
  intros (probs & _ & [(hm & c & _ & _ & Hedge & _ & Hpos & _ & _ & _ & -> & _)
                      | (am & c & _ & _ & Hedge & _ & Hpos & _ & _ & _ & -> & _)]);
    by split.
Qed.

Lemma calculated_for_position m c :
  calculated_for self m c -> EdgeCalculation.position c = "yes".
Proof.
  intros (probs & _ & [(hm & _ & Hc) | (am & _ & Hc)]);
    by apply calculate_position in Hc.
Qed.
End Ranking.

(** C6. The list the engine returns holds only opportunities whose net edge
    is at least the configured minimum, and is in descending order of net
    edge; it is a rearrangement of the opportunities emitted, in which those
    of equal net edge keep the order of their emission. *)
Theorem opportunities_filtered_and_ranked
  (partial_ratio ratio : string -> string -> Q) (self : ValueFinder.t)
  (vegas_events : list VegasEvent.t) (kalshi_markets : list KalshiMarket.t)
  (final : list ValueOpportunity.t) :
  ValueFinder.find_game_winner_value partial_ratio ratio self vegas_events
    kalshi_markets = Ok final ->
  Forall (fun o => (ValueFinder.min_edge self <= ValueOpportunity.net_edge o)%Q)
    final
  /\ StronglySorted
       (fun a b => (ValueOpportunity.net_edge b <= ValueOpportunity.net_edge a)%Q)
       final
  /\ exists emitted calls,
       ValueFinder.scan partial_ratio ratio self vegas_events kalshi_markets
       = Ok (emitted, calls)
       /\ final ≡ₚ emitted
       /\ forall k,
            List.filter (fun o => Qeq_bool (ValueOpportunity.net_edge o) k) final
            = List.filter (fun o => Qeq_bool (ValueOpportunity.net_edge o) k)
                emitted.
Proof.
  intros H.
  apply find_game_winner_value_inv in H as (emitted & calls & Hscan & ->).
  split; [| split].
  - rewrite sorted_key_reverse_perm.
    destruct (evaluate_matches_emits _ _ _ _ Hscan) as [Hem _].
    eapply Forall_impl; [exact Hem |].
    intros o (m & _ & Ho). by apply emitted_by_edge in Ho as [Ho _].
  - apply sorted_key_reverse_descending.
  - exists emitted, calls. split; [done |].
    split; [apply sorted_key_reverse_perm |].
    intros k. apply sorted_key_reverse_stable.
Qed.

Lemma opportunities_filtered_and_ranked_witness :
  exists final,
    ValueFinder.find_game_winner_value Sample.substring_score
      Sample.equality_score ValueFinder.default [Sample.quoted_event]
      Sample.lakers_celtics_listings = Ok final
    /\ map ValueOpportunity.recommended_team final = ["away"; "home"]
    /\ Forall (fun o => (MIN_NET_EDGE <= ValueOpportunity.net_edge o)%Q) final
    /\ StronglySorted
         (fun a b => (ValueOpportunity.net_edge b <= ValueOpportunity.net_edge a)%Q)
         final.
Proof.
  eexists. split; [vm_compute; reflexivity |]. split; [reflexivity |].
  split;
    eapply (opportunities_filtered_and_ranked Sample.substring_score
              Sample.equality_score ValueFinder.default [Sample.quoted_event]
              Sample.lakers_celtics_listings);
    vm_compute; reflexivity.
Defined.

(** C10. Every opportunity the pipeline returns recommends the position
    ['yes']: the one of the home side comes from an edge calculation on the
    ask price of the home listing and the home consensus, the one of the
    away side from the ask price of the away listing and the away
    consensus; and every edge calculation the pipeline enters is entered
    with the position ['yes'], so the branch of the other positions is
    never taken. *)
Theorem pipeline_takes_yes_positions
  (partial_ratio ratio : string -> string -> Q) (self : ValueFinder.t)
  (vegas_events : list VegasEvent.t) (kalshi_markets : list KalshiMarket.t)
  (final : list ValueOpportunity.t) :
  ValueFinder.find_game_winner_value partial_ratio ratio self vegas_events
    kalshi_markets = Ok final ->
  let matches :=
    match_game_winner_markets partial_ratio ratio vegas_events kalshi_markets in
  Forall (fun o =>
            ValueOpportunity.recommended_position o = "yes"
            /\ exists m, In m matches /\ emitted_by self m o) final
  /\ exists emitted calls,
       ValueFinder.scan partial_ratio ratio self vegas_events kalshi_markets
       = Ok (emitted, calls)
       /\ Forall (fun c =>
                    EdgeCalculation.position c = "yes"
                    /\ exists m, In m matches /\ calculated_for self m c) calls.
Proof.
  intros H matches.
  apply find_game_winner_value_inv in H as (emitted & calls & Hscan & ->).
  destruct (evaluate_matches_emits _ _ _ _ Hscan) as [Hem Hcalls]. split.
  - rewrite sorted_key_reverse_perm.
    eapply Forall_impl; [exact Hem |].
    intros o (m & Hin & Ho). split; [| by exists m].
    by apply emitted_by_edge in Ho as [_ Ho].
  - exists emitted, calls. split; [done |].
    eapply Forall_impl; [exact Hcalls |].
    intros c (m & Hin & Hc). split; [| by exists m].
    by eapply calculated_for_position.
Qed.

Lemma pipeline_takes_yes_positions_witness :
  exists final,
    ValueFinder.find_game_winner_value Sample.substring_score
      Sample.equality_score ValueFinder.default [Sample.quoted_event]
      Sample.lakers_celtics_listings = Ok final
    /\ length final = 2%nat
    /\ Forall (fun o => ValueOpportunity.recommended_position o = "yes") final.
Proof.
  eexists. split; [vm_compute; reflexivity |]. split; [reflexivity |].
  eapply Forall_impl;
    [eapply (pipeline_takes_yes_positions Sample.substring_score
               Sample.equality_score ValueFinder.default [Sample.quoted_event]
               Sample.lakers_celtics_listings);
     vm_compute; reflexivity |].
  by intros o [Ho _].
Defined.

(** ** The last word of a normalised name *)

Section LastWord.
Lemma split_go_nonempty cur s : cur <> EmptyString -> Str.split_go cur s <> [].
Proof.
  revert cur. induction s as [| c s IH]; intros cur Hcur; simpl.
  - by destruct cur.
  - destruct (Str.is_space c); [by destruct cur |]. by apply IH.
Qed.

Lemma split_starts_nonspace s : starts_nonspace s -> Str.split s <> [].
Proof.
  destruct s as [| c s]; [done |]. simpl. intros Hc.
  unfold Str.split. simpl. rewrite Hc. by apply split_go_nonempty.
Qed.

Lemma rev_app_starts_nonspace cur acc :
  all_nonspace cur ->
  starts_nonspace acc \/ (acc = EmptyString /\ cur <> EmptyString) ->
  starts_nonspace (String.rev_app cur acc).
Proof.
  revert acc. induction cur as [| c cur IH]; intros acc Hall Hacc; simpl.
  - by destruct Hacc as [H | [_ H]].
  - destruct Hall as [Hc Hall]. apply IH; [done |]. by left.
Qed.

Lemma split_go_words s cur :
  all_nonspace cur -> Forall starts_nonspace (Str.split_go cur s).
Proof.
  revert cur. induction s as [| c s IH]; intros cur Hcur; simpl.
  - destruct cur as [| c' cur']; [constructor |].
    repeat constructor. apply rev_app_starts_nonspace; [done |]. by right.
  - destruct (Str.is_space c) eqn:Ec.
    + destruct cur as [| c' cur']; [by apply IH |].
      constructor; [| by apply IH].
      apply rev_app_starts_nonspace; [done |]. by right.
    + by apply IH.
Qed.

Lemma join_starts_nonspace sep w ws :
  starts_nonspace w -> starts_nonspace (Str.join sep (w :: ws)).
Proof.
  destruct w as [| c w]; [done |]. simpl. by destruct ws.
Qed.

(** The index [-1] is in range where the matcher takes the last word of a
    normalised name: a normalised name that is not empty has a word. *)
Lemma last_word_in_range name :
  normalize_team_name name <> EmptyString ->
  Str.split (normalize_team_name name) <> [].
Proof.
  unfold normalize_team_name.
  destruct (String.eqb name ""); [done |].
  set (normalized := match find _ _ with Some _ => _ | None => _ end).
  pose proof (split_go_words normalized EmptyString I) as Hwords.
  fold (Str.split normalized) in Hwords.
  destruct (Str.split normalized) as [| w ws]; [done |]. intros _.
  apply split_starts_nonspace, join_starts_nonspace.
  by inversion Hwords.
Qed.
End LastWord.

(** ** The event matcher *)

Section Scores.
Local Open Scope Q_scope.

Lemma Qmax_ge_l a b : a <= Qmax a b.
Proof.
  unfold Qmax. destruct (Qltb a b) eqn:E; [| apply Qle_refl].
  apply Qltb_lt in E. by apply Qlt_le_weak.
Qed.

Lemma Qmax_ge_r a b : b <= Qmax a b.
Proof.
  unfold Qmax. destruct (Qltb a b) eqn:E; [apply Qle_refl |].
  by apply Qltb_ge in E.
Qed.

(** The three ways a college game qualifies give a positive confidence. *)
Lemma college_cascade_pos (hin ain : bool) (hs as_ c : Q) :
  (if hin && ain then (true, 100)
   else if Qleb 80 hs && Qleb 80 as_ then (true, (hs + as_) / 2)
   else if (hin || Qleb 85 hs) && (ain || Qleb 85 as_)
        then (true, Qmax hs as_)
        else (false, 0)) = (true, c) ->
  0 < c.
Proof.
  destruct (hin && ain) eqn:Eboth; [by intros [= <-] |].
  destruct (Qleb 80 hs && Qleb 80 as_) eqn:E80.
  { apply andb_true_iff in E80 as [H1 H2]. apply Qleb_le in H1, H2.
    intros [= <-]. apply Qlt_shift_div_l; [done |]. lra. }
  destruct ((hin || Qleb 85 hs) && (ain || Qleb 85 as_)) eqn:E85; [| done].
  intros [= <-].
  pose proof (Qmax_ge_l hs as_). pose proof (Qmax_ge_r hs as_).
  apply andb_true_iff in E85 as [H1 H2].
  destruct hin, ain; simpl in *; try done;
    try (apply Qleb_le in H1); try (apply Qleb_le in H2); lra.
Qed.

(** So does the way another game qualifies, for scores that are not
    negative. *)
Lemma pro_cascade_pos (hin ain : bool) (hs as_ s : Q) :
  0 <= hs -> 0 <= as_ ->
  (if hin && ain || Qleb 60 hs && Qleb 60 as_
   then Some (hs + as_ + (if hin then 50 else 0) + (if ain then 50 else 0))
   else None) = Some s ->
  0 < s.
Proof.
  intros Hh Ha.
  destruct (hin && ain || Qleb 60 hs && Qleb 60 as_) eqn:E; [| done].
  intros [= <-].
  destruct hin, ain; simpl in E; try lra;
    apply andb_true_iff in E as [H1 H2]; apply Qleb_le in H1, H2; lra.
Qed.
End Scores.

Section Grouping.
Lemma games_append_keys kalshi_games game_id market :
  map fst (games_append kalshi_games game_id market)
  = if mem game_id (map fst kalshi_games) then map fst kalshi_games
    else map fst kalshi_games ++ [game_id].
Proof.
  induction kalshi_games as [| [g d] rest IH]; [done |]. simpl.
  rewrite (String.eqb_sym game_id g).
  destruct (String.eqb g game_id); [done |]. simpl. rewrite IH.
  by destruct (mem game_id (map fst rest)).
Qed.

Lemma filter_filter_both {X : Type} (p q r : X -> bool) (l : list X) :
  (forall x, r x = p x && q x) ->
  List.filter p (List.filter q l) = List.filter r l.
Proof.
  intros H. induction l as [| x l IH]; [done |]. simpl. rewrite H.
  destruct (q x); simpl; [| by rewrite andb_false_r].
  rewrite andb_true_r. destruct (p x); by rewrite IH.
Qed.

Lemma mem_app x l y : mem x (l ++ [y]) = mem x l || String.eqb x y.
Proof. unfold mem. rewrite existsb_app. simpl. by rewrite orb_false_r. Qed.

(** The keys of the dict after the loop over the listings, from any dict. *)
Lemma group_loop_keys kalshi_markets kalshi_games :
  map fst
    (fold_left
       (fun kalshi_games market =>
          let game_id := KalshiMarket._game_id market in
          if String.eqb game_id "" then kalshi_games
          else games_append kalshi_games game_id market)
       kalshi_markets kalshi_games)
  = map fst kalshi_games
    ++ List.filter (fun y => negb (mem y (map fst kalshi_games)))
         (first_seen (game_ids kalshi_markets)).
Proof.
  revert kalshi_games.
  induction kalshi_markets as [| m rest IH]; intros games.
  { simpl. by rewrite app_nil_r. }
  cbn [fold_left]. rewrite IH. unfold game_ids. cbn [map List.filter].
  destruct (String.eqb (KalshiMarket._game_id m) "") eqn:E; [done |].
  cbn [negb first_seen List.filter]. fold (game_ids rest).
  rewrite games_append_keys.
  destruct (mem (KalshiMarket._game_id m) (map fst games)) eqn:Em.
  - cbn [negb]. f_equal. symmetry. apply filter_filter_both. intros x.
    destruct (String.eqb x (KalshiMarket._game_id m)) eqn:Ex;
      [| by rewrite andb_true_r].
    apply String.eqb_eq in Ex as ->. by rewrite Em.
  - cbn [negb]. rewrite <- app_assoc. cbn [app]. do 2 f_equal.
    symmetry. apply filter_filter_both. intros x.
    by rewrite mem_app, negb_orb.
Qed.

(** The dict of the games keeps its keys in the order in which the game
    ids first appear among the listings. *)
Lemma group_by_game_id_keys kalshi_markets :
  map fst (group_by_game_id kalshi_markets)
  = first_seen (game_ids kalshi_markets).
Proof.
  unfold group_by_game_id. rewrite group_loop_keys. simpl.
  induction (first_seen (game_ids kalshi_markets)) as [| x l IH]; [done |].
  simpl. by rewrite IH.
Qed.
End Grouping.

Section Matcher.
Variable partial_ratio : string -> string -> Q.
Variable ratio : string -> string -> Q.
Hypothesis partial_ratio_nonneg : forall a b, (0 <= partial_ratio a b)%Q.

(** The score of a qualifying game is positive. *)
Lemma game_score_pos vegas_event game_data score :
  game_score partial_ratio vegas_event game_data = Some score ->
  (0 < score)%Q.
Proof.
  unfold game_score.
  destruct (Str.contains "ncaa" _).
  - destruct (match_college_teams _ _ _ _) as [[] c] eqn:E; [| done].
    intros [= <-]. unfold match_college_teams in E.
    apply college_cascade_pos in E. lra.
  - unfold calculate_team_match_score. cbv zeta.
    apply pro_cascade_pos; apply partial_ratio_nonneg.
Qed.

Lemma has_listing_sides vegas_event game_data home_market away_market :
  game_sides ratio vegas_event game_data = (home_market, away_market) ->
  has_listing ratio vegas_event game_data
  = bool_decide (is_Some home_market) || bool_decide (is_Some away_market).
Proof. unfold has_listing. by intros ->. Qed.

(** A further game that is no candidate above the kept one leaves the
    kept game kept. *)
Lemma kept_extend kalshi_games vegas_event best score entry :
  kept partial_ratio ratio kalshi_games vegas_event best score ->
  (forall s, candidate partial_ratio ratio vegas_event entry.2 s ->
             (s <= score)%Q) ->
  kept partial_ratio ratio (kalshi_games ++ [entry]) vegas_event best score.
Proof.
  intros (before & g & after & -> & Hc & Hs & Hb & Ha) Hentry.
  exists before, g, (after ++ [entry]).
  rewrite <- app_assoc. do 4 (split; [done |]).
  intros e s Hin Hcand. apply in_app_or in Hin as [Hin | [<- | []]].
  - by eapply Ha.
  - by apply Hentry.
Qed.

(** No candidate among the games seen scores above the kept one. *)
Lemma kept_bound kalshi_games vegas_event best score entry s :
  kept partial_ratio ratio kalshi_games vegas_event best score ->
  In entry kalshi_games ->
  candidate partial_ratio ratio vegas_event entry.2 s ->
  (s <= score)%Q.
Proof.
  intros (before & g & after & -> & [Hg _] & _ & Hb & Ha) Hin Hcand.
  apply in_app_or in Hin as [Hin | [<- | Hin]].
  - apply Qlt_le_weak. by eapply Hb.
  - destruct Hcand as [Hs' _]. simpl in Hs'. rewrite Hg in Hs'.
    injection Hs' as <-. apply Qle_refl.
  - by eapply Ha.
Qed.

(** The state of the loop over the games, after any number of them. *)
Lemma best_game_state kalshi_games vegas_event :
  match best_game partial_ratio ratio kalshi_games vegas_event with
  | (Some best, score) =>
      kept partial_ratio ratio kalshi_games vegas_event best score
  | (None, score) =>
      score = 0%Q
      /\ forall entry s, In entry kalshi_games ->
           ~ candidate partial_ratio ratio vegas_event entry.2 s
  end.
Proof.
  unfold best_game.
  induction kalshi_games as [| [game_id game_data] games IH] using rev_ind.
  { simpl. split; [done |]. by intros entry s []. }
  rewrite fold_left_app. cbn [fold_left].
  destruct (fold_left _ games _) as [best score].
  (* the state stays as it is when the game is no candidate above it *)
  assert ((forall s, candidate partial_ratio ratio vegas_event game_data s ->
             (s <= score)%Q) ->
          match (best, score) with
          | (Some best, score) =>
              kept partial_ratio ratio (games ++ [(game_id, game_data)])
                vegas_event best score
          | (None, score) =>
              score = 0%Q
              /\ forall entry s, In entry (games ++ [(game_id, game_data)]) ->
                   ~ candidate partial_ratio ratio vegas_event entry.2 s
          end) as Hstay.
  { intros Hle. destruct best as [best |]; [by apply kept_extend |].
    destruct IH as [-> IH]. split; [done |].
    intros entry s Hin Hcand. apply in_app_or in Hin as [Hin | [<- | []]].
    - by eapply IH.
    - pose proof (Hle s Hcand) as Hs. destruct Hcand as [Hsc _].
      apply game_score_pos in Hsc. simpl in Hs. lra. }
  unfold consider_game at 1.
  destruct (game_score partial_ratio vegas_event game_data)
    as [combined |] eqn:Escore.
  2: { apply Hstay. intros s [Hs _]. congruence. }
  destruct (Qltb score combined) eqn:Elt.
  2: { apply Hstay. intros s [Hs _]. apply Qltb_ge in Elt. congruence. }
  destruct (game_sides ratio vegas_event game_data)
    as [home_market away_market] eqn:Esides.
  pose proof (has_listing_sides _ _ _ _ Esides) as Hl.
  destruct (bool_decide (is_Some home_market)
            || bool_decide (is_Some away_market)) eqn:Esome.
  2: { apply Hstay. intros s [_ Hs]. congruence. }
  (* a new best game *)
  apply Qltb_lt in Elt.
  exists games, game_data, []. split; [done |].
  split; [by split |]. split; [done |].
  split; [| by intros entry s []].
  intros entry s Hin Hcand. destruct best as [best |].
  - eapply Qle_lt_trans; [by eapply kept_bound | done].
  - destruct IH as [_ IH]. by destruct (IH entry s Hin).
Qed.

Lemma match_event_some kalshi_games vegas_event :
  has_candidate partial_ratio ratio kalshi_games vegas_event
  = bool_decide (is_Some (match_event partial_ratio ratio kalshi_games vegas_event)).
Proof.
  unfold match_event.
  pose proof (best_game_state kalshi_games vegas_event) as H.
  destruct (best_game _ _ _ _) as [[best |] score]; simpl.
  - destruct H as (before & g & after & -> & [Hs Hl] & _).
    unfold has_candidate. rewrite existsb_app. cbn [existsb]. simpl.
    rewrite Hs, Hl. rewrite bool_decide_eq_true_2 by by eexists.
    simpl. by rewrite orb_true_r.
  - destruct H as [_ H]. apply not_true_iff_false. intros Hex.
    apply existsb_exists in Hex as (entry & Hin & Hc).
    apply andb_true_iff in Hc as [Hs Hl].
    apply bool_decide_eq_true in Hs as [s Hs].
    by apply (H entry s Hin).
Qed.

Lemma matched_events kalshi_games vegas_events :
  map Match.vegas_event
    (omap (match_event partial_ratio ratio kalshi_games) vegas_events)
  = List.filter (has_candidate partial_ratio ratio kalshi_games) vegas_events.
Proof.
  induction vegas_events as [| ev evs IH]; [done |].
  change (omap ?f (ev :: evs))
    with (match f ev with Some y => y :: omap f evs | None => omap f evs end).
  cbn [List.filter]. rewrite match_event_some.
  destruct (match_event _ _ _ ev) as [m |] eqn:E.
  - rewrite bool_decide_eq_true_2 by by eexists.
    cbn [map]. rewrite IH. f_equal. by eapply match_event_event.
  - rewrite bool_decide_eq_false_2 by (by intros [? ?]). done.
Qed.

Lemma match_event_kept kalshi_games vegas_event m :
  match_event partial_ratio ratio kalshi_games vegas_event = Some m ->
  exists best score,
    kept partial_ratio ratio kalshi_games vegas_event best score
    /\ m = Match.mk vegas_event (BestMatch.home_market best)
             (BestMatch.away_market best) (BestMatch.game_id best).
Proof.
  unfold match_event.
  pose proof (best_game_state kalshi_games vegas_event) as H.
  destruct (best_game _ _ _ _) as [[best |] score]; simpl; [| done].
  intros [= <-]. by exists best, score.
Qed.
End Matcher.

(** C8, as amended.  The listings are grouped by game id, the groups in the
    order in which the ids first appear.  For every event the matcher keeps
    at most one game: a candidate, that is a qualifying game with a listing
    assigned to a side of the event, which no candidate scores above, the
    first seen of the candidates of its score.  The events of the returned
    matches are the events that have a candidate, in their order: an event
    without one is absent, and nothing is raised. *)
Theorem matcher_keeps_best_candidate
  (partial_ratio ratio : string -> string -> Q)
  (partial_ratio_nonneg : forall a b, (0 <= partial_ratio a b)%Q)
  (vegas_events : list VegasEvent.t) (kalshi_markets : list KalshiMarket.t) :
  let kalshi_games := group_by_game_id kalshi_markets in
  let matches :=
    match_game_winner_markets partial_ratio ratio vegas_events kalshi_markets in
  map fst kalshi_games = first_seen (game_ids kalshi_markets)
  /\ map Match.vegas_event matches
     = List.filter (has_candidate partial_ratio ratio kalshi_games) vegas_events
  /\ Forall (fun m =>
               exists best score,
                 kept partial_ratio ratio kalshi_games (Match.vegas_event m)
                   best score
                 /\ Match.game_id m = BestMatch.game_id best
                 /\ Match.kalshi_home_market m = BestMatch.home_market best
                 /\ Match.kalshi_away_market m = BestMatch.away_market best)
       matches.
Proof.
  intros games matches. split; [apply group_by_game_id_keys |].
  split; [by apply matched_events |].
  apply List.Forall_forall. intros m Hin.
  subst matches. unfold match_game_winner_markets in Hin. fold games in Hin.
  apply list_elem_of_In, list_elem_of_omap in Hin as (ev & _ & Hev).
  pose proof (match_event_event _ _ _ _ _ Hev) as Hm.
  apply match_event_kept in Hev as (best & score & Hkept & ->); [| done].
  by exists best, score.
Qed.

Lemma matcher_keeps_best_candidate_witness :
  map Match.vegas_event
    (match_game_winner_markets Sample.substring_score Sample.equality_score
       [Sample.quoted_event] Sample.two_games)
  = List.filter
      (has_candidate Sample.substring_score Sample.equality_score
         (group_by_game_id Sample.two_games))
      [Sample.quoted_event].
Proof.
  apply (matcher_keeps_best_candidate Sample.substring_score
           Sample.equality_score).
  intros a b. unfold Sample.substring_score.
  destruct (Str.contains a b); discriminate.
Defined.

(** C8, as stated, fails on an event and two games.  The first game names
    both teams in its title: it qualifies with the score 100 + 100 + 50 + 50,
    the highest there is, and none of its listings carries the code of a
    team of the event.  The matcher passes it over and keeps the second
    game, which qualifies by the codes in its title: the event is in the
    returned list, matched with a game that is not the highest-scoring
    qualifying one. *)
Lemma best_game_without_listing_is_passed_over :
  (exists game_data,
     best_qualifying Sample.substring_score
       (group_by_game_id Sample.two_games) Sample.quoted_event
     = Some ("26JAN01LAKCEL", game_data, 300%Q)
     /\ game_sides Sample.equality_score Sample.quoted_event game_data
        = (None, None))
  /\ map (fun m => (VegasEvent.id (Match.vegas_event m), Match.game_id m))
       (match_game_winner_markets Sample.substring_score Sample.equality_score
          [Sample.quoted_event] Sample.two_games)
     = [("evt-1", "26JAN01LALBOS")].
Proof.
  split; [eexists; split |]; vm_compute; reflexivity.
Qed.

Section Groups.
Lemma mem_In x l : mem x l = true <-> In x l.
Proof.
  unfold mem. rewrite existsb_exists. split.
  - intros (y & Hy & E). by apply String.eqb_eq in E as ->.
  - intros H. exists x. split; [done |]. apply String.eqb_refl.
Qed.

Lemma first_seen_In x l : In x (first_seen l) <-> In x l.
Proof.
  induction l as [| y l IH]; [done |]. simpl.
  rewrite filter_In, IH. split.
  - intros [-> | [H _]]; [by left | by right].
  - intros [-> | H]; [by left |].
    destruct (String.eqb x y) eqn:E.
    + apply String.eqb_eq in E as ->. by left.
    + right. by split.
Qed.

Lemma first_seen_NoDup l : List.NoDup (first_seen l).
Proof.
  induction l as [| y l IH]; simpl; [constructor |].
  constructor.
  - rewrite filter_In. intros [_ H]. by rewrite String.eqb_refl in H.
  - by apply List.NoDup_filter.
Qed.

Lemma first_seen_snoc l x :
  first_seen (l ++ [x])
  = if mem x l then first_seen l else first_seen l ++ [x].
Proof.
  induction l as [| y l IH]; [done |]. cbn [app first_seen]. rewrite IH.
  unfold mem. cbn [existsb]. fold (mem x l).
  destruct (String.eqb x y) eqn:E.
  - apply String.eqb_eq in E as ->. cbn [orb].
    destruct (mem y l); [done |].
    rewrite List.filter_app. simpl. rewrite String.eqb_refl. simpl.
    by rewrite app_nil_r.
  - cbn [orb]. destruct (mem x l); [done |].
    rewrite List.filter_app. simpl. rewrite E. done.
Qed.

Lemma game_ids_snoc mks m :
  game_ids (mks ++ [m])
  = if String.eqb (KalshiMarket._game_id m) "" then game_ids mks
    else game_ids mks ++ [KalshiMarket._game_id m].
Proof.
  unfold game_ids. rewrite map_app, List.filter_app. simpl.
  destruct (String.eqb _ ""); simpl; [by rewrite app_nil_r | done].
Qed.

Lemma game_ids_nonempty mks g : In g (game_ids mks) -> g <> "".
Proof.
  unfold game_ids. rewrite filter_In. intros [_ H] ->. done.
Qed.

Lemma game_ids_listing mks g :
  In g (game_ids mks) -> List.filter (of_game g) mks <> [].
Proof.
  unfold game_ids. rewrite filter_In, in_map_iff.
  intros [(m & <- & Hm) _] E.
  assert (In m (List.filter (of_game (KalshiMarket._game_id m)) mks)) as H.
  { apply filter_In. split; [done |]. apply String.eqb_refl. }
  by rewrite E in H.
Qed.

(** Appending a listing of another game leaves the game as it is. *)
Lemma game_of_other mks m g :
  KalshiMarket._game_id m <> g -> game_of (mks ++ [m]) g = game_of mks g.
Proof.
  intros H. unfold game_of. rewrite List.filter_app. cbn [List.filter].
  assert (of_game g m = false) as -> by by apply String.eqb_neq.
  by rewrite app_nil_r.
Qed.

Lemma games_append_new F keys g m :
  mem g keys = false ->
  games_append (map (fun k => (k, F k)) keys) g m
  = map (fun k => (k, F k)) keys
    ++ [(g, KalshiGame.mk [m] (KalshiMarket.title m) (KalshiMarket._sport m))].
Proof.
  induction keys as [| k keys IH]; [done |]. unfold mem. cbn [existsb].
  fold (mem g keys). intros H. apply orb_false_iff in H as [Hk H].
  cbn [map games_append]. rewrite String.eqb_sym, Hk. cbn [app]. f_equal.
  by apply IH.
Qed.

Lemma games_append_old F G keys g m :
  List.NoDup keys -> In g keys ->
  (forall k, k <> g -> G k = F k) ->
  G g = KalshiGame.mk (KalshiGame.markets (F g) ++ [m])
          (KalshiGame.title (F g)) (KalshiGame.sport (F g)) ->
  games_append (map (fun k => (k, F k)) keys) g m
  = map (fun k => (k, G k)) keys.
Proof.
  intros Hnd Hin Hother Hg.
  induction keys as [| k keys IH]; [done |].
  apply List.NoDup_cons_iff in Hnd as [Hk Hnd].
  cbn [map games_append].
  destruct (String.eqb k g) eqn:E.
  - apply String.eqb_eq in E as ->. rewrite Hg. f_equal.
    apply map_ext_in. intros k Hk'. rewrite Hother; [done |].
    intros ->. done.
  - apply String.eqb_neq in E. rewrite Hother by done. f_equal.
    apply IH; [done |]. by destruct Hin as [-> | Hin].
Qed.

Lemma group_by_game_id_snoc mks m :
  group_by_game_id (mks ++ [m])
  = if String.eqb (KalshiMarket._game_id m) "" then group_by_game_id mks
    else games_append (group_by_game_id mks) (KalshiMarket._game_id m) m.
Proof. unfold group_by_game_id. by rewrite fold_left_app. Qed.

Lemma group_by_game_id_games kalshi_markets :
  group_by_game_id kalshi_markets
  = map (fun game_id => (game_id, game_of kalshi_markets game_id))
      (first_seen (game_ids kalshi_markets)).
Proof.
  induction kalshi_markets as [| m mks IH] using rev_ind; [done |].
  rewrite group_by_game_id_snoc, game_ids_snoc, IH.
  destruct (String.eqb (KalshiMarket._game_id m) "") eqn:E.
  { apply map_ext_in. intros g Hg. f_equal. symmetry. apply game_of_other.
    apply first_seen_In, game_ids_nonempty in Hg.
    apply String.eqb_eq in E. congruence. }
  rewrite first_seen_snoc.
  destruct (mem (KalshiMarket._game_id m) (game_ids mks)) eqn:Em.
  - apply games_append_old.
    + apply first_seen_NoDup.
    + by apply first_seen_In, mem_In.
    + intros k Hk. apply game_of_other. congruence.
    + apply mem_In, game_ids_listing in Em.
      unfold game_of. rewrite List.filter_app. cbn [List.filter].
      assert (of_game (KalshiMarket._game_id m) m = true) as ->
        by apply String.eqb_refl.
      destruct (List.filter _ mks) as [| m0 ms]; [done |]. done.
  - assert (mem (KalshiMarket._game_id m) (first_seen (game_ids mks)) = false)
      as Em'.
    { apply not_true_iff_false. rewrite mem_In, first_seen_In, <- mem_In.
      by rewrite Em. }
    rewrite games_append_new by done. rewrite map_app. simpl. f_equal.
    + apply map_ext_in. intros g Hg. f_equal. symmetry. apply game_of_other.
      intros <-. apply mem_In in Hg. congruence.
    + do 2 f_equal. unfold game_of. rewrite List.filter_app.
      cbn [List.filter].
      assert (of_game (KalshiMarket._game_id m) m = true) as ->
        by apply String.eqb_refl.
      assert (List.filter (of_game (KalshiMarket._game_id m)) mks = []) as ->;
        [| done].
      destruct (List.filter _ mks) as [| m0 ms] eqn:Ef; [done |].
      assert (In m0 (List.filter (of_game (KalshiMarket._game_id m)) mks)) as H
        by (rewrite Ef; by left).
      apply filter_In in H as [Hin H]. apply String.eqb_eq in H.
      assert (In (KalshiMarket._game_id m) (game_ids mks)) as Hg.
      { unfold game_ids. apply filter_In. split.
        - apply in_map_iff. by exists m0.
        - by rewrite E. }
      apply mem_In in Hg. congruence.
Qed.
End Groups.

(** X1. The listings are grouped without loss: the dict of the games holds, for
    every game id in the order of first appearance, the listings that carry
    the id, in their order, under the title and the sport of the first of
    them; a listing with an id is in the group of its id, and no group is
    empty or has the empty id. *)
Theorem listings_grouped_by_game (kalshi_markets : list KalshiMarket.t) :
  group_by_game_id kalshi_markets
  = map (fun game_id => (game_id, game_of kalshi_markets game_id))
      (first_seen (game_ids kalshi_markets))
  /\ (forall market,
        In market kalshi_markets -> KalshiMarket._game_id market <> "" ->
        In market
          (KalshiGame.markets
             (game_of kalshi_markets (KalshiMarket._game_id market)))
        /\ In (KalshiMarket._game_id market,
               game_of kalshi_markets (KalshiMarket._game_id market))
             (group_by_game_id kalshi_markets))
  /\ Forall (fun entry => entry.1 <> "" /\ KalshiGame.markets entry.2 <> [])
       (group_by_game_id kalshi_markets).
Proof.
  split; [apply group_by_game_id_games |]. split.
  - intros m Hin Hid. split.
    + apply filter_In. split; [done |]. apply String.eqb_refl.
    + rewrite group_by_game_id_games. apply in_map_iff.
      exists (KalshiMarket._game_id m). split; [done |].
      apply first_seen_In. unfold game_ids. apply filter_In. split.
      * by apply in_map.
      * apply negb_true_iff. by apply String.eqb_neq.
  - rewrite group_by_game_id_games. apply List.Forall_forall.
    intros entry Hin. apply in_map_iff in Hin as (g & <- & Hg).
    rewrite first_seen_In in Hg. simpl. split.
    + by eapply game_ids_nonempty.
    + by apply game_ids_listing.
Qed.

Section Sides.
Variable partial_ratio : string -> string -> Q.
Variable ratio : string -> string -> Q.

Lemma assign_pro_last home_abbrev away_abbrev markets :
  assign_pro home_abbrev away_abbrev markets
  = (last (List.filter (has_code home_abbrev) markets),
     last (List.filter
             (fun m => negb (has_code home_abbrev m) && has_code away_abbrev m)
             markets)).
Proof.
  unfold assign_pro.
  induction markets as [| m ms IH] using rev_ind; [done |].
  rewrite fold_left_app, IH, !List.filter_app. cbn [fold_left List.filter].
  unfold has_code.
  destruct (String.eqb _ home_abbrev); cbn [negb andb].
  - by rewrite last_snoc, app_nil_r.
  - destruct (String.eqb _ away_abbrev).
    + by rewrite last_snoc, app_nil_r.
    + by rewrite !app_nil_r.
Qed.

Lemma last_filter_In {X : Type} (p : X -> bool) (l : list X) x :
  last (List.filter p l) = Some x -> In x l /\ p x = true.
Proof.
  intros H. apply last_Some in H as (l' & H).
  apply filter_In. rewrite H. apply in_or_app. right. by left.
Qed.

Lemma assign_college_In home_abbrev away_abbrev home_school away_school
    markets market :
  (assign_college ratio home_abbrev away_abbrev home_school away_school
     markets).1 = Some market
  \/ (assign_college ratio home_abbrev away_abbrev home_school away_school
        markets).2 = Some market ->
  In market markets.
Proof.
  unfold assign_college.
  induction markets as [| m ms IH] using rev_ind; [by intros [] |].
  rewrite fold_left_app. cbn [fold_left].
  destruct (fold_left _ ms _) as [hm am]. simpl in IH.
  intros H. apply in_or_app.
  assert (hm = Some market \/ am = Some market \/ m = market) as [Hh | [Ha | ->]].
  { repeat match type of H with
           | context [if ?b then _ else _] => destruct b
           end; simpl in H; destruct H as [H | H]; try injection H as <-;
      by eauto. }
  - left. apply IH. by left.
  - left. apply IH. by right.
  - right. by left.
Qed.

Lemma game_sides_In vegas_event game_data market :
  (game_sides ratio vegas_event game_data).1 = Some market
  \/ (game_sides ratio vegas_event game_data).2 = Some market ->
  In market (KalshiGame.markets game_data).
Proof.
  unfold game_sides. destruct (Str.contains "ncaa" _).
  - apply assign_college_In.
  - rewrite assign_pro_last. simpl.
    intros [H | H]; by apply last_filter_In in H as [H _].
Qed.

(** The game the loop over the games holds is one of the games, with the
    listings assigned to the sides of the event, one at least. *)
Lemma best_game_entry kalshi_games vegas_event best :
  (best_game partial_ratio ratio kalshi_games vegas_event).1 = Some best ->
  exists game_data,
    In (BestMatch.game_id best, game_data) kalshi_games
    /\ (BestMatch.home_market best, BestMatch.away_market best)
       = game_sides ratio vegas_event game_data
    /\ (is_Some (BestMatch.home_market best)
        \/ is_Some (BestMatch.away_market best)).
Proof.
  unfold best_game.
  induction kalshi_games as [| [game_id game_data] games IH] using rev_ind;
    [done |].
  rewrite fold_left_app. cbn [fold_left].
  destruct (fold_left _ games _) as [held score]. simpl in IH.
  assert (held = Some best ->
          exists game_data0,
            In (BestMatch.game_id best, game_data0)
              (games ++ [(game_id, game_data)])
            /\ (BestMatch.home_market best, BestMatch.away_market best)
               = game_sides ratio vegas_event game_data0
            /\ (is_Some (BestMatch.home_market best)
                \/ is_Some (BestMatch.away_market best))) as Hstay.
  { intros H. destruct (IH H) as (gd & Hin & Hrest).
    exists gd. split; [| done]. apply in_or_app. by left. }
  unfold consider_game.
  destruct (game_score _ _ _) as [combined |]; [| exact Hstay].
  destruct (Qltb score combined); [| exact Hstay].
  destruct (game_sides ratio vegas_event game_data) as [hm am] eqn:Es.
  destruct (bool_decide (is_Some hm) || bool_decide (is_Some am)) eqn:E;
    [| exact Hstay].
  simpl. intros [= <-]. exists game_data. simpl.
  split; [apply in_or_app; right; by left |]. split; [done |].
  apply orb_true_iff in E as [E | E]; apply bool_decide_eq_true in E; eauto.
Qed.
End Sides.

(** Where the matches come from. *)
Lemma matches_from_input
  (partial_ratio ratio : string -> string -> Q)
  (vegas_events : list VegasEvent.t) (kalshi_markets : list KalshiMarket.t) :
  Forall (fun m =>
            In (Match.vegas_event m) vegas_events
            /\ Match.game_id m <> ""
            /\ (exists market, listing_of m market)
            /\ forall market, listing_of m market ->
                 In market kalshi_markets
                 /\ KalshiMarket._game_id market = Match.game_id m)
    (match_game_winner_markets partial_ratio ratio vegas_events kalshi_markets).
Proof.
  apply List.Forall_forall. intros m Hin.
  unfold match_game_winner_markets in Hin.
  apply list_elem_of_In, list_elem_of_omap in Hin as (ev & Hev & Hm).
  apply list_elem_of_In in Hev.
  pose proof (match_event_event _ _ _ _ _ Hm) as Hevent.
  unfold match_event in Hm.
  destruct (best_game _ _ _ _).1 as [best |] eqn:Ebest; [| done].
  injection Hm as <-. simpl in *.
  apply best_game_entry in Ebest as (gd & Hgd & Hsides & Hsome).
  rewrite group_by_game_id_games in Hgd.
  apply in_map_iff in Hgd as (g & [= Hgid <-] & Hg).
  rewrite first_seen_In in Hg. rewrite <- Hgid.
  split; [done |]. split; [by eapply game_ids_nonempty |]. split.
  { unfold listing_of. simpl.
    destruct Hsome as [[l Hl] | [l Hl]]; exists l; eauto. }
  intros l Hl.
  assert (In l (KalshiGame.markets (game_of kalshi_markets g))) as Hl'.
  { apply (game_sides_In ratio ev). rewrite <- Hsides. exact Hl. }
  apply filter_In in Hl' as [Hl1 Hl2]. split; [done |].
  by apply String.eqb_eq in Hl2.
Qed.

(** X2. Every match the matcher returns is for an event of the input and a game
    of the listings: its game id is not empty, it has a listing on one side
    at least, and each of its listings is a listing of the input that
    carries the game id of the match. *)
Theorem matched_listings_belong_to_the_game
  (partial_ratio ratio : string -> string -> Q)
  (vegas_events : list VegasEvent.t) (kalshi_markets : list KalshiMarket.t) :
  Forall (fun m =>
            In (Match.vegas_event m) vegas_events
            /\ Match.game_id m <> ""
            /\ (exists market, listing_of m market)
            /\ forall market, listing_of m market ->
                 In market kalshi_markets
                 /\ KalshiMarket._game_id market = Match.game_id m)
    (match_game_winner_markets partial_ratio ratio vegas_events kalshi_markets).
Proof. apply matches_from_input. Qed.

(** X3. For an event that is not a college game, the sides of a game are decided
    by the codes alone: the home side gets the last listing that carries the
    abbreviation of the home team, the away side the last listing that
    carries the abbreviation of the away team and not that of the home team.
    So the away side stays empty when the two abbreviations are the same. *)
Theorem sides_by_team_code (ratio : string -> string -> Q)
  (vegas_event : VegasEvent.t) (game_data : KalshiGame.t) :
  is_college vegas_event = false ->
  let home_abbrev := get_team_abbrev (VegasEvent.home_team vegas_event) in
  let away_abbrev := get_team_abbrev (VegasEvent.away_team vegas_event) in
  game_sides ratio vegas_event game_data
  = (last (List.filter (has_code home_abbrev) (KalshiGame.markets game_data)),
     last (List.filter
             (fun m => negb (has_code home_abbrev m) && has_code away_abbrev m)
             (KalshiGame.markets game_data)))
  /\ (home_abbrev = away_abbrev ->
      (game_sides ratio vegas_event game_data).2 = None).
Proof.
  intros Hc home_abbrev away_abbrev. unfold game_sides.
  unfold is_college in Hc. rewrite Hc, assign_pro_last.
  split; [done |]. fold home_abbrev away_abbrev. intros <-. simpl.
  assert (List.filter
            (fun m => negb (has_code home_abbrev m) && has_code home_abbrev m)
            (KalshiGame.markets game_data) = []) as ->; [| done].
  induction (KalshiGame.markets game_data) as [| m ms IH]; [done |].
  simpl. by destruct (has_code home_abbrev m).
Qed.

Lemma sides_by_team_code_witness :
  game_sides Sample.equality_score Sample.quoted_event
    (game_of Sample.lakers_celtics_listings "26JAN01LALBOS")
  = (Some (KalshiMarket.mk "KXNBAGAME-26JAN01LALBOS-LAL"
             "Los Angeles Lakers vs Boston Celtics" 45 "26JAN01LALBOS" "LAL"
             "nba"),
     Some (KalshiMarket.mk "KXNBAGAME-26JAN01LALBOS-BOS"
             "Los Angeles Lakers vs Boston Celtics" 25 "26JAN01LALBOS" "BOS"
             "nba")).
Proof.
  destruct (sides_by_team_code Sample.equality_score Sample.quoted_event
              (game_of Sample.lakers_celtics_listings "26JAN01LALBOS"))
    as [H _]; [reflexivity |].
  rewrite H. vm_compute. reflexivity.
Defined.

(** ** The tickers *)

Section Tickers.
Lemma split_on_go_piece cur piece rest :
  hyphen_free piece = true ->
  Str.split_on_go "-" cur (String.app piece (String "-" rest))
  = String.rev_app cur piece :: Str.split_on_go "-" EmptyString rest.
Proof.
  revert cur. induction piece as [| c piece IH]; intros cur H; [done |].
  simpl in H. apply andb_true_iff in H as [Hc H]. apply negb_true_iff in Hc.
  simpl. rewrite Hc. by rewrite IH.
Qed.

Lemma split_on_go_last cur piece :
  hyphen_free piece = true ->
  Str.split_on_go "-" cur piece = [String.rev_app cur piece].
Proof.
  revert cur. induction piece as [| c piece IH]; intros cur H; [done |].
  simpl in H. apply andb_true_iff in H as [Hc H]. apply negb_true_iff in Hc.
  simpl. rewrite Hc. by rewrite IH.
Qed.

(** Joining pieces without [-] by [-] and splitting on [-] gives the
    pieces back. *)
Lemma split_on_join piece pieces :
  forallb hyphen_free (piece :: pieces) = true ->
  Str.split_on "-" (Str.join "-" (piece :: pieces)) = piece :: pieces.
Proof.
  revert piece. induction pieces as [| p ps IH]; intros piece H.
  - simpl in H. rewrite andb_true_r in H. by apply split_on_go_last.
  - cbn [forallb] in H. apply andb_true_iff in H as [Hp H].
    unfold Str.split_on, Str.join. cbn [String.concat].
    change (String.app "-" ?s) with (String "-" s).
    rewrite split_on_go_piece by done. f_equal. by apply IH.
Qed.
End Tickers.

(** X4. A ticker made of a series, a game id, any further pieces and a team
    code, joined by [-], none of them holding a [-], is read back piece by
    piece: the listing gets the second piece as its game id, the last one as
    its team code, and the sport in lower case.  A ticker of fewer than three
    pieces leaves the listing without game id, team code and sport. *)
Theorem ticker_read_back (sport title : string) (yes_ask : Z)
  (pieces : list string) :
  pieces <> [] -> forallb hyphen_free pieces = true ->
  let ticker := Str.join "-" pieces in
  KalshiClient.annotate sport (ApiMarket.mk ticker title yes_ask)
  = if (3 <=? length pieces)%nat then
      KalshiMarket.mk ticker title yes_ask (nth 1 pieces "")
        (List.last pieces "") (Str.lower sport)
    else KalshiMarket.mk ticker title yes_ask "" "" "".
Proof.
  intros Hne Hfree ticker. unfold KalshiClient.annotate.
  cbn [ApiMarket.ticker ApiMarket.title ApiMarket.yes_ask]. cbv zeta.
  destruct pieces as [| piece pieces]; [done |].
  subst ticker. rewrite split_on_join by done.
  destruct (3 <=? length (piece :: pieces))%nat eqn:E; [| done].
  apply Nat.leb_le in E.
  destruct (1 <? length (piece :: pieces))%nat eqn:E1; [done |].
  apply Nat.ltb_ge in E1. lia.
Qed.

Lemma ticker_read_back_witness :
  KalshiClient.annotate "NBA"
    (ApiMarket.mk "KXNBAGAME-26JAN01LALBOS-LAL" "Lakers vs Celtics" 45)
  = KalshiMarket.mk "KXNBAGAME-26JAN01LALBOS-LAL" "Lakers vs Celtics" 45
      "26JAN01LALBOS" "LAL" "nba"
  /\ KalshiClient.annotate "NBA"
       (ApiMarket.mk "KXNBAGAME-26JAN01LALBOS" "Lakers vs Celtics" 45)
     = KalshiMarket.mk "KXNBAGAME-26JAN01LALBOS" "Lakers vs Celtics" 45
         "" "" "".
Proof.
  split.
  - apply (ticker_read_back "NBA" "Lakers vs Celtics" 45
             ["KXNBAGAME"; "26JAN01LALBOS"; "LAL"]); [discriminate | reflexivity].
  - apply (ticker_read_back "NBA" "Lakers vs Celtics" 45
             ["KXNBAGAME"; "26JAN01LALBOS"]); [discriminate | reflexivity].
Defined.

(** X5. A listing whose ticker has fewer than three pieces is in no match,
    whatever the events and the other listings are. *)
Theorem short_ticker_is_never_matched
  (partial_ratio ratio : string -> string -> Q)
  (vegas_events : list VegasEvent.t) (kalshi_markets : list KalshiMarket.t)
  (sport : string) (market : ApiMarket.t) :
  (length (Str.split_on "-" (ApiMarket.ticker market)) < 3)%nat ->
  Forall (fun m =>
            Match.kalshi_home_market m <> Some (KalshiClient.annotate sport market)
            /\ Match.kalshi_away_market m
               <> Some (KalshiClient.annotate sport market))
    (match_game_winner_markets partial_ratio ratio vegas_events kalshi_markets).
Proof.
  intros Hshort.
  assert (KalshiMarket._game_id (KalshiClient.annotate sport market) = "") as Hid.
  { unfold KalshiClient.annotate. cbv zeta.
    destruct (Nat.leb_spec 3 (length (Str.split_on "-" (ApiMarket.ticker market))));
      [lia | done]. }
  pose proof (matches_from_input partial_ratio ratio
                vegas_events kalshi_markets) as H.
  eapply Forall_impl; [exact H |]. clear H.
  intros m (_ & Hg & _ & Hl).
  split; intros E.
  - destruct (Hl _ (or_introl E)) as [_ Hl']. congruence.
  - destruct (Hl _ (or_intror E)) as [_ Hl']. congruence.
Qed.

Lemma short_ticker_is_never_matched_witness :
  Forall (fun m =>
            Match.kalshi_home_market m
            <> Some (KalshiClient.annotate "nba"
                       (ApiMarket.mk "KXNBAGAME-LAL"
                          "Los Angeles Lakers vs Boston Celtics" 45))
            /\ Match.kalshi_away_market m
               <> Some (KalshiClient.annotate "nba"
                          (ApiMarket.mk "KXNBAGAME-LAL"
                             "Los Angeles Lakers vs Boston Celtics" 45)))
    (match_game_winner_markets Sample.substring_score Sample.equality_score
       [Sample.quoted_event]
       (KalshiClient.annotate "nba"
          (ApiMarket.mk "KXNBAGAME-LAL"
             "Los Angeles Lakers vs Boston Celtics" 45)
        :: Sample.lakers_celtics_listings)).
Proof.
  apply (short_ticker_is_never_matched Sample.substring_score
           Sample.equality_score).
  vm_compute. lia.
Defined.

(** ** What the matcher does not look at *)

Section Unknown.
Lemma contains_empty s : Str.contains "" s = true.
Proof. by destruct s. Qed.
End Unknown.

(** X6. For an event that is not a college game and whose home team has no
    abbreviation in the tables, the home team counts as found in the title
    of every game: a game whose title has the away team qualifies for the
    event, with the bonus of both teams, whatever its title says of the home
    team. *)
Theorem unknown_home_team_is_found_in_every_title
  (partial_ratio : string -> string -> Q)
  (vegas_event : VegasEvent.t) (game_data : KalshiGame.t) :
  is_college vegas_event = false ->
  get_team_abbrev (VegasEvent.home_team vegas_event) = "" ->
  team_in_title (VegasEvent.home_team vegas_event) (KalshiGame.title game_data)
  = true
  /\ (team_in_title (VegasEvent.away_team vegas_event)
        (KalshiGame.title game_data) = true ->
      game_score partial_ratio vegas_event game_data
      = Some (calculate_team_match_score partial_ratio
                (VegasEvent.home_team vegas_event) (KalshiGame.title game_data)
              + calculate_team_match_score partial_ratio
                  (VegasEvent.away_team vegas_event) (KalshiGame.title game_data)
              + 50 + 50)%Q).
Proof.
  intros Hc Habbrev.
  assert (team_in_title (VegasEvent.home_team vegas_event)
            (KalshiGame.title game_data) = true) as Hhome.
  { unfold team_in_title. cbv zeta. rewrite Habbrev, contains_empty.
    by rewrite orb_true_r. }
  split; [done |]. intros Haway.
  unfold game_score. unfold is_college in Hc. rewrite Hc. cbv zeta.
  unfold team_in_title in Hhome, Haway. cbv zeta in Hhome, Haway.
  by rewrite Hhome, Haway.
Qed.

Lemma unknown_home_team_is_found_in_every_title_witness :
  game_score Sample.substring_score
    (VegasEvent.mk "evt-2" "icehockey_nhl" "Utah Mammoth" "Boston Bruins" [])
    (KalshiGame.mk [] "Toronto Maple Leafs vs Boston Bruins" "nhl")
  = Some (0 + 100 + 50 + 50)%Q.
Proof.
  apply (unknown_home_team_is_found_in_every_title Sample.substring_score
           (VegasEvent.mk "evt-2" "icehockey_nhl" "Utah Mammoth" "Boston Bruins" [])
           (KalshiGame.mk [] "Toronto Maple Leafs vs Boston Bruins" "nhl"));
    vm_compute; reflexivity.
Defined.

Section ListingSport.
Variable partial_ratio : string -> string -> Q.
Variable ratio : string -> string -> Q.
Variable tag : KalshiMarket.t -> string.

Lemma filter_map_with_sport (p : KalshiMarket.t -> bool) l :
  (forall m, p (with_sport tag m) = p m) ->
  List.filter p (map (with_sport tag) l) = map (with_sport tag) (List.filter p l).
Proof.
  intros Hp. induction l as [| m l IH]; [done |]. simpl. rewrite Hp.
  destruct (p m); simpl; by rewrite IH.
Qed.

Lemma game_ids_with_sport mks :
  game_ids (map (with_sport tag) mks) = game_ids mks.
Proof. unfold game_ids. by rewrite map_map. Qed.

Lemma assign_pro_with_sport home_abbrev away_abbrev markets :
  assign_pro home_abbrev away_abbrev (map (with_sport tag) markets)
  = (with_sport tag <$> (assign_pro home_abbrev away_abbrev markets).1,
     with_sport tag <$> (assign_pro home_abbrev away_abbrev markets).2).
Proof.
  unfold assign_pro.
  induction markets as [| m ms IH] using rev_ind; [done |].
  rewrite map_app, !fold_left_app, IH. cbn [map fold_left].
  destruct (fold_left _ ms _) as [hm am]. simpl.
  repeat match goal with
         | |- context [if ?b then _ else _] => destruct b
         end; done.
Qed.

Lemma assign_college_with_sport home_abbrev away_abbrev home_school
    away_school markets :
  assign_college ratio home_abbrev away_abbrev home_school away_school
    (map (with_sport tag) markets)
  = (with_sport tag
       <$> (assign_college ratio home_abbrev away_abbrev home_school
              away_school markets).1,
     with_sport tag
       <$> (assign_college ratio home_abbrev away_abbrev home_school
              away_school markets).2).
Proof.
  unfold assign_college.
  induction markets as [| m ms IH] using rev_ind; [done |].
  rewrite map_app, !fold_left_app, IH. cbn [map fold_left].
  destruct (fold_left _ ms _) as [hm am]. simpl.
  repeat match goal with
         | |- context [if ?b then _ else _] => destruct b
         end; done.
Qed.

(** A game with its listings tagged anew: the score is the same, the sides
    are the same listings. *)
Lemma game_score_title vegas_event markets markets' title sport sport' :
  game_score partial_ratio vegas_event (KalshiGame.mk markets' title sport')
  = game_score partial_ratio vegas_event (KalshiGame.mk markets title sport).
Proof. done. Qed.

Lemma game_sides_with_sport vegas_event markets title sport sport' :
  game_sides ratio vegas_event
    (KalshiGame.mk (map (with_sport tag) markets) title sport')
  = (with_sport tag
       <$> (game_sides ratio vegas_event (KalshiGame.mk markets title sport)).1,
     with_sport tag
       <$> (game_sides ratio vegas_event (KalshiGame.mk markets title sport)).2).
Proof.
  unfold game_sides. cbn [KalshiGame.markets]. cbv zeta.
  destruct (Str.contains "ncaa" _).
  - apply assign_college_with_sport.
  - apply assign_pro_with_sport.
Qed.

Lemma game_of_with_sport mks g :
  exists sport',
    game_of (map (with_sport tag) mks) g
    = KalshiGame.mk (map (with_sport tag) (KalshiGame.markets (game_of mks g)))
        (KalshiGame.title (game_of mks g)) sport'.
Proof.
  unfold game_of. rewrite filter_map_with_sport by done.
  eexists. cbn [KalshiGame.markets KalshiGame.title]. f_equal.
  by destruct (List.filter _ mks).
Qed.

Lemma consider_game_with_sport mks vegas_event best score g :
  consider_game partial_ratio ratio vegas_event
    (best_with_sport tag <$> best, score)
    (g, game_of (map (with_sport tag) mks) g)
  = ((best_with_sport tag
        <$> (consider_game partial_ratio ratio vegas_event (best, score)
               (g, game_of mks g)).1),
     (consider_game partial_ratio ratio vegas_event (best, score)
        (g, game_of mks g)).2).
Proof.
  destruct (game_of_with_sport mks g) as (sport' & ->).
  unfold consider_game.
  destruct (game_of mks g) as [markets title sport] eqn:Eg.
  cbn [KalshiGame.markets KalshiGame.title].
  rewrite (game_score_title vegas_event markets _ title sport sport').
  destruct (game_score _ _ _) as [combined |]; [| done].
  destruct (Qltb score combined); [| done].
  rewrite (game_sides_with_sport vegas_event markets title sport sport').
  destruct (game_sides ratio vegas_event _) as [hm am]. cbn [fst snd].
  destruct hm as [hm |], am as [am |]; done.
Qed.

Lemma best_game_with_sport mks keys vegas_event best score :
  fold_left (consider_game partial_ratio ratio vegas_event)
    (map (fun g => (g, game_of (map (with_sport tag) mks) g)) keys)
    (best_with_sport tag <$> best, score)
  = ((best_with_sport tag
        <$> (fold_left (consider_game partial_ratio ratio vegas_event)
               (map (fun g => (g, game_of mks g)) keys) (best, score)).1),
     (fold_left (consider_game partial_ratio ratio vegas_event)
        (map (fun g => (g, game_of mks g)) keys) (best, score)).2).
Proof.
  revert best score. induction keys as [| g keys IH]; intros best score;
    [done |].
  cbn [map fold_left]. rewrite consider_game_with_sport.
  destruct (consider_game _ _ _ (best, score) _) as [best1 score1].
  apply IH.
Qed.
Lemma match_event_with_sport mks keys vegas_event :
  match_event partial_ratio ratio
    (map (fun g => (g, game_of (map (with_sport tag) mks) g)) keys) vegas_event
  = match_with_sport tag
      <$> match_event partial_ratio ratio
            (map (fun g => (g, game_of mks g)) keys) vegas_event.
Proof.
  unfold match_event, best_game.
  rewrite (best_game_with_sport _ _ _ None). cbn [fst].
  by destruct (fold_left _ _ _).1.
Qed.
End ListingSport.

(** X7. The matcher does not look at the sport of a listing: with the listings
    tagged with any other sports it returns the same matches, of the same
    events with the same games and the same listings under their new tags.
    A listing of one league can so be matched with an event of another. *)
Theorem matcher_ignores_the_sport_of_listings
  (partial_ratio ratio : string -> string -> Q)
  (tag : KalshiMarket.t -> string)
  (vegas_events : list VegasEvent.t) (kalshi_markets : list KalshiMarket.t) :
  match_game_winner_markets partial_ratio ratio vegas_events
    (map (with_sport tag) kalshi_markets)
  = map (match_with_sport tag)
      (match_game_winner_markets partial_ratio ratio vegas_events
         kalshi_markets).
Proof.
  unfold match_game_winner_markets. cbv zeta.
  rewrite !group_by_game_id_games, game_ids_with_sport.
  induction vegas_events as [| ev evs IH]; [done |].
  change (omap ?f (ev :: evs))
    with (match f ev with Some y => y :: omap f evs | None => omap f evs end).
  rewrite IH, match_event_with_sport.
  by destruct (match_event _ _ _ ev).
Qed.

(** ** The Kalshi client *)

Section Requests.
Variable server :
  nat -> string -> option (list ApiMarket.t) + requests.exception.

(** The loop, from any attempt on: it sends one request at least and one
    per attempt at most, and sleeps between one and four seconds after a
    request, for attempts numbered below 3. *)
Lemma request_attempts_bounds attempts series_ticker w :
  attempts <> [] -> Forall (fun attempt => (attempt < 3)%nat) attempts ->
  let r := KalshiClient.request_attempts server attempts series_ticker w in
  (KalshiClient.sent w < KalshiClient.sent r.2
   <= KalshiClient.sent w + length attempts)%nat
  /\ exists delays,
       KalshiClient.slept r.2 = KalshiClient.slept w ++ delays
       /\ (length delays <= length attempts)%nat
       /\ Forall (fun delay => 1 <= delay <= 4) delays.
Proof.
  revert w. induction attempts as [| attempt rest IH]; intros w Hne Hlt;
    [done |].
  apply Forall_cons in Hlt as [Hattempt Hrest].
  assert (forall delay, 1 <= delay <= 4 ->
            let r := KalshiClient.request_attempts server rest series_ticker
                       (KalshiClient.sleep delay (KalshiClient.send w)) in
            (KalshiClient.sent w < KalshiClient.sent r.2
             <= KalshiClient.sent w + length (attempt :: rest))%nat
            /\ exists delays,
                 KalshiClient.slept r.2 = KalshiClient.slept w ++ delays
                 /\ (length delays <= length (attempt :: rest))%nat
                 /\ Forall (fun delay => 1 <= delay <= 4) delays) as Hnext.
  { intros delay Hdelay. destruct rest as [| attempt' rest'].
    - simpl. split; [lia |]. exists [delay]. split; [done |].
      split; [simpl; lia |]. constructor; [done | constructor].
    - destruct (IH (KalshiClient.sleep delay (KalshiClient.send w)))
        as (Hsent & delays & Hslept & Hlen & Hdelays); [done | done |].
      cbv zeta. split; [simpl in *; lia |].
      exists (delay :: delays). rewrite Hslept. simpl.
      rewrite <- app_assoc. split; [done |]. split; [simpl in *; lia |].
      by constructor. }
  assert (let r := (@inl (option (list ApiMarket.t)) requests.exception None,
                    KalshiClient.send w) in
          forall (x : option (list ApiMarket.t) + requests.exception),
            (KalshiClient.sent w < KalshiClient.sent (x, r.2).2
             <= KalshiClient.sent w + length (attempt :: rest))%nat
            /\ exists delays,
                 KalshiClient.slept (x, r.2).2 = KalshiClient.slept w ++ delays
                 /\ (length delays <= length (attempt :: rest))%nat
                 /\ Forall (fun delay => 1 <= delay <= 4) delays) as Hstop.
  { intros r x. simpl. split; [lia |]. exists []. rewrite app_nil_r.
    split; [done |]. split; [simpl; lia | constructor]. }
  cbn [KalshiClient.request_attempts].
  destruct (server (KalshiClient.sent w) series_ticker) as [body | [status |]].
  - apply Hstop.
  - destruct (status =? 429); [| apply Hstop].
    apply Hnext. unfold RETRY_BASE_DELAY.
    assert (attempt = 0 \/ attempt = 1 \/ attempt = 2)%nat as [-> | [-> | ->]]
      by lia; simpl; lia.
  - destruct (attempt =? MAX_RETRIES - 1)%nat; [apply Hstop |].
    apply Hnext. unfold RETRY_BASE_DELAY. lia.
Qed.

Lemma request_bounds series_ticker w :
  let r := KalshiClient._request server series_ticker w in
  (KalshiClient.sent w < KalshiClient.sent r.2 <= KalshiClient.sent w + 3)%nat
  /\ exists delays,
       KalshiClient.slept r.2 = KalshiClient.slept w ++ delays
       /\ (length delays <= 3)%nat
       /\ Forall (fun delay => 1 <= delay <= 4) delays.
Proof.
  apply (request_attempts_bounds [0; 1; 2]%nat); [done |].
  repeat constructor.
Qed.

Lemma fetch_sport_bounds all_markets w sport :
  let r := KalshiClient.fetch_sport server (all_markets, w) sport in
  (KalshiClient.sent w <= KalshiClient.sent r.2 <= KalshiClient.sent w + 3)%nat
  /\ exists fetched, r.1 = all_markets ++ map (KalshiClient.annotate sport) fetched.
Proof.
  unfold KalshiClient.fetch_sport.
  destruct (dict_of_items KalshiClient.series_map !! Str.lower sport)
    as [series |].
  2: { simpl. split; [lia |]. exists []. by rewrite app_nil_r. }
  unfold KalshiClient.get_markets.
  pose proof (request_bounds series w) as [Hsent _].
  destruct (KalshiClient._request server series w) as [[result | e] w'];
    simpl in *.
  - split; [lia |]. by eexists.
  - split; [lia |]. exists []. by rewrite app_nil_r.
Qed.
Lemma fetch_loop_bounds sports all_markets w :
  (KalshiClient.sent w
   <= KalshiClient.sent
        (fold_left (KalshiClient.fetch_sport server) sports (all_markets, w)).2
   <= KalshiClient.sent w + 3 * length sports)%nat.
Proof.
  revert all_markets w.
  induction sports as [| sport rest IH]; intros all_markets w; [simpl; lia |].
  cbn [fold_left].
  pose proof (fetch_sport_bounds all_markets w sport) as [Hs _].
  destruct (KalshiClient.fetch_sport server (all_markets, w) sport)
    as [all_markets' w'].
  cbn [snd] in Hs. specialize (IH all_markets' w'). cbn [length]. lia.
Qed.
End Requests.

(** X8. A request of the client ends after one, two or three requests to the
    server, whatever the server answers, with a sleep of one to four seconds
    after a request at most; the listings of [get_game_winner_markets] cost
    three requests a sport at most. *)
Theorem requests_are_bounded
  (server : nat -> string -> option (list ApiMarket.t) + requests.exception)
  (series_ticker : string) (sports : option (list string))
  (w : KalshiClient.world) :
  let r := KalshiClient._request server series_ticker w in
  let g := KalshiClient.get_game_winner_markets server sports w in
  (KalshiClient.sent w < KalshiClient.sent r.2 <= KalshiClient.sent w + 3)%nat
  /\ (exists delays,
        KalshiClient.slept r.2 = KalshiClient.slept w ++ delays
        /\ (length delays <= 3)%nat
        /\ Forall (fun delay => 1 <= delay <= 4) delays)
  /\ (KalshiClient.sent w <= KalshiClient.sent g.2
      <= KalshiClient.sent w + 3 * length (default ["nfl"; "nba"] sports))%nat.
Proof.
  intros r g. destruct (request_bounds server series_ticker w) as [H1 H2].
  split; [done |]. split; [done |].
  apply fetch_loop_bounds.
Qed.

(** X9. A series the server answers with the status 429 three times running
    reads as a series without markets: the request sleeps 1, 2 and 4 seconds,
    the last of them after the last attempt, and returns the empty dict
    instead of raising; the loop over the sports then adds nothing for the
    sport and reports no error. *)
Theorem rate_limited_series_reads_as_empty
  (server : nat -> string -> option (list ApiMarket.t) + requests.exception)
  (sport series_ticker : string) (all_markets : list KalshiMarket.t)
  (w : KalshiClient.world) :
  (forall k, (k < 3)%nat ->
     server (KalshiClient.sent w + k)%nat series_ticker
     = inr (requests.HTTPError 429)) ->
  KalshiClient._request server series_ticker w
  = (inl None,
     KalshiClient.World (KalshiClient.sent w + 3)
       (KalshiClient.slept w ++ [1; 2; 4]))
  /\ (dict_of_items KalshiClient.series_map !! Str.lower sport
      = Some series_ticker ->
      KalshiClient.fetch_sport server (all_markets, w) sport
      = (all_markets,
         KalshiClient.World (KalshiClient.sent w + 3)
           (KalshiClient.slept w ++ [1; 2; 4]))).
Proof.
  intros H.
  assert (KalshiClient._request server series_ticker w
          = (inl None,
             KalshiClient.World (KalshiClient.sent w + 3)
               (KalshiClient.slept w ++ [1; 2; 4]))) as Hreq.
  { unfold KalshiClient._request, MAX_RETRIES. cbn [seq].
    pose proof (H 0%nat ltac:(lia)) as H0.
    pose proof (H 1%nat ltac:(lia)) as H1.
    pose proof (H 2%nat ltac:(lia)) as H2.
    rewrite Nat.add_0_r in H0.
    destruct w as [n slept]. cbn [KalshiClient.sent] in *.
    cbn [KalshiClient.request_attempts KalshiClient.sent KalshiClient.send
         KalshiClient.sleep KalshiClient.slept].
    rewrite H0. cbn [Z.eqb Pos.eqb].
    cbn [KalshiClient.request_attempts KalshiClient.sent KalshiClient.send
         KalshiClient.sleep KalshiClient.slept].
    replace (S n) with (n + 1)%nat by lia. rewrite H1. cbn [Z.eqb Pos.eqb].
    cbn [KalshiClient.request_attempts KalshiClient.sent KalshiClient.send
         KalshiClient.sleep KalshiClient.slept].
    replace (S (n + 1)) with (n + 2)%nat by lia. rewrite H2.
    cbn [Z.eqb Pos.eqb].
    cbn [KalshiClient.request_attempts KalshiClient.sent KalshiClient.send
         KalshiClient.sleep KalshiClient.slept].
    unfold KalshiClient.sleep, KalshiClient.send.
    cbn [KalshiClient.sent KalshiClient.slept].
    f_equal. rewrite <- !app_assoc.
    replace (S (S (S n))) with (n + 3)%nat by lia. done. }
  split; [done |]. intros Hseries.
  unfold KalshiClient.fetch_sport, KalshiClient.get_markets.
  rewrite Hseries, Hreq. simpl. by rewrite app_nil_r.
Qed.

Lemma rate_limited_series_reads_as_empty_witness :
  KalshiClient.get_game_winner_markets
    (fun _ _ => inr (requests.HTTPError 429)) (Some ["nba"])
    (KalshiClient.World 0 [])
  = ([], KalshiClient.World 3 [1; 2; 4]).
Proof.
  unfold KalshiClient.get_game_winner_markets. cbn [default fold_left].
  apply (rate_limited_series_reads_as_empty
           (fun _ _ => inr (requests.HTTPError 429)) "nba" "KXNBAGAME" []
           (KalshiClient.World 0 [])); [done |].
  vm_compute. reflexivity.
Defined.

(** ** The sports of a run *)

Section Sports.
Lemma dict_of_items_from (items : list (string * string))
    (d : gmap string string) k v :
  fold_left (fun d kv => <[kv.1 := kv.2]> d) items d !! k = Some v ->
  In (k, v) items \/ d !! k = Some v.
Proof.
  revert d. induction items as [| [k' v'] items IH]; intros d; simpl;
    [by right |].
  intros H. apply IH in H as [H | H]; [left; by right |].
  apply lookup_insert_Some in H as [[<- <-] | [_ H]]; [left; by left | by right].
Qed.

Lemma dict_of_items_In items k v :
  dict_of_items items !! k = Some v -> In (k, v) items.
Proof.
  intros H. apply dict_of_items_from in H as [H | H]; [done |].
  by rewrite lookup_empty in H.
Qed.
End Sports.

(** X10. Every sport [main] passes to the Kalshi client has a series there, so
    the client skips none of them; a sport key [main] does not know is left
    out before, without a message.  The six target sports are all passed. *)
Theorem sports_of_main_have_a_series (sports : list string) :
  Forall (fun sport =>
            is_Some (dict_of_items KalshiClient.series_map !! Str.lower sport))
    (main.kalshi_sports sports)
  /\ length (main.kalshi_sports sports)
     = length (List.filter
                 (fun s => mem s (map fst main.sport_key_map)) sports)
  /\ main.kalshi_sports TARGET_SPORTS
     = ["nfl"; "nba"; "ncaab"; "ncaaw"; "nhl"; "mlb"].
Proof.
  split; [| split; [| vm_compute; reflexivity]].
  - unfold main.kalshi_sports. apply List.Forall_forall. intros tag Htag.
    apply in_map_iff in Htag as (s & <- & Hs).
    apply filter_In in Hs as [_ Hs]. apply bool_decide_eq_true in Hs as [v Hv].
    rewrite Hv. simpl. apply dict_of_items_In in Hv. simpl in Hv.
    repeat (destruct Hv as [[= <- <-] | Hv]; [by vm_compute; eexists |]).
    done.
  - unfold main.kalshi_sports. rewrite length_map. f_equal.
    apply filter_ext_in. intros s _.
    destruct (mem s (map fst main.sport_key_map)) eqn:E.
    + apply mem_In in E. simpl in E. apply bool_decide_eq_true.
      repeat (destruct E as [<- | E]; [by vm_compute; eexists |]). done.
    + apply bool_decide_eq_false. intros [v Hv].
      apply dict_of_items_In in Hv.
      assert (In s (map fst main.sport_key_map)) as Hin
        by (apply in_map_iff; by exists (s, v)).
      apply mem_In in Hin. congruence.
Qed.

(** ** Letter case in the names *)

Section LetterCase.
Lemma lower_char_idem c : Str.lower_char (Str.lower_char c) = Str.lower_char c.
Proof. by destruct c as [[] [] [] [] [] [] [] []]. Qed.

Lemma is_space_lower_char c : Str.is_space (Str.lower_char c) = Str.is_space c.
Proof. by destruct c as [[] [] [] [] [] [] [] []]. Qed.

Lemma lower_idem s : Str.lower (Str.lower s) = Str.lower s.
Proof.
  induction s as [| c s IH]; [done |]. simpl. by rewrite lower_char_idem, IH.
Qed.

Lemma lower_rev_app s acc :
  Str.lower (String.rev_app s acc) = String.rev_app (Str.lower s) (Str.lower acc).
Proof.
  revert acc. induction s as [| c s IH]; intros acc; [done |]. simpl.
  by rewrite IH.
Qed.

Lemma lower_rev s : Str.lower (String.rev s) = String.rev (Str.lower s).
Proof. apply lower_rev_app. Qed.

Lemma lower_lstrip s : Str.lower (Str.lstrip s) = Str.lstrip (Str.lower s).
Proof.
  induction s as [| c s IH]; [done |]. simpl. rewrite is_space_lower_char.
  by destruct (Str.is_space c).
Qed.

Lemma lower_strip s : Str.lower (Str.strip s) = Str.strip (Str.lower s).
Proof.
  unfold Str.strip, Str.rstrip.
  by rewrite lower_rev, lower_lstrip, lower_rev, lower_lstrip.
Qed.

Lemma lower_empty s : String.eqb s "" = String.eqb (Str.lower s) "".
Proof. by destruct s. Qed.

Lemma normalize_team_name_lower name :
  normalize_team_name (Str.lower name) = normalize_team_name name.
Proof.
  unfold normalize_team_name.
  by rewrite <- lower_empty, <- lower_strip, lower_idem.
Qed.

Lemma extract_college_school_name_lower name :
  extract_college_school_name (Str.lower name) = extract_college_school_name name.
Proof.
  unfold extract_college_school_name. by rewrite <- lower_empty, lower_idem.
Qed.
End LetterCase.

(** X11. The names of the teams are read without regard to letter case: two
    names that differ by the case of their letters only get the same
    normalised name, the same abbreviation, the same school name and the
    same college abbreviation. *)
Theorem team_names_ignore_letter_case (name name' : string) :
  Str.lower name = Str.lower name' ->
  normalize_team_name name = normalize_team_name name'
  /\ get_team_abbrev name = get_team_abbrev name'
  /\ extract_college_school_name name = extract_college_school_name name'
  /\ get_college_abbrev name = get_college_abbrev name'.
Proof.
  intros H.
  assert (normalize_team_name name = normalize_team_name name') as Hn
    by by rewrite <- (normalize_team_name_lower name), H,
         normalize_team_name_lower.
  assert (extract_college_school_name name = extract_college_school_name name')
    as He
    by by rewrite <- (extract_college_school_name_lower name), H,
         extract_college_school_name_lower.
  split; [done |]. split; [| split; [done |]].
  - unfold get_team_abbrev. by rewrite H, Hn.
  - unfold get_college_abbrev. by rewrite He.
Qed.

Lemma team_names_ignore_letter_case_witness :
  get_team_abbrev "LOS ANGELES LAKERS" = get_team_abbrev "Los Angeles Lakers"
  /\ get_college_abbrev "DUKE BLUE DEVILS" = get_college_abbrev "Duke Blue Devils".
Proof.
  split.
  - apply (team_names_ignore_letter_case "LOS ANGELES LAKERS"
             "Los Angeles Lakers"). reflexivity.
  - apply (team_names_ignore_letter_case "DUKE BLUE DEVILS" "Duke Blue Devils").
    reflexivity.
Defined.

(** ** The two sides of a consensus *)

Section Complement.
Local Open Scope Q_scope.

Lemma Qred_eq_iff x y : Qred x = Qred y <-> x == y.
Proof.
  split; [| apply Qred_complete].
  intros H. rewrite <- (Qred_correct x), <- (Qred_correct y). by rewrite H.
Qed.

Lemma In_map_Qred x l : In (Qred x) (map Qred l) -> exists y, In y l /\ y == x.
Proof.
  intros H. apply in_map_iff in H as (y & Hy & Hin).
  exists y. split; [done |]. by apply Qred_eq_iff.
Qed.

(** Two ascending lists with the same values, up to the equality of
    rationals, have them at the same places. *)
Lemma ascending_unique l1 l2 :
  StronglySorted Qle l1 -> StronglySorted Qle l2 ->
  map Qred l1 ≡ₚ map Qred l2 -> Forall2 Qeq l1 l2.
Proof.
  intros H1. revert l2. induction H1 as [| x1 l1 Hs1 IH Hx1]; intros l2 H2 E.
  { apply Permutation_nil in E. destruct l2; [constructor | done]. }
  destruct H2 as [| x2 l2 Hs2 Hx2].
  { symmetry in E. by apply Permutation_nil in E. }
  cbn [map] in E.
  rewrite List.Forall_forall in Hx1, Hx2.
  assert (x1 == x2) as Hx.
  { apply Qle_antisym.
    - assert (In (Qred x2) (Qred x1 :: map Qred l1)) as Hin.
      { apply (Permutation_in (l := Qred x2 :: map Qred l2));
          [by symmetry | by left]. }
      destruct Hin as [Hin | Hin].
      + apply Qred_eq_iff in Hin. rewrite Hin. apply Qle_refl.
      + apply In_map_Qred in Hin as (y & Hy & Hyx). rewrite <- Hyx. by apply Hx1.
    - assert (In (Qred x1) (Qred x2 :: map Qred l2)) as Hin.
      { apply (Permutation_in (l := Qred x1 :: map Qred l1)); [done | by left]. }
      destruct Hin as [Hin | Hin].
      + apply Qred_eq_iff in Hin. rewrite Hin. apply Qle_refl.
      + apply In_map_Qred in Hin as (y & Hy & Hyx). rewrite <- Hyx. by apply Hx2. }
  constructor; [done |]. apply IH; [done |].
  apply Qred_eq_iff in Hx. rewrite Hx in E.
  by apply Permutation_cons_inv in E.
Qed.

Lemma ascending_snoc l x :
  StronglySorted Qle l -> Forall (fun y => y <= x) l ->
  StronglySorted Qle (l ++ [x]).
Proof.
  induction 1 as [| y l Hs IH Hy]; intros Hx; simpl.
  - repeat constructor.
  - apply Forall_cons in Hx as [Hyx Hx]. constructor; [by apply IH |].
    apply Forall_app. split; [done |]. by repeat constructor.
Qed.

Lemma ascending_rev_complement l :
  StronglySorted Qle l -> StronglySorted Qle (rev (map (fun x => 1 - x) l)).
Proof.
  induction 1 as [| x l Hs IH Hx]; [constructor |].
  cbn [map rev]. apply ascending_snoc; [done |].
  apply List.Forall_forall. intros y Hy.
  apply in_rev, in_map_iff in Hy as (y' & <- & Hy').
  rewrite List.Forall_forall in Hx. specialize (Hx _ Hy'). lra.
Qed.

Lemma sorted_ascending l : StronglySorted Qle (sorted Qltb l).
Proof.
  apply sorted_sorted.
  - intros x y H. by apply Qltb_ge in H.
  - intros x y H. apply Qltb_lt in H. by apply Qlt_le_weak.
  - intros x y z. apply Qle_trans.
Qed.

Lemma map_Qred_ext l l' : Forall2 Qeq l l' -> map Qred l = map Qred l'.
Proof.
  induction 1 as [| x y l l' Hxy _ IH]; [done |]. simpl.
  apply Qred_eq_iff in Hxy. by rewrite Hxy, IH.
Qed.

(** The sorted complements are the complements of the sorted values, in
    the reverse order. *)
Lemma sorted_complement l l' :
  Forall2 (fun x y => y == 1 - x) l l' ->
  Forall2 Qeq (sorted Qltb l') (rev (map (fun x => 1 - x) (sorted Qltb l))).
Proof.
  intros H. apply ascending_unique.
  - apply sorted_ascending.
  - apply ascending_rev_complement, sorted_ascending.
  - rewrite (sorted_perm Qltb l').
    assert (map Qred l' = map Qred (map (fun x => 1 - x) l)) as ->.
    { apply map_Qred_ext. clear -H.
      induction H as [| x y l l' Hxy _ IH]; [constructor |].
      simpl. by constructor. }
    apply Permutation_map. rewrite <- Permutation_rev.
    apply Permutation_map. symmetry. apply sorted_perm.
Qed.

Lemma Forall2_Qeq_nth l l' i :
  Forall2 Qeq l l' -> nth i l 0 == nth i l' 0.
Proof.
  intros H. revert i. induction H as [| x y l l' Hxy _ IH]; intros i.
  - by destruct i.
  - destruct i; [done | apply IH].
Qed.

Lemma nth_rev_complement l i :
  (i < length l)%nat ->
  nth i (rev (map (fun x => 1 - x) l)) 0 = 1 - nth (length l - S i) l 0.
Proof.
  intros Hi. rewrite rev_nth by by rewrite length_map.
  rewrite length_map.
  rewrite (nth_indep _ 0 (1 - 0)) by (rewrite length_map; lia).
  apply (map_nth (fun x => 1 - x)).
Qed.

Lemma Ok_inj {X : Type} (a b : X) : Ok a = Ok b -> a = b.
Proof. by intros [= ->]. Qed.

Lemma median_complement l l' m m' :
  Forall2 (fun x y => y == 1 - x) l l' ->
  median l = Ok m -> median l' = Ok m' -> m' == 1 - m.
Proof.
  intros H Hm Hm'.
  pose proof (sorted_complement _ _ H) as Hs.
  pose proof (Forall2_length _ _ _ H) as Hlen.
  unfold median in Hm, Hm'. rewrite sorted_length in Hm, Hm'.
  rewrite <- Hlen in Hm'.
  assert (length (sorted Qltb l) = length l) as Hsl by apply sorted_length.
  destruct (length l =? 0)%nat eqn:E0; [done |]. apply Nat.eqb_neq in E0.
  pose proof (Nat.div_mod_eq (length l) 2) as Hdiv.
  pose proof (Nat.mod_upper_bound (length l) 2 ltac:(lia)) as Hmod.
  destruct (length l mod 2 =? 1)%nat eqn:E1.
  - apply Nat.eqb_eq in E1. apply Ok_inj in Hm, Hm'. subst m m'.
    rewrite (Forall2_Qeq_nth _ _ _ Hs).
    assert (length l / 2 < length (sorted Qltb l))%nat as Hi
      by (rewrite Hsl; clear -E0 E1 Hdiv Hmod; lia).
    rewrite (nth_rev_complement _ _ Hi), Hsl.
    replace (length l - S (length l / 2))%nat with (length l / 2)%nat
      by (clear -E0 E1 Hdiv Hmod; lia).
    reflexivity.
  - apply Nat.eqb_neq in E1. apply Ok_inj in Hm, Hm'. subst m m'.
    rewrite !(Forall2_Qeq_nth _ _ _ Hs).
    assert (length l / 2 < length (sorted Qltb l))%nat as Hi
      by (rewrite Hsl; clear -E0 E1 Hdiv Hmod; lia).
    assert (length l / 2 - 1 < length (sorted Qltb l))%nat as Hi'
      by (rewrite Hsl; clear -E0 E1 Hdiv Hmod; lia).
    rewrite (nth_rev_complement _ _ Hi), (nth_rev_complement _ _ Hi'), Hsl.
    replace (length l - S (length l / 2 - 1))%nat with (length l / 2)%nat
      by (clear -E0 E1 Hdiv Hmod; lia).
    replace (length l - S (length l / 2))%nat with (length l / 2 - 1)%nat
      by (clear -E0 E1 Hdiv Hmod; lia).
    field.
Qed.

Lemma median_bounds lo hi l m :
  Forall (fun x => lo <= x <= hi) l -> median l = Ok m -> lo <= m <= hi.
Proof.
  intros H Hm.
  assert (Forall (fun x => lo <= x <= hi) (sorted Qltb l)) as Hs
    by by rewrite sorted_perm.
  assert (forall i, (i < length l)%nat ->
            lo <= nth i (sorted Qltb l) 0 <= hi) as Hnth.
  { intros i Hi. apply List.Forall_nth; [done |]. by rewrite sorted_length. }
  unfold median in Hm. rewrite sorted_length in Hm.
  destruct (length l =? 0)%nat eqn:E0; [done |]. apply Nat.eqb_neq in E0.
  pose proof (Nat.div_mod_eq (length l) 2) as Hdiv.
  pose proof (Nat.mod_upper_bound (length l) 2 ltac:(lia)) as Hmod.
  destruct (length l mod 2 =? 1)%nat eqn:E1; apply Ok_inj in Hm; subst m.
  - apply Hnth. clear -E0 Hdiv Hmod. lia.
  - apply Nat.eqb_neq in E1.
    assert (length l / 2 < length l)%nat as Hi by (clear -E0 Hdiv Hmod; lia).
    assert (length l / 2 - 1 < length l)%nat as Hi' by (clear -E0 Hdiv Hmod; lia).
    pose proof (Hnth _ Hi) as [? ?]. pose proof (Hnth _ Hi') as [? ?].
    split.
    + apply Qle_shift_div_l; [done |]. lra.
    + apply Qle_shift_div_r; [done |]. lra.
Qed.

Lemma inject_len_cons {X : Type} (x : X) l :
  inject_Z (len (x :: l)) == 1 + inject_Z (len l).
Proof.
  unfold len. cbn [length]. rewrite Nat2Z.inj_succ, <- Z.add_1_l.
  by rewrite inject_Z_plus.
Qed.

Lemma Qsum_complement l l' :
  Forall2 (fun x y => y == 1 - x) l l' ->
  Qsum l' == inject_Z (len l) - Qsum l.
Proof.
  induction 1 as [| x y l l' Hxy _ IH]; [done |].
  rewrite inject_len_cons. cbn [Qsum foldr]. fold (Qsum l) (Qsum l').
  rewrite IH, Hxy. ring.
Qed.

Lemma inject_len_pos {X : Type} (l : list X) : l <> [] -> 0 < inject_Z (len l).
Proof.
  intros H. apply inject_Z_pos. unfold len. destruct l; [done |]. simpl. lia.
Qed.

Lemma mean_complement l l' :
  l <> [] -> Forall2 (fun x y => y == 1 - x) l l' -> mean l' == 1 - mean l.
Proof.
  intros Hne H. unfold mean. rewrite (Qsum_complement _ _ H).
  assert (len l' = len l) as ->
    by (unfold len; by rewrite (Forall2_length _ _ _ H)).
  pose proof (inject_len_pos l Hne). field. lra.
Qed.

Lemma deviations_complement m m' l l' :
  m' == 1 - m -> Forall2 (fun x y => y == 1 - x) l l' ->
  Qsum (map (fun x => (x - m') * (x - m')) l')
  == Qsum (map (fun x => (x - m) * (x - m)) l).
Proof.
  intros Hm. induction 1 as [| x y l l' Hxy _ IH]; [done |].
  cbn [map Qsum foldr].
  fold (Qsum (map (fun x => (x - m') * (x - m')) l')).
  fold (Qsum (map (fun x => (x - m) * (x - m)) l)).
  rewrite IH, Hxy, Hm. ring.
Qed.

Lemma variance_complement l l' :
  Forall2 (fun x y => y == 1 - x) l l' -> variance l' == variance l.
Proof.
  intros H. unfold variance.
  assert (len l' = len l) as Hlen
    by (unfold len; by rewrite (Forall2_length _ _ _ H)).
  rewrite Hlen.
  destruct l as [| x l].
  { inversion H. reflexivity. }
  assert (mean l' == 1 - mean (x :: l)) as Hm by by apply mean_complement.
  rewrite (deviations_complement _ _ _ _ Hm H). reflexivity.
Qed.

Lemma dispersion_complement l l' :
  Forall2 (fun x y => y == 1 - x) l l' ->
  radicand (dispersion l') == radicand (dispersion l).
Proof.
  intros H. unfold dispersion.
  assert (len l' = len l) as ->
    by (unfold len; by rewrite (Forall2_length _ _ _ H)).
  destruct (1 <? len l)%Z; [| reflexivity]. by apply variance_complement.
Qed.

Lemma devig_complement quotes :
  forallb quote_ok quotes = true ->
  Forall2 (fun x y => y == 1 - x) (map devig_home quotes) (map devig_away quotes).
Proof.
  induction quotes as [| q quotes IH]; [constructor |].
  cbn [forallb map]. intros H. apply andb_true_iff in H as [Hq H].
  constructor; [| by apply IH].
  unfold quote_ok in Hq. apply negb_true_iff, Qleb_gt in Hq.
  unfold devig_away, devig_home. unfold quote_total in *. field. lra.
Qed.

Lemma devig_bounds quotes :
  forallb quote_ok quotes = true ->
  Forall (fun x => 0 <= x <= 1) (map devig_home quotes).
Proof.
  induction quotes as [| q quotes IH]; [constructor |].
  cbn [forallb map]. intros H. apply andb_true_iff in H as [Hq H].
  constructor; [| by apply IH].
  unfold quote_ok in Hq. apply negb_true_iff, Qleb_gt in Hq.
  unfold devig_home. unfold quote_total in *.
  pose proof (implied_nonneg q.1). pose proof (implied_nonneg q.2).
  split.
  - apply Qle_shift_div_l; [done |]. lra.
  - apply Qle_shift_div_r; [done |]. lra.
Qed.
End Complement.

(** What a consensus holds, by the qualifying quotes of the event. *)
Lemma consensus_complement (self : ValueFinder.t)
  (event : VegasEvent.t) (probs : VegasProbs.t) :
  ValueFinder._process_vegas_event self event = Ok (Some probs) ->
  (VegasProbs.home_prob probs + VegasProbs.away_prob probs == 1)%Q
  /\ (0 <= VegasProbs.home_prob probs <= 1)%Q
  /\ (0 <= VegasProbs.away_prob probs <= 1)%Q
  /\ (radicand (VegasProbs.home_std probs)
      == radicand (VegasProbs.away_std probs))%Q
  /\ 1 <= VegasProbs.num_bookmakers probs
  /\ VegasProbs.num_bookmakers probs = len (qualifying_quotes event)
  /\ VegasProbs.home_std probs
     = dispersion (map devig_home (qualifying_quotes event)).
Proof.
  rewrite process_vegas_event_eq.
  destruct (_ <? _); [done |].
  destruct (forallb quote_ok (qualifying_quotes event)) eqn:Eok; [| done].
  destruct (qualifying_quotes event) as [| q quotes] eqn:Eq; [done |].
  rewrite <- Eq in *. cbv beta iota zeta.
  destruct (median (map devig_home _)) as [hm |] eqn:Ehm; [| done].
  destruct (median (map devig_away _)) as [am |] eqn:Eam; [| done].
  simpl. intros [= <-]. simpl.
  pose proof (devig_complement _ Eok) as Hc.
  pose proof (median_complement _ _ _ _ Hc Ehm Eam) as Ham.
  pose proof (median_bounds 0 1 _ _ (devig_bounds _ Eok) Ehm) as Hb.
  pose proof (dispersion_complement _ _ Hc) as Hd.
  split; [lra |]. split; [done |]. split; [lra |]. split; [by symmetry |].
  split; [| done]. rewrite Eq. unfold len. simpl. lia.
Qed.

(** X12. The two sides of a consensus complete each other, the floats read as
    exact rationals: the home and the away probability add up to 1, each
    lies between 0 and 1, and the two dispersions are the same number. *)
Theorem consensus_sides_add_up_to_one (self : ValueFinder.t)
  (event : VegasEvent.t) (probs : VegasProbs.t) :
  ValueFinder._process_vegas_event self event = Ok (Some probs) ->
  (VegasProbs.home_prob probs + VegasProbs.away_prob probs == 1)%Q
  /\ (0 <= VegasProbs.home_prob probs <= 1)%Q
  /\ (0 <= VegasProbs.away_prob probs <= 1)%Q
  /\ (radicand (VegasProbs.home_std probs)
      == radicand (VegasProbs.away_std probs))%Q.
Proof.
  intros H.
  destruct (consensus_complement _ _ _ H) as (H1 & H2 & H3 & H4 & _).
  done.
Qed.

Lemma consensus_sides_add_up_to_one_witness :
  exists probs,
    ValueFinder._process_vegas_event ValueFinder.default Sample.quoted_event
    = Ok (Some probs)
    /\ (VegasProbs.home_prob probs + VegasProbs.away_prob probs == 1)%Q.
Proof.
  eexists. split; [vm_compute; reflexivity |].
  eapply (consensus_sides_add_up_to_one ValueFinder.default Sample.quoted_event).
  vm_compute. reflexivity.
Defined.

(** ** The edge of a position *)

Section EdgeRecord.
Local Open Scope Q_scope.

Lemma calculate_record price prob n position maker c :
  EdgeCalculation.calculate price prob n position maker = Ok c ->
  EdgeCalculation.expected_value_per_contract c == EdgeCalculation.net_edge c
  /\ EdgeCalculation.total_expected_value c
     == EdgeCalculation.net_edge c * inject_Z n
  /\ EdgeCalculation.net_edge c
     == EdgeCalculation.vegas_prob c - EdgeCalculation.effective_cost c
  /\ EdgeCalculation.net_edge c
     == EdgeCalculation.gross_edge c - EdgeCalculation.fee_per_contract c
  /\ EdgeCalculation.is_value_bet c = Qltb 0 (EdgeCalculation.net_edge c).
Proof.
  unfold EdgeCalculation.calculate. intros H.
  destruct (calculate_kalshi_fee price n maker) as [fee | e]; [| done].
  cbn [mbind result_bind] in H. cbv zeta in H.
  destruct (String.eqb position "yes"); apply Ok_inj in H; subst c;
    cbn [EdgeCalculation.expected_value_per_contract
         EdgeCalculation.total_expected_value EdgeCalculation.net_edge
         EdgeCalculation.vegas_prob EdgeCalculation.effective_cost
         EdgeCalculation.gross_edge EdgeCalculation.fee_per_contract
         EdgeCalculation.is_value_bet];
    (split; [ring |]); (split; [ring |]); (split; [ring |]);
    (split; [ring | reflexivity]).
Qed.
End EdgeRecord.

(** X13. The record of an edge calculation carries one quantity twice, the
    floats read as exact rationals: the expected value of a contract is the
    net edge, and the total expected value the net edge times the number of
    contracts.  The net edge is the probability of the position less its
    effective cost, the gross edge less the fee of a contract; the record is
    flagged a value bet exactly when the net edge is positive. *)
Theorem expected_value_is_the_net_edge
  (price prob : Q) (n : Z) (position : string) (maker : bool)
  (c : EdgeCalculation.t) :
  EdgeCalculation.calculate price prob n position maker = Ok c ->
  (EdgeCalculation.expected_value_per_contract c == EdgeCalculation.net_edge c)%Q
  /\ (EdgeCalculation.total_expected_value c
      == EdgeCalculation.net_edge c * inject_Z n)%Q
  /\ (EdgeCalculation.net_edge c
      == EdgeCalculation.vegas_prob c - EdgeCalculation.effective_cost c)%Q
  /\ (EdgeCalculation.net_edge c
      == EdgeCalculation.gross_edge c - EdgeCalculation.fee_per_contract c)%Q
  /\ (EdgeCalculation.is_value_bet c = true
      <-> (0 < EdgeCalculation.net_edge c)%Q).
Proof.
  intros H.
  destruct (calculate_record _ _ _ _ _ _ H) as (H1 & H2 & H3 & H4 & H5).
  do 4 (split; [done |]). rewrite H5. apply Qltb_lt.
Qed.

Lemma expected_value_is_the_net_edge_witness :
  exists c,
    EdgeCalculation.calculate (45 # 100) (58 # 100) 100 "yes" false = Ok c
    /\ (EdgeCalculation.expected_value_per_contract c
        == EdgeCalculation.net_edge c)%Q.
Proof.
  eexists. split; [vm_compute; reflexivity |].
  eapply (expected_value_is_the_net_edge (45 # 100) (58 # 100) 100 "yes" false).
  vm_compute. reflexivity.
Defined.

(** X14. The two positions on a listing mirror each other, the floats read as
    exact rationals: they pay the same fee, their gross edges are opposite,
    and their net edges add up to minus twice the fee of a contract, so that
    they are never both value bets. *)
Theorem yes_and_no_are_never_both_value_bets
  (price prob : Q) (n : Z) (position : string) (maker : bool)
  (yes no : EdgeCalculation.t) :
  position <> "yes" ->
  EdgeCalculation.calculate price prob n "yes" maker = Ok yes ->
  EdgeCalculation.calculate price prob n position maker = Ok no ->
  EdgeCalculation.fee_per_contract no = EdgeCalculation.fee_per_contract yes
  /\ (EdgeCalculation.gross_edge yes + EdgeCalculation.gross_edge no == 0)%Q
  /\ (EdgeCalculation.net_edge yes + EdgeCalculation.net_edge no
      == - (2 * EdgeCalculation.fee_per_contract yes))%Q
  /\ (EdgeCalculation.is_value_bet yes && EdgeCalculation.is_value_bet no
      = false).
Proof.
  intros Hpos Hyes Hno.
  destruct (calculate_inv _ _ _ _ _ _ Hyes) as (fee & Hfee & _ & Hf & Hy).
  destruct (calculate_inv _ _ _ _ _ _ Hno) as (fee' & Hfee' & _ & Hf' & Hn).
  rewrite Hfee in Hfee'. injection Hfee' as <-.
  apply String.eqb_neq in Hpos. rewrite Hpos in Hn.
  cbn [String.eqb Ascii.eqb Bool.eqb] in Hy.
  destruct Hy as (_ & Hgy & Hny). destruct Hn as (_ & Hgn & Hnn).
  destruct (fee_per_contract_pos _ _ _ _ Hfee) as [_ Hpos'].
  split; [congruence |]. rewrite Hgy, Hgn, Hny, Hnn, Hf.
  split; [ring |]. split; [ring |].
  destruct (calculate_record _ _ _ _ _ _ Hyes) as (_ & _ & _ & _ & ->).
  destruct (calculate_record _ _ _ _ _ _ Hno) as (_ & _ & _ & _ & ->).
  rewrite Hny, Hnn.
  destruct (Qltb 0 (prob - _)) eqn:Ey; [| done].
  destruct (Qltb 0 (1 - prob - _)) eqn:En; [| done].
  apply Qltb_lt in Ey, En. lra.
Qed.

Lemma yes_and_no_are_never_both_value_bets_witness :
  exists yes no,
    EdgeCalculation.calculate (45 # 100) (58 # 100) 100 "yes" false = Ok yes
    /\ EdgeCalculation.calculate (45 # 100) (58 # 100) 100 "no" false = Ok no
    /\ EdgeCalculation.is_value_bet yes && EdgeCalculation.is_value_bet no
       = false.
Proof.
  eexists. eexists. split; [vm_compute; reflexivity |].
  split; [vm_compute; reflexivity |].
  eapply (yes_and_no_are_never_both_value_bets (45 # 100) (58 # 100) 100 "no"
            false); [discriminate | vm_compute; reflexivity ..].
Defined.

(** X15. The cost of a position is the same on the two paths that compute it,
    the floats read as exact rationals: [calculate_effective_cost] gives
    the number of contracts times the effective cost of a contract that the
    edge calculation of the position ['yes'] records, and the one raises
    what the other raises. *)
Theorem effective_cost_agrees_with_the_edge_calculation
  (price prob : Q) (n : Z) (maker : bool) :
  match calculate_effective_cost price n maker,
        EdgeCalculation.calculate price prob n "yes" maker with
  | Ok cost, Ok c => (cost == inject_Z n * EdgeCalculation.effective_cost c)%Q
  | Raise e, Raise e' => e = e'
  | _, _ => False
  end.
Proof.
  unfold calculate_effective_cost, EdgeCalculation.calculate.
  destruct (calculate_kalshi_fee price n maker) as [fee | e] eqn:Hfee;
    [| done].
  destruct (fee_ok_inv _ _ _ _ Hfee) as [_ Hn].
  cbn [mbind result_bind String.eqb Ascii.eqb Bool.eqb].
  cbv zeta. cbn [EdgeCalculation.effective_cost].
  assert (0 < inject_Z n)%Q by by apply inject_Z_pos.
  field. lra.
Qed.

(** ** What the engine reports *)

Section Reports.
Variable self : ValueFinder.t.

(** One pass of the loop body: what it appends is an opportunity of the
    home side at most, then one of the away side at most. *)
Lemma evaluate_match_reports m opps calls opps' calls' :
  ValueFinder.evaluate_match self m (opps, calls) = Ok (opps', calls') ->
  exists home_new away_new,
    opps' = opps ++ home_new ++ away_new
    /\ (home_new = [] \/ exists o, home_new = [o] /\ reported self m "home" o)
    /\ (away_new = [] \/ exists o, away_new = [o] /\ reported self m "away" o).
Proof.
  unfold ValueFinder.evaluate_match. intros H.
  apply bind_ok_inv in H as ([probs |] & Hprobs & H).
  2: { apply Ok_inj in H. injection H as <- <-. exists [], [].
       rewrite !app_nil_r. by repeat split; left. }
  apply bind_ok_inv in H as ([opps1 calls1] & Hhome & Haway).
  assert (exists home_new,
            opps1 = opps ++ home_new
            /\ (home_new = []
                \/ exists o, home_new = [o] /\ reported self m "home" o))
    as (home_new & -> & Hh).
  { clear Haway.
    destruct (Match.kalshi_home_market m) as [hm |] eqn:Ehm.
    2: { injection Hhome as <- <-. exists []. rewrite app_nil_r.
         split; [done | by left]. }
    destruct (Qltb 0 _ && Qltb _ 1) eqn:Eprice.
    2: { injection Hhome as <- <-. exists []. rewrite app_nil_r.
         split; [done | by left]. }
    apply bind_ok_inv in Hhome as (c & Ec & Hhome).
    destruct (Qleb _ _) eqn:Eedge; injection Hhome as <- <-.
    - eexists [_]. split; [done |]. right. eexists. split; [done |].
      exists probs, hm, c. apply Qleb_le in Eedge.
      apply andb_true_iff in Eprice as [E0 E1]. apply Qltb_lt in E0, E1.
      unfold side_market, opportunity_for, side_price, side_market, side_prob.
      simpl. rewrite Ehm. by repeat split.
    - exists []. rewrite app_nil_r. split; [done | by left]. }
  clear Hhome. exists home_new.
  destruct (Match.kalshi_away_market m) as [am |] eqn:Eam.
  2: { injection Haway as <- <-. exists []. rewrite app_nil_r.
       split; [done |]. split; [done | by left]. }
  destruct (Qltb 0 _ && Qltb _ 1) eqn:Eprice.
  2: { injection Haway as <- <-. exists []. rewrite app_nil_r.
       split; [done |]. split; [done | by left]. }
  apply bind_ok_inv in Haway as (c & Ec & Haway).
  destruct (Qleb _ _) eqn:Eedge; injection Haway as <- <-.
  - eexists [_]. rewrite <- app_assoc. split; [done |]. split; [done |].
    right. eexists. split; [done |].
    exists probs, am, c. apply Qleb_le in Eedge.
    apply andb_true_iff in Eprice as [E0 E1]. apply Qltb_lt in E0, E1.
    unfold side_market, opportunity_for, side_price, side_market, side_prob.
    simpl. rewrite Eam. by repeat split.
  - exists []. rewrite app_nil_r. split; [done |]. split; [done | by left].
Qed.

Lemma evaluate_matches_reports ms opps calls opps' calls' :
  for_each ms (ValueFinder.evaluate_match self) (opps, calls)
  = Ok (opps', calls') ->
  exists new_opps,
    opps' = opps ++ new_opps
    /\ (length new_opps <= 2 * length ms)%nat
    /\ Forall (fun o =>
                 exists m team,
                   In m ms /\ In team ["home"; "away"]
                   /\ reported self m team o)
         new_opps.
Proof.
  revert opps calls. induction ms as [| m ms IH]; intros opps calls.
  - intros H. apply Ok_inj in H. injection H as <- <-. exists [].
    rewrite app_nil_r. split; [done |]. split; [simpl; lia | constructor].
  - cbn [for_each].
    destruct (ValueFinder.evaluate_match self m (opps, calls))
      as [[opps1 calls1] | e] eqn:Hm; [| done].
    cbn [mbind result_bind]. intros Hrest.
    destruct (evaluate_match_reports _ _ _ _ _ Hm)
      as (home_new & away_new & -> & Hh & Ha).
    destruct (IH _ _ Hrest) as (rest_new & -> & Hlen & Hrest_new).
    exists (home_new ++ away_new ++ rest_new).
    rewrite <- !app_assoc. split; [done |]. split.
    + rewrite !length_app. cbn [length].
      assert (length home_new <= 1)%nat
        by (destruct Hh as [-> | (o & -> & _)]; simpl; lia).
      assert (length away_new <= 1)%nat
        by (destruct Ha as [-> | (o & -> & _)]; simpl; lia).
      lia.
    + apply Forall_app. split; [| apply Forall_app; split].
      * destruct Hh as [-> | (o & -> & Ho)]; [constructor |].
        repeat constructor. exists m, "home".
        split; [by left |]. split; [by left | done].
      * destruct Ha as [-> | (o & -> & Ho)]; [constructor |].
        repeat constructor. exists m, "away".
        split; [by left |]. split; [right; by left | done].
      * eapply Forall_impl; [exact Hrest_new |].
        intros o (m' & team & Hin & Ho). exists m', team. by split; [right |].
Qed.
End Reports.

Section ReportedFacts.
Local Open Scope Q_scope.

Lemma ask_price_cents market :
  0 < ValueFinder.ask_price market < 1 ->
  (1 <= KalshiMarket.yes_ask market <= 99)%Z.
Proof.
  unfold ValueFinder.ask_price. intros [H0 H1].
  assert (0 < inject_Z (KalshiMarket.yes_ask market)
          /\ inject_Z (KalshiMarket.yes_ask market) < 100) as [Hpos Hlt].
  { generalize dependent (inject_Z (KalshiMarket.yes_ask market)).
    intros x H0 H1. unfold Qdiv in H0, H1. split.
    - apply (Qmult_lt_r _ _ (/ 100)); [done |]. by rewrite Qmult_0_l.
    - apply (Qmult_lt_r _ _ (/ 100)); [done |].
      setoid_replace (100 * / 100) with 1 using relation Qeq by field. done. }
  change 0 with (inject_Z 0) in Hpos. change 100 with (inject_Z 100) in Hlt.
  rewrite <- Zlt_Qlt in Hpos, Hlt. lia.
Qed.

Lemma determine_confidence_levels n std :
  In (ValueFinder._determine_confidence n std) confidence_levels.
Proof.
  unfold ValueFinder._determine_confidence, confidence_levels.
  destruct (_ && _); [by left |]. destruct (_ && _); [right; by left |].
  right; right; by left.
Qed.

Lemma side_market_listing m team market :
  side_market m team = Some market -> listing_of m market.
Proof.
  unfold side_market, listing_of. destruct (String.eqb team "home"); eauto.
Qed.

Lemma reported_bet_price self m team opp :
  In team ["home"; "away"] -> reported self m team opp ->
  exists market,
    side_market m team = Some market
    /\ bet_price opp = ValueFinder.ask_price market
    /\ 0 < bet_price opp < 1
    /\ ValueOpportunity.kalshi_ticker opp = KalshiMarket.ticker market
    /\ bet_team opp
       = (if String.eqb team "home"
          then VegasEvent.home_team (Match.vegas_event m)
          else VegasEvent.away_team (Match.vegas_event m))
    /\ (vegas_prob opp - bet_price opp == ValueOpportunity.gross_edge opp).
Proof.
  intros Hteam (probs & market & c & Hprobs & Hside & Hprice & Hc & Hedge & ->).
  exists market. split; [done |].
  destruct (calculate_inv _ _ _ _ _ _ Hc) as (fee & _ & _ & _ & Hy).
  cbn [String.eqb Ascii.eqb Bool.eqb] in Hy. destruct Hy as (_ & Hg & _).
  unfold bet_price, bet_team, vegas_prob, opportunity_for.
  cbn [ValueOpportunity.recommended_team ValueOpportunity.kalshi_home_price
       ValueOpportunity.kalshi_away_price ValueOpportunity.kalshi_ticker
       ValueOpportunity.home_team ValueOpportunity.away_team
       ValueOpportunity.vegas_home_prob ValueOpportunity.vegas_away_prob
       ValueOpportunity.gross_edge].
  rewrite Hg. unfold side_prob.
  destruct Hteam as [<- | [<- | []]]; cbn [String.eqb Ascii.eqb Bool.eqb];
    unfold side_price; rewrite Hside.
  all: do 4 (split; [done |]); reflexivity.
Qed.
Lemma omap_length_le {X Y : Type} (f : X -> option Y) (l : list X) :
  (length (omap f l) <= length l)%nat.
Proof.
  induction l as [| x l IH]; [done |].
  change (omap f (x :: l))
    with (match f x with Some y => y :: omap f l | None => omap f l end).
  destruct (f x); cbn [length]; lia.
Qed.
End ReportedFacts.

(** X16. Every opportunity the pipeline returns is for an event of the input and
    a listing of the input: it carries the sport, the id and the teams of
    the event and the ticker of the listing; the listing has a game id and
    is asked between 1 and 99 cents, which is the price of the side that is
    recommended; the position is ['yes'], the confidence one of the three
    levels, and at least one bookmaker is counted.  There are two
    opportunities an event at most. *)
Theorem opportunities_come_from_the_input
  (partial_ratio ratio : string -> string -> Q) (self : ValueFinder.t)
  (vegas_events : list VegasEvent.t) (kalshi_markets : list KalshiMarket.t)
  (final : list ValueOpportunity.t) :
  ValueFinder.find_game_winner_value partial_ratio ratio self vegas_events
    kalshi_markets = Ok final ->
  Forall (fun opp =>
            exists vegas_event market,
              In vegas_event vegas_events /\ In market kalshi_markets
              /\ ValueOpportunity.sport opp = VegasEvent.sport_key vegas_event
              /\ ValueOpportunity.vegas_event_id opp = VegasEvent.id vegas_event
              /\ ValueOpportunity.home_team opp = VegasEvent.home_team vegas_event
              /\ ValueOpportunity.away_team opp = VegasEvent.away_team vegas_event
              /\ ValueOpportunity.kalshi_ticker opp = KalshiMarket.ticker market
              /\ KalshiMarket._game_id market <> ""
              /\ 1 <= KalshiMarket.yes_ask market <= 99
              /\ bet_price opp = ValueFinder.ask_price market
              /\ ValueOpportunity.recommended_position opp = "yes"
              /\ In (ValueOpportunity.recommended_team opp) ["home"; "away"]
              /\ In (ValueOpportunity.confidence opp) confidence_levels
              /\ 1 <= ValueOpportunity.num_bookmakers opp)
    final
  /\ (length final <= 2 * length vegas_events)%nat.
Proof.
  intros H.
  apply find_game_winner_value_inv in H as (emitted & calls & Hscan & ->).
  unfold ValueFinder.scan, ValueFinder.evaluate_matches in Hscan.
  apply evaluate_matches_reports in Hscan as (new & Hnew & Hlen & Hrep).
  cbn [app] in Hnew. subst new.
  split.
  - rewrite sorted_key_reverse_perm.
    eapply Forall_impl; [exact Hrep |]. clear Hrep Hlen.
    intros opp (m & team & Hm & Hteam & Hopp).
    pose proof (matches_from_input partial_ratio ratio vegas_events
                  kalshi_markets) as Hfrom.
    rewrite List.Forall_forall in Hfrom.
    destruct (Hfrom m Hm) as (Hev & Hgid & _ & Hlist).
    destruct (reported_bet_price _ _ _ _ Hteam Hopp)
      as (market & Hside & Hprice & Hrange & Hticker & _).
    destruct (Hlist market (side_market_listing _ _ _ Hside)) as [Hin Hgame].
    destruct Hopp as (probs & market' & c & Hprobs & Hside' & Hask & _ & _ & ->).
    rewrite Hside in Hside'. injection Hside' as <-.
    destruct (consensus_complement _ _ _ Hprobs) as (_ & _ & _ & _ & Hn & _).
    exists (Match.vegas_event m), market.
    do 7 (split; [done |]). split; [congruence |].
    split; [by apply ask_price_cents |]. split; [done |]. split; [done |].
    split; [done |]. split; [apply determine_confidence_levels | done].
  - unfold sorted_key_reverse. rewrite sorted_length.
    pose proof (omap_length_le
                  (match_event partial_ratio ratio
                     (group_by_game_id kalshi_markets)) vegas_events) as Hm.
    unfold match_game_winner_markets in Hlen. cbv zeta in Hlen.
    lia.
Qed.

Lemma opportunities_come_from_the_input_witness :
  exists final,
    ValueFinder.find_game_winner_value Sample.substring_score
      Sample.equality_score ValueFinder.default [Sample.quoted_event]
      Sample.lakers_celtics_listings = Ok final
    /\ (length final <= 2 * 1)%nat.
Proof.
  eexists. split; [vm_compute; reflexivity |].
  eapply (opportunities_come_from_the_input Sample.substring_score
            Sample.equality_score ValueFinder.default [Sample.quoted_event]
            Sample.lakers_celtics_listings).
  vm_compute. reflexivity.
Defined.

Section BothSides.
Local Open Scope Q_scope.

Lemma reported_net_edge self m team opp :
  reported self m team opp ->
  exists probs market,
    ValueFinder._process_vegas_event self (Match.vegas_event m) = Ok (Some probs)
    /\ side_market m team = Some market
    /\ ValueFinder.min_edge self
       < side_prob probs team - ValueFinder.ask_price market.
Proof.
  intros (probs & market & c & Hprobs & Hside & _ & Hc & Hedge & _).
  exists probs, market. split; [done |]. split; [done |].
  destruct (calculate_inv _ _ _ _ _ _ Hc) as (fee & Hfee & _ & _ & Hy).
  cbn [String.eqb Ascii.eqb Bool.eqb] in Hy. destruct Hy as (_ & _ & Hn).
  destruct (fee_per_contract_pos _ _ _ _ Hfee) as [_ Hpos].
  rewrite Hn in Hedge. lra.
Qed.
End BothSides.

(** X17. The engine reports both sides of a match only when the two ask prices
    add up to less than 1 by more than twice the minimum edge, the floats
    read as exact rationals: the two consensus probabilities add up to 1,
    and each side has to beat its price, its fee and the minimum edge. *)
Theorem both_sides_are_reported_only_below_a_dollar
  (self : ValueFinder.t) (m : Match.t)
  (opps : list ValueOpportunity.t) (calls : list EdgeCalculation.t) :
  ValueFinder.evaluate_match self m ([], []) = Ok (opps, calls) ->
  (length opps <= 2)%nat
  /\ (length opps = 2%nat ->
      map ValueOpportunity.recommended_team opps = ["home"; "away"]
      /\ (side_price m "home" + side_price m "away"
          + 2 * ValueFinder.min_edge self < 1)%Q).
Proof.
  intros H.
  apply evaluate_match_reports in H as (home_new & away_new & -> & Hh & Ha).
  cbn [app].
  destruct Hh as [-> | (oh & -> & Hoh)]; destruct Ha as [-> | (oa & -> & Hoa)];
    cbn [app length]; (split; [lia |]); intros Hlen; try discriminate.
  split.
  { destruct Hoh as (? & ? & ? & _ & _ & _ & _ & _ & ->).
    by destruct Hoa as (? & ? & ? & _ & _ & _ & _ & _ & ->). }
  apply reported_net_edge in Hoh as (probs & hm & Hprobs & Hhm & Hhe).
  apply reported_net_edge in Hoa as (probs' & am & Hprobs' & Ham & Hae).
  rewrite Hprobs in Hprobs'. injection Hprobs' as <-.
  destruct (consensus_complement _ _ _ Hprobs) as (Hsum & _).
  unfold side_price. rewrite Hhm, Ham.
  unfold side_prob in Hhe, Hae. cbn [String.eqb Ascii.eqb Bool.eqb] in Hhe, Hae.
  lra.
Qed.

Lemma both_sides_are_reported_only_below_a_dollar_witness :
  exists m opps calls,
    match_game_winner_markets Sample.substring_score Sample.equality_score
      [Sample.quoted_event] Sample.lakers_celtics_listings = [m]
    /\ ValueFinder.evaluate_match ValueFinder.default m ([], [])
       = Ok (opps, calls)
    /\ length opps = 2%nat
    /\ (side_price m "home" + side_price m "away"
        + 2 * ValueFinder.min_edge ValueFinder.default < 1)%Q.
Proof.
  eexists. eexists. eexists. split; [vm_compute; reflexivity |].
  split; [vm_compute; reflexivity |]. split; [reflexivity |].
  eapply (both_sides_are_reported_only_below_a_dollar ValueFinder.default);
    [vm_compute; reflexivity | reflexivity].
Defined.

(** X18. The confidence of a consensus is decided by the number of qualifying
    quotes and by one dispersion, that of the home probabilities, the two
    dispersions being the same number: it is one of the three levels, it is
    ['low'] with fewer than five quotes whatever their agreement, and
    ['high'] takes eight quotes at least. *)
Theorem confidence_of_a_consensus (self : ValueFinder.t)
  (event : VegasEvent.t) (probs : VegasProbs.t) :
  ValueFinder._process_vegas_event self event = Ok (Some probs) ->
  let confidence :=
    ValueFinder._determine_confidence (VegasProbs.num_bookmakers probs)
      (root_max (VegasProbs.home_std probs) (VegasProbs.away_std probs)) in
  confidence
  = ValueFinder._determine_confidence (len (qualifying_quotes event))
      (dispersion (map devig_home (qualifying_quotes event)))
  /\ In confidence confidence_levels
  /\ (len (qualifying_quotes event) < 5 -> confidence = "low")
  /\ (confidence = "high" -> 8 <= len (qualifying_quotes event)).
Proof.
  intros H confidence.
  destruct (consensus_complement _ _ _ H) as (_ & _ & _ & Hstd & _ & Hn & Hd).
  assert (root_max (VegasProbs.home_std probs) (VegasProbs.away_std probs)
          = VegasProbs.home_std probs) as Hmax.
  { unfold root_max. destruct (Qltb _ _) eqn:E; [| done].
    apply Qltb_lt in E. rewrite Hstd in E. by apply Qlt_irrefl in E. }
  subst confidence. rewrite Hmax, Hn, Hd.
  split; [done |]. split; [apply determine_confidence_levels |].
  unfold ValueFinder._determine_confidence.
  destruct (Z.leb_spec 8 (len (qualifying_quotes event)));
    destruct (Z.leb_spec 5 (len (qualifying_quotes event)));
    cbn [andb]; split; intros; try lia; try done;
    repeat match goal with
           | |- context [if ?b then _ else _] => destruct b
           | H : context [if ?b then _ else _] |- _ => destruct b
           end; try done; try lia.
Qed.

Lemma confidence_of_a_consensus_witness :
  exists probs,
    ValueFinder._process_vegas_event ValueFinder.default Sample.quoted_event
    = Ok (Some probs)
    /\ ValueFinder._determine_confidence (VegasProbs.num_bookmakers probs)
         (root_max (VegasProbs.home_std probs) (VegasProbs.away_std probs))
       = "low".
Proof.
  eexists. split; [vm_compute; reflexivity |].
  eapply (confidence_of_a_consensus ValueFinder.default Sample.quoted_event).
  - vm_compute. reflexivity.
  - vm_compute. reflexivity.
Defined.

(** ** What is shown of an opportunity *)

Section Displayed.
Variable partial_ratio : string -> string -> Q.
Variable ratio : string -> string -> Q.
Variable self : ValueFinder.t.

Lemma final_reported vegas_events kalshi_markets final :
  ValueFinder.find_game_winner_value partial_ratio ratio self vegas_events
    kalshi_markets = Ok final ->
  Forall (fun o =>
            exists m team, In team ["home"; "away"] /\ reported self m team o)
    final.
Proof.
  intros H.
  apply find_game_winner_value_inv in H as (emitted & calls & Hscan & ->).
  unfold ValueFinder.scan, ValueFinder.evaluate_matches in Hscan.
  apply evaluate_matches_reports in Hscan as (new & Hnew & _ & Hrep).
  cbn [app] in Hnew. subst new. rewrite sorted_key_reverse_perm.
  eapply Forall_impl; [exact Hrep |].
  intros o (m & team & _ & Hteam & Ho). by exists m, team.
Qed.

Lemma count_sport_total sports sport_name :
  total_count (count_sport sports sport_name) = total_count sports + 1.
Proof.
  unfold total_count.
  induction sports as [| [s c] rest IH]; [done |]. cbn [count_sport].
  destruct (String.eqb s sport_name); cbn [foldr snd]; lia.
Qed.

Lemma sport_counts_total opportunities sports :
  total_count
    (fold_left
       (fun sports opp =>
          count_sport sports
            (get_sport_display_name (ValueOpportunity.sport opp)))
       opportunities sports)
  = total_count sports + len opportunities.
Proof.
  revert sports. induction opportunities as [| o rest IH]; intros sports.
  - unfold len. simpl. lia.
  - cbn [fold_left]. rewrite IH, count_sport_total. unfold len.
    cbn [length]. lia.
Qed.

Lemma confidence_counts_total opportunities :
  Forall (fun o => In (ValueOpportunity.confidence o) confidence_levels)
    opportunities ->
  confidence_count "high" opportunities
  + confidence_count "medium" opportunities
  + confidence_count "low" opportunities
  = len opportunities.
Proof.
  unfold confidence_count, len.
  induction 1 as [| o rest Ho _ IH]; [done |]. cbn [List.filter length].
  destruct Ho as [<- | [<- | [<- | []]]];
    cbn [String.eqb Ascii.eqb Bool.eqb length]; lia.
Qed.
End Displayed.

(** X19. For every opportunity the pipeline returns, the console has a
    consistent line: the recommendation reads as the team of the recommended
    side followed by [YES]; the price shown is the ask price of that side,
    strictly between 0 and 1, so that the cost of any positive number of
    contracts is computed with the fee and nothing is raised; and the gross
    edge is the probability shown less the price shown, the floats read as
    exact rationals. *)
Theorem console_lines_are_consistent
  (partial_ratio ratio : string -> string -> Q) (self : ValueFinder.t)
  (vegas_events : list VegasEvent.t) (kalshi_markets : list KalshiMarket.t)
  (final : list ValueOpportunity.t) :
  ValueFinder.find_game_winner_value partial_ratio ratio self vegas_events
    kalshi_markets = Ok final ->
  Forall (fun opp =>
            display_position opp = String.app (bet_team opp) " YES"
            /\ (0 < bet_price opp < 1)%Q
            /\ (vegas_prob opp - bet_price opp
                == ValueOpportunity.gross_edge opp)%Q
            /\ forall n, 0 < n ->
                 exists fee,
                   calculate_kalshi_fee (bet_price opp) n false = Ok fee
                   /\ position_cost opp n
                      = Ok (bet_price opp * inject_Z n + fee)%Q)
    final.
Proof.
  intros H. apply final_reported in H.
  eapply Forall_impl; [exact H |]. clear H.
  intros opp (m & team & Hteam & Hopp).
  destruct (reported_bet_price _ _ _ _ Hteam Hopp)
    as (market & _ & _ & Hrange & _ & _ & Hgross).
  split.
  { destruct Hopp as (? & ? & ? & _ & _ & _ & _ & _ & ->).
    reflexivity. }
  split; [done |]. split; [done |]. intros n Hn.
  destruct Hrange as [H0 H1].
  eexists. split; [by apply fee_valid |].
  unfold position_cost, calculate_effective_cost.
  apply Qltb_lt in H0, H1. rewrite H0, H1. cbn [andb].
  apply Qltb_lt in H0, H1. by rewrite fee_valid.
Qed.

Lemma console_lines_are_consistent_witness :
  exists final,
    ValueFinder.find_game_winner_value Sample.substring_score
      Sample.equality_score ValueFinder.default [Sample.quoted_event]
      Sample.lakers_celtics_listings = Ok final
    /\ map display_position final
       = ["Boston Celtics YES"; "Los Angeles Lakers YES"]
    /\ Forall (fun opp => (0 < bet_price opp < 1)%Q) final.
Proof.
  eexists. split; [vm_compute; reflexivity |]. split; [reflexivity |].
  eapply Forall_impl;
    [eapply (console_lines_are_consistent Sample.substring_score
               Sample.equality_score ValueFinder.default [Sample.quoted_event]
               Sample.lakers_celtics_listings);
     vm_compute; reflexivity |].
  by intros o (_ & Ho & _).
Defined.

(** X20. The summary accounts for every opportunity the pipeline returns: the
    counts by confidence add up to their number, no opportunity having a
    confidence outside the three levels, and so do the counts by sport. *)
Theorem summary_counts_every_opportunity
  (partial_ratio ratio : string -> string -> Q) (self : ValueFinder.t)
  (vegas_events : list VegasEvent.t) (kalshi_markets : list KalshiMarket.t)
  (final : list ValueOpportunity.t) :
  ValueFinder.find_game_winner_value partial_ratio ratio self vegas_events
    kalshi_markets = Ok final ->
  confidence_count "high" final + confidence_count "medium" final
  + confidence_count "low" final = len final
  /\ total_count (sport_counts final) = len final.
Proof.
  intros H. apply final_reported in H. split.
  - apply confidence_counts_total.
    eapply Forall_impl; [exact H |].
    intros o (m & team & _ & (? & ? & ? & _ & _ & _ & _ & _ & ->)).
    apply determine_confidence_levels.
  - unfold sport_counts. by rewrite sport_counts_total.
Qed.

Lemma summary_counts_every_opportunity_witness :
  exists final,
    ValueFinder.find_game_winner_value Sample.substring_score
      Sample.equality_score ValueFinder.default [Sample.quoted_event]
      Sample.lakers_celtics_listings = Ok final
    /\ confidence_count "high" final + confidence_count "medium" final
       + confidence_count "low" final = 2
    /\ sport_counts final = [("NBA", 2)].
Proof.
  eexists. split; [vm_compute; reflexivity |]. split; [| reflexivity].
  eapply (summary_counts_every_opportunity Sample.substring_score
            Sample.equality_score ValueFinder.default [Sample.quoted_event]
            Sample.lakers_celtics_listings).
  vm_compute. reflexivity.
Defined.

(** ** The price in cents on binary64 numbers *)

(** X21. The console shows [int(price * 100)] cents for the price
    [yes_ask / 100].  In exact arithmetic that is [yes_ask]; on binary64
    numbers it is [yes_ask] but for the asks of 29, 57 and 58 cents, shown
    as 28, 56 and 57 cents: there [yes_ask / 100 * 100] falls just below
    the integer, and [int] cuts it down. *)
Theorem binary64_price_in_cents (yes_ask : Z) :
  1 <= yes_ask <= 99 ->
  Binary64.price_cents (Binary64.ask_price yes_ask)
  = Ok (if existsb (fun lost => yes_ask =? lost) cents_lost
        then yes_ask - 1 else yes_ask)
  /\ Qfloor (inject_Z yes_ask / 100 * 100) = yes_ask.
Proof.
  intros H. split.
  - assert (In yes_ask (map Z.of_nat (seq 1 99))) as Hin.
    { apply in_map_iff. exists (Z.to_nat yes_ask). split; [lia |].
      apply in_seq. lia. }
    apply (forallb_forall
             (fun a =>
                match Binary64.price_cents (Binary64.ask_price a) with
                | Ok cents =>
                    cents =? (if existsb (fun lost => a =? lost) cents_lost
                              then a - 1 else a)
                | Raise _ => false
                end)
             (map Z.of_nat (seq 1 99))) in Hin; [| vm_compute; reflexivity].
    destruct (Binary64.price_cents (Binary64.ask_price yes_ask)) as [cents | e];
      [| done].
    apply Z.eqb_eq in Hin. by rewrite Hin.
  - assert (inject_Z yes_ask / 100 * 100 == inject_Z yes_ask)%Q as -> by field.
    apply Qfloor_Z.
Qed.

Lemma binary64_price_in_cents_witness :
  Binary64.price_cents (Binary64.ask_price 29) = Ok 28
  /\ Qfloor (inject_Z 29 / 100 * 100) = 29.
Proof. apply (binary64_price_in_cents 29). lia. Defined.

(** ** The fee in the costs of the console *)

(** X22. The console shows the cost of 1, 10, 50 and 100 contracts.  Over the
    ask prices of 1 to 99 cents, the fee in the cost of 1 and of 10
    contracts is the fee of exact arithmetic; the fee in the cost of 50
    contracts is one cent above it at the asks of 20, 40, 60 and 80 cents,
    and nowhere below it. *)
Theorem binary64_fee_in_the_costs_shown :
  Forall (fun yes_ask =>
            binary64_cents_for 1 yes_ask = exact_cents_for 1 yes_ask
            /\ binary64_cents_for 10 yes_ask = exact_cents_for 10 yes_ask
            /\ binary64_cents_for 50 yes_ask
               = exact_cents_for 50 yes_ask
                 + (if existsb (fun a => yes_ask =? a) [20; 40; 60; 80]
                    then 1 else 0))
    (map Z.of_nat (seq 1 99)).
Proof.
  apply List.Forall_forall. intros yes_ask Hin.
  apply (forallb_forall
           (fun a =>
              (binary64_cents_for 1 a =? exact_cents_for 1 a)
              && (binary64_cents_for 10 a =? exact_cents_for 10 a)
              && (binary64_cents_for 50 a
                  =? exact_cents_for 50 a
                     + (if existsb (fun b => a =? b) [20; 40; 60; 80]
                        then 1 else 0)))
           (map Z.of_nat (seq 1 99))) in Hin; [| vm_compute; reflexivity].
  apply andb_true_iff in Hin as [Hin H50].
  apply andb_true_iff in Hin as [H1 H10].
  apply Z.eqb_eq in H1, H10, H50. done.
Qed.

(** ** The vig, once removed *)

(** X24. Removing the vig is idempotent and does not depend on the scale, the
    floats read as exact rationals: the two probabilities [remove_vig]
    returns lie between 0 and 1 for inputs that are not negative, are
    returned as they are when the vig is removed again, and are the same for
    the inputs multiplied by a positive factor. *)
Theorem remove_vig_is_idempotent (p_a p_b k : Q) (true_a true_b : Q) :
  (0 <= p_a)%Q -> (0 <= p_b)%Q -> (0 < k)%Q ->
  remove_vig p_a p_b = Ok (true_a, true_b) ->
  (0 <= true_a <= 1)%Q /\ (0 <= true_b <= 1)%Q
  /\ (exists again_a again_b,
        remove_vig true_a true_b = Ok (again_a, again_b)
        /\ (again_a == true_a)%Q /\ (again_b == true_b)%Q)
  /\ (exists scaled_a scaled_b,
        remove_vig (k * p_a) (k * p_b) = Ok (scaled_a, scaled_b)
        /\ (scaled_a == true_a)%Q /\ (scaled_b == true_b)%Q).
Proof.
  intros Ha Hb Hk. unfold remove_vig at 1. cbv zeta.
  destruct (Qleb (p_a + p_b) 0) eqn:E; [done |]. apply Qleb_gt in E.
  intros H. apply Ok_inj in H. injection H as <- <-.
  assert (p_a / (p_a + p_b) + p_b / (p_a + p_b) == 1)%Q as Hsum
    by (field; lra).
  assert (0 <= p_a / (p_a + p_b))%Q as Ha'
    by (apply Qle_shift_div_l; [done | lra]).
  assert (0 <= p_b / (p_a + p_b))%Q as Hb'
    by (apply Qle_shift_div_l; [done | lra]).
  split; [split; [done | lra] |]. split; [split; [done | lra] |]. split.
  - unfold remove_vig. cbv zeta.
    destruct (Qleb (p_a / (p_a + p_b) + p_b / (p_a + p_b)) 0) eqn:E'.
    { apply Qleb_le in E'. lra. }
    eexists. eexists. split; [done |]. rewrite Hsum. split; field; lra.
  - unfold remove_vig. cbv zeta.
    assert (0 < k * p_a + k * p_b)%Q as Hpos.
    { setoid_replace (k * p_a + k * p_b)%Q with (k * (p_a + p_b))%Q
        using relation Qeq by ring.
      by apply Qmult_lt_0_compat. }
    destruct (Qleb (k * p_a + k * p_b) 0) eqn:E'.
    { apply Qleb_le in E'. lra. }
    eexists. eexists. split; [done |]. split; field; lra.
Qed.

Lemma remove_vig_is_idempotent_witness :
  remove_vig (3 # 4) (2 # 4) = Ok (48 # 80, 32 # 80)%Q
  /\ exists again_a again_b,
       remove_vig (48 # 80) (32 # 80) = Ok (again_a, again_b)
       /\ (again_a == 48 # 80)%Q /\ (again_b == 32 # 80)%Q.
Proof.
  split; [reflexivity |].
  destruct (remove_vig_is_idempotent (3 # 4) (2 # 4) 2 (48 # 80) (32 # 80))
    as (_ & _ & Hagain & _); [done | done | done | reflexivity | exact Hagain].
Defined.

(** ** Errors of the scan *)

Section ScanErrors.
Variable self : ValueFinder.t.

Lemma quote_ok_false q : quote_ok q = false <-> q = (0, 0).
Proof.
  split.
  - intros H. destruct (decide (q = (0, 0))) as [-> | Hq]; [done |].
    by rewrite quote_ok_nondegenerate in H.
  - by intros ->.
Qed.

Lemma forallb_quote_ok quotes :
  forallb quote_ok quotes = false <-> In (0, 0) quotes.
Proof.
  induction quotes as [| q quotes IH]; [done |]. cbn [forallb In].
  rewrite andb_false_iff, IH, quote_ok_false. split; intros [H | H]; eauto.
Qed.

(** The consensus builder raises on a degenerate quote, and on nothing
    else. *)
Lemma process_vegas_event_raises event :
  match ValueFinder._process_vegas_event self event with
  | Ok _ =>
      ~ (ValueFinder.min_bookmakers self <= len (VegasEvent.bookmakers event)
         /\ In (0, 0) (qualifying_quotes event))
  | Raise e =>
      e = vig_error
      /\ ValueFinder.min_bookmakers self <= len (VegasEvent.bookmakers event)
      /\ In (0, 0) (qualifying_quotes event)
  end.
Proof.
  rewrite process_vegas_event_eq.
  destruct (Z.ltb_spec (len (VegasEvent.bookmakers event))
              (ValueFinder.min_bookmakers self)) as [Hlt | Hge].
  { intros [H _]. lia. }
  destruct (forallb quote_ok (qualifying_quotes event)) eqn:E.
  - assert (~ In (0, 0) (qualifying_quotes event)) as Hno.
    { rewrite <- forallb_quote_ok. by rewrite E. }
    destruct (qualifying_quotes event) as [| q quotes] eqn:Eq.
    { by intros [_ H]. }
    rewrite <- Eq in *. cbv beta iota zeta.
    destruct (median_some (map devig_home (qualifying_quotes event)))
      as (hm & ->); [by rewrite Eq |].
    destruct (median_some (map devig_away (qualifying_quotes event)))
      as (am & ->); [by rewrite Eq |].
    simpl. by intros [_ H].
  - apply forallb_quote_ok in E. done.
Qed.

(** The loop body raises exactly on a degenerate match. *)
Lemma evaluate_match_raises m state :
  match ValueFinder.evaluate_match self m state with
  | Ok _ => ~ degenerate self m
  | Raise e => e = vig_error /\ degenerate self m
  end.
Proof.
  unfold ValueFinder.evaluate_match, degenerate.
  pose proof (process_vegas_event_raises (Match.vegas_event m)) as Hp.
  destruct (ValueFinder._process_vegas_event self (Match.vegas_event m))
    as [[probs |] | e]; cbn [mbind result_bind]; [| done | done].
  assert (forall (market : KalshiMarket.t) prob,
            Qltb 0 (ValueFinder.ask_price market)
            && Qltb (ValueFinder.ask_price market) 1 = true ->
            exists c, EdgeCalculation.calculate (ValueFinder.ask_price market)
                        prob 100 "yes" false = Ok c) as Hcalc.
  { intros market prob H. apply andb_true_iff in H as [H0 H1].
    apply Qltb_lt in H0, H1. by apply calculate_ok. }
  destruct (Match.kalshi_home_market m) as [hm |];
    destruct (Match.kalshi_away_market m) as [am |];
    repeat match goal with
           | |- context [Qltb 0 (ValueFinder.ask_price ?mk)
                         && Qltb (ValueFinder.ask_price ?mk) 1] =>
               let E := fresh "E" in
               destruct (Qltb 0 (ValueFinder.ask_price mk)
                         && Qltb (ValueFinder.ask_price mk) 1) eqn:E
           | E : Qltb 0 (ValueFinder.ask_price ?mk)
                 && Qltb (ValueFinder.ask_price ?mk) 1 = true
             |- context [EdgeCalculation.calculate (ValueFinder.ask_price ?mk)
                           ?prob 100 "yes" false] =>
               let c := fresh "c" in
               let Hc := fresh "Hc" in
               destruct (Hcalc mk prob E) as (c & Hc); rewrite Hc;
               cbn [mbind result_bind]
           | |- context [if Qleb ?a ?b then _ else _] => destruct (Qleb a b)
           end; cbn [mbind result_bind]; try done.
Qed.

Lemma evaluate_matches_raise ms state :
  match for_each ms (ValueFinder.evaluate_match self) state with
  | Ok _ => Forall (fun m => ~ degenerate self m) ms
  | Raise e => e = vig_error /\ Exists (degenerate self) ms
  end.
Proof.
  revert state. induction ms as [| m ms IH]; intros state; [constructor |].
  cbn [for_each].
  pose proof (evaluate_match_raises m state) as Hm.
  destruct (ValueFinder.evaluate_match self m state) as [state' | e];
    cbn [mbind result_bind].
  - specialize (IH state').
    destruct (for_each ms _ state') as [final | e].
    + by constructor.
    + destruct IH as [-> IH]. split; [done |]. by right.
  - destruct Hm as [-> Hm]. split; [done |]. by left.
Qed.
End ScanErrors.

(** X25. The scan raises on a degenerate quote and on nothing else.  When an
    event that is matched and lists the minimum number of bookmakers has a
    quote of the odds 0 and 0, the pipeline raises the [ValueError] of
    [remove_vig] and returns no opportunity, of that event or of any other;
    without such an event it returns a list. *)
Theorem a_degenerate_quote_aborts_the_scan
  (partial_ratio ratio : string -> string -> Q) (self : ValueFinder.t)
  (vegas_events : list VegasEvent.t) (kalshi_markets : list KalshiMarket.t) :
  let matches :=
    match_game_winner_markets partial_ratio ratio vegas_events kalshi_markets in
  match ValueFinder.find_game_winner_value partial_ratio ratio self
          vegas_events kalshi_markets with
  | Ok _ => Forall (fun m => ~ degenerate self m) matches
  | Raise e => e = vig_error /\ Exists (degenerate self) matches
  end.
Proof.
  intros matches. unfold ValueFinder.find_game_winner_value, ValueFinder.scan,
    ValueFinder.evaluate_matches. cbv zeta. fold matches.
  pose proof (evaluate_matches_raise self matches ([], [])) as H.
  by destruct (for_each matches _ _) as [state | e].
Qed.

Lemma a_degenerate_quote_aborts_the_scan_witness :
  ValueFinder.find_game_winner_value Sample.substring_score
    Sample.equality_score ValueFinder.default
    [Sample.quoted_event; degenerate_event] Sample.lakers_celtics_listings
  = Raise vig_error.
Proof.
  pose proof (a_degenerate_quote_aborts_the_scan Sample.substring_score
                Sample.equality_score ValueFinder.default
                [Sample.quoted_event; degenerate_event]
                Sample.lakers_celtics_listings) as H.
  cbv zeta in H.
  destruct (ValueFinder.find_game_winner_value _ _ _ _ _) as [final | e] eqn:E.
  - vm_compute in E. discriminate.
  - by destruct H as [-> _].
Defined.

(** ** The fee of a maker *)

(** X26. A maker never pays more than a taker: for every price and number of
    contracts the function accepts, the fee with [is_maker] set is at most
    the fee without, the floats read as exact rationals; and so it is on
    binary64 numbers for 100 contracts at every ask price of 1 to 99
    cents. *)
Theorem maker_fee_is_at_most_taker_fee (price : Q) (n : Z) (maker_fee : Q) :
  calculate_kalshi_fee price n true = Ok maker_fee ->
  (exists taker_fee,
     calculate_kalshi_fee price n false = Ok taker_fee
     /\ (maker_fee <= taker_fee)%Q)
  /\ Forall (fun yes_ask =>
               match Binary64.fee_cents (Binary64.ask_price yes_ask) 100 true,
                     Binary64.fee_cents (Binary64.ask_price yes_ask) 100 false
               with
               | Ok maker_cents, Ok taker_cents => 1 <= maker_cents <= taker_cents
               | _, _ => False
               end)
       (map Z.of_nat (seq 1 99)).
Proof.
  intros H. split.
  - destruct (fee_ok_inv _ _ _ _ H) as [[Hp0 Hp1] Hn].
    rewrite fee_valid in H by done. apply Ok_inj in H. subst maker_fee.
    eexists. split; [by apply fee_valid |].
    assert (0 < inject_Z n)%Q as Hn' by by apply inject_Z_pos.
    assert (raw_fee price n true * 100 <= raw_fee price n false * 100)%Q as Hle.
    { rewrite !raw_fee_eq. unfold multiplier_of.
      assert (0 <= inject_Z n * price * (1 - price))%Q as Hnn.
      { apply Qmult_le_0_compat; [apply Qmult_le_0_compat |]; lra. }
      setoid_replace ((175 # 10000) * inject_Z n * price * (1 - price) * 100)%Q
        with ((175 # 100) * (inject_Z n * price * (1 - price)))%Q
        using relation Qeq by ring.
      setoid_replace ((7 # 100) * inject_Z n * price * (1 - price) * 100)%Q
        with (7 * (inject_Z n * price * (1 - price)))%Q
        using relation Qeq by ring.
      generalize dependent (inject_Z n * price * (1 - price))%Q.
      intros x Hx. lra. }
    apply Qceiling_resp_le in Hle. unfold ceil.
    apply Qmult_le_compat_r; [| done]. rewrite <- Zle_Qle. exact Hle.
  - apply List.Forall_forall. intros yes_ask Hin.
    apply (forallb_forall
             (fun a =>
                match Binary64.fee_cents (Binary64.ask_price a) 100 true,
                      Binary64.fee_cents (Binary64.ask_price a) 100 false
                with
                | Ok maker_cents, Ok taker_cents =>
                    (1 <=? maker_cents) && (maker_cents <=? taker_cents)
                | _, _ => false
                end)
             (map Z.of_nat (seq 1 99))) in Hin; [| vm_compute; reflexivity].
    destruct (Binary64.fee_cents _ 100 true) as [mc | e]; [| done].
    destruct (Binary64.fee_cents _ 100 false) as [tc | e]; [| done].
    apply andb_true_iff in Hin as [H1 H2]. lia.
Qed.

Lemma maker_fee_is_at_most_taker_fee_witness :
  exists taker_fee,
    calculate_kalshi_fee (45 # 100) 100 false = Ok taker_fee
    /\ (44 # 100 <= taker_fee)%Q.
Proof.
  eapply (maker_fee_is_at_most_taker_fee (45 # 100) 100 (44 # 100)).
  reflexivity.
Defined.
